(** * TruePeopleSearch scraper: fetch engine, extraction and orchestration

    A shallow embedding of [scraper.py] (the batch path) and [api.py] (the
    request-response path).  Python text is modelled as [string] (bytes of the
    UTF-8 text; character classes are the ASCII ones), Python integers as [Z],
    seconds as rationals [Q].  The browser, the clock, the random generator,
    the HTML parser and the spreadsheet writer are external: they appear as
    the oracles of the class [Environment], consulted in program order. *)

From Stdlib Require Import ZArith QArith Lqa String Ascii List Bool Lia.
From stdpp Require Import base option list gmap strings.

Open Scope string_scope.
Open Scope list_scope.
Open Scope Z_scope.

(** ** Python text primitives *)

Module Py.

(** [needle in hay] *)
Fixpoint contains (needle hay : string) : bool :=
  String.prefix needle hay ||
  match hay with
  | EmptyString => false
  | String _ rest => contains needle rest
  end.

Definition code (c : ascii) : nat := nat_of_ascii c.

Definition between (lo hi : nat) (c : ascii) : bool :=
  (lo <=? code c)%nat && (code c <=? hi)%nat.

(** ASCII white space as [str.strip], [str.split] and [\s] see it. *)
Definition is_space (c : ascii) : bool :=
  between 9 13 c || between 28 32 c.

Definition is_digit (c : ascii) : bool := between 48 57 c.
Definition is_upper (c : ascii) : bool := between 65 90 c.
Definition is_lower (c : ascii) : bool := between 97 122 c.
Definition is_alpha (c : ascii) : bool := is_upper c || is_lower c.

(** [\w] on ASCII text *)
Definition is_word (c : ascii) : bool :=
  is_alpha c || is_digit c || (code c =? 95)%nat.

Definition chars (s : string) : list ascii := list_ascii_of_string s.
Definition text (l : list ascii) : string := string_of_list_ascii l.

Fixpoint drop_while (p : ascii -> bool) (l : list ascii) : list ascii :=
  match l with
  | [] => []
  | c :: l' => if p c then drop_while p l' else l
  end.

Fixpoint take_while (p : ascii -> bool) (l : list ascii) : list ascii :=
  match l with
  | [] => []
  | c :: l' => if p c then c :: take_while p l' else []
  end.

Definition lstrip (l : list ascii) : list ascii := drop_while is_space l.
Definition rstrip (l : list ascii) : list ascii := rev (drop_while is_space (rev l)).

(** [s.strip()], exact on ASCII text: Python also strips the white space
    beyond ASCII, such as the no-break space, which here is part of the text. *)
Definition strip (s : string) : string := text (rstrip (lstrip (chars s))).

(** [s.split(sep, 1)] for a one-character separator: one or two parts. *)
Fixpoint split1_chars (sep : ascii) (l : list ascii) : list ascii * option (list ascii) :=
  match l with
  | [] => ([], None)
  | c :: l' =>
      if Ascii.eqb c sep then ([], Some l')
      else let '(a, b) := split1_chars sep l' in (c :: a, b)
  end.

Definition split1 (sep : ascii) (s : string) : list string :=
  match split1_chars sep (chars s) with
  | (a, None) => [text a]
  | (a, Some b) => [text a; text b]
  end.

(** [s.split(sep)] for a one-character separator *)
Fixpoint split_chars (sep : ascii) (l : list ascii) : list (list ascii) :=
  match l with
  | [] => [[]]
  | c :: l' =>
      match split_chars sep l' with
      | [] => [[]]
      | cur :: more => if Ascii.eqb c sep then [] :: cur :: more else (c :: cur) :: more
      end
  end.

Definition split (sep : ascii) (s : string) : list string :=
  map text (split_chars sep (chars s)).

(** [s.split()]: runs of non-space characters (white space as [is_space]
    has it, so exact on ASCII text) *)
Fixpoint words_chars (l : list ascii) (cur : list ascii) : list (list ascii) :=
  match l with
  | [] => match cur with [] => [] | _ => [rev cur] end
  | c :: l' =>
      if is_space c
      then match cur with [] => words_chars l' [] | _ => rev cur :: words_chars l' [] end
      else words_chars l' (c :: cur)
  end.

Definition words (s : string) : list string := map text (words_chars (chars s) []).

(** [s.lower()] on ASCII letters *)
Definition lower_char (c : ascii) : ascii :=
  if is_upper c then ascii_of_nat (code c + 32) else c.

Definition lower (s : string) : string := text (map lower_char (chars s)).

(** [sep.join(parts)] *)
Definition join (sep : string) (parts : list string) : string := String.concat sep parts.

Definition hex_digit (n : nat) : ascii :=
  if (n <? 10)%nat then ascii_of_nat (48 + n) else ascii_of_nat (55 + n).

(** [urllib.parse.quote_plus] applied to the bytes of the text *)
Definition quote_plus_char (c : ascii) : list ascii :=
  if is_word c || (code c =? 46)%nat || (code c =? 45)%nat || (code c =? 126)%nat
  then [c]
  else if (code c =? 32)%nat then ["+"%char]
  else ["%"%char; hex_digit (code c / 16); hex_digit (code c mod 16)].

Definition quote_plus (s : string) : string := text (flat_map quote_plus_char (chars s)).

(** Truth value of an optional string: [None] and [""] are false. *)
Definition truthy (o : option string) : bool :=
  match o with
  | None => false
  | Some s => negb (String.eqb s "")
  end.

(** [str(x)] of an optional string inside an f-string *)
Definition fmt (o : option string) : string :=
  match o with
  | None => "None"
  | Some s => s
  end.

(** [x in xs] for a list of strings *)
Definition mem (x : string) (xs : list string) : bool := existsb (String.eqb x) xs.

(** [if x not in xs: xs.append(x)] *)
Definition add_new (xs : list string) (x : string) : list string :=
  if mem x xs then xs else xs ++ [x].

(** [xs[:n]] *)
Definition slice_to {A} (n : Z) (xs : list A) : list A :=
  if n <? 0 then take (Z.to_nat (Z.of_nat (length xs) + n)) xs
  else take (Z.to_nat n) xs.

(** [range(n)] *)
Definition range (n : Z) : list Z := map Z.of_nat (seq 0 (Z.to_nat n)).

(** [s.isascii()] *)
Definition isascii (s : string) : bool :=
  forallb (fun c => (code c <? 128)%nat) (chars s).

End Py.


(** ** Exceptions, events and the world *)

Inductive ExnClass :=
| TimeoutException
| WebDriverException
| AttributeError
| TypeError
| ValueError
| UnboundLocalError
| OSError.

(** A raised exception; [exn_msg] is what [str(e)] gives. *)
Record Exn := mkExn { exn_class : ExnClass; exn_msg : string }.

Definition is_timeout (e : Exn) : bool :=
  match exn_class e with
  | TimeoutException => true
  | _ => false
  end.

(** A row of the DataFrame that [save_results] builds from a result. *)
Record Row := mkRow {
  First_Name : string;
  Last_Name : string;
  Property_Address : option string;
  Property_City : option string;
  Property_State : option string;
  Property_Zip : option string;
  Mailing_Address : option string;
  Mailing_City : option string;
  Mailing_State : option string;
  Mailing_Zip : option string;
  Current_Address : option string;
  Phone_Numbers : string;
  Emails : string;
  Error : option string;
  Row_Index : Z
}.

(** What the program does to the outside, in program order. *)
Inductive Event :=
| ESleep (seconds : Q)                                (* time.sleep *)
| EGet (url : string)                                 (* driver.get *)
| EWait (seconds : Q)                                 (* WebDriverWait(...).until *)
| EClick                                              (* search_button.click *)
| ENewDriver (handle : nat)                           (* webdriver.Chrome *)
| EQuit (handle : nat)                                (* driver.quit *)
| ESave (path : string) (rows : list Row).            (* df.to_excel *)

(** One result card of a listing page, as the code queries it. *)
Record Card := mkCard {
  card_name : option string;    (* text of the [div.h4], when present *)
  detail_href : option string   (* [href] of the detail-link anchor, when present *)
}.

Record AddressSection := mkAddressSection {
  street : option string;
  locality : option string;
  region : option string;
  postal : option string;
  address_text : string
}.

(** A [div.col] candidate block: the phone anchor (with its telephone span,
    when it has one) and the caption block. *)
Record PhoneSection := mkPhoneSection {
  phone_link : option (option string);
  phone_info : option string
}.

(** A profile page, as the extraction code queries it. *)
Record ProfileSoup := mkProfileSoup {
  name_header : option string;
  address_section : option AddressSection;
  phone_sections : list PhoneSection;
  email_divs : list string
}.

(** The external collaborators. Every consultation uses the current tick of
    the world and advances it, so an environment fixes one behaviour of the
    browser, the random generator and the writer for a whole run. *)
Class Environment := {
  call_raises : nat -> option Exn;          (* a call that returns nothing *)
  current_url_at : nat -> Exn + string;     (* driver.current_url *)
  page_source_at : nat -> Exn + string;     (* driver.page_source *)
  attribute_at : nat -> Exn + option string;(* element.get_attribute('value') *)
  random_at : nat -> Q;                     (* random.random() *)
  soup_cards : string -> list Card;         (* BeautifulSoup(html): result cards *)
  soup_profile : string -> ProfileSoup      (* BeautifulSoup(html): profile page *)
}.

Record World := mkWorld {
  tick : nat;                 (* consultations of the environment so far *)
  trace : list Event;         (* oldest event first *)
  driver : option nat;        (* self.driver *)
  api_instance : bool         (* the module global api_instance is set *)
}.

Definition world0 : World :=
  {| tick := 0; trace := []; driver := None; api_instance := false |}.

(** ** Computations: state and exceptions *)

Definition M (A : Type) : Type := World -> (Exn + A) * World.

Definition ret {A} (a : A) : M A := fun w => (inr a, w).

Definition raise {A} (e : Exn) : M A := fun w => (inl e, w).

Definition bind {A B} (m : M A) (k : A -> M B) : M B :=
  fun w =>
    match m w with
    | (inr a, w') => k a w'
    | (inl e, w') => (inl e, w')
    end.

(** [try: m  except Exception as e: h e] *)
Definition try_except {A} (m : M A) (h : Exn -> M A) : M A :=
  fun w =>
    match m w with
    | (inr a, w') => (inr a, w')
    | (inl e, w') => h e w'
    end.

(** [try: m  except TimeoutException: h] *)
Definition try_except_timeout {A} (m : M A) (h : M A) : M A :=
  try_except m (fun e => if is_timeout e then h else raise e).

Declare Scope py_scope.
Delimit Scope py_scope with py.
Notation "x <- m ;; k" := (bind m (fun x => k))
  (at level 100, m at next level, right associativity) : py_scope.
Notation "m ;; k" := (bind m (fun _ => k))
  (at level 100, right associativity) : py_scope.
Open Scope py_scope.

(** How a statement ends inside a loop: it completes, or it is a
    [continue], a [break] or a [return v]. *)
Inductive Ctl (A : Type) :=
| Pass
| Continue
| Break
| Return (v : A).
Arguments Pass {A}.
Arguments Continue {A}.
Arguments Break {A}.
Arguments Return {A} v.

(** [for x in xs: body x]; [Some v] when the body returned [v], [None] when
    the loop ran out or broke. *)
Fixpoint for_each {X A} (xs : list X) (body : X -> M (Ctl A)) : M (option A) :=
  match xs with
  | [] => ret None
  | x :: rest =>
      c <- body x;;
      match c with
      | Pass | Continue => for_each rest body
      | Break => ret None
      | Return v => ret (Some v)
      end
  end.

(** The outcome of a [try] block, handed to the code after it. *)
Definition attempt_result {A} (m : M A) : M (Exn + A) :=
  fun w => let '(r, w') := m w in (inr r, w').

Section Primitives.
Context `{Environment}.

Definition advance (w : World) : World :=
  {| tick := S (tick w); trace := trace w; driver := driver w;
     api_instance := api_instance w |}.

Definition emit (e : Event) : M unit :=
  fun w => (inr tt, {| tick := tick w; trace := trace w ++ [e];
                       driver := driver w; api_instance := api_instance w |}).

(** A call into the browser or the writer that returns nothing. *)
Definition external : M unit :=
  fun w =>
    match call_raises (tick w) with
    | Some e => (inl e, advance w)
    | None => (inr tt, advance w)
    end.

Definition ask (oracle : nat -> Exn + string) : M string :=
  fun w =>
    match oracle (tick w) with
    | inl e => (inl e, advance w)
    | inr s => (inr s, advance w)
    end.

Definition current_url : M string := ask current_url_at.
Definition page_source : M string := ask page_source_at.

Definition get_attribute : M (option string) :=
  fun w =>
    match attribute_at (tick w) with
    | inl e => (inl e, advance w)
    | inr s => (inr s, advance w)
    end.

(** [time.sleep(d)]; a negative length is a ValueError. *)
Definition sleep (d : Q) : M unit :=
  if Qle_bool 0 d then emit (ESleep d)
  else raise (mkExn ValueError "sleep length must be non-negative").

(** [random.uniform(a, b)] is [a + (b - a) * random.random()]. *)
Definition uniform (a b : Q) : M Q :=
  fun w => (inr (a + (b - a) * random_at (tick w))%Q, advance w).

Definition get_driver : M (option nat) := fun w => (inr (driver w), w).

Definition set_driver (d : option nat) : M unit :=
  fun w => (inr tt, {| tick := tick w; trace := trace w; driver := d;
                       api_instance := api_instance w |}).

(** [try: m  except: pass] *)
Definition swallow (m : M unit) : M unit := try_except m (fun _ => ret tt).

End Primitives.

(** ** Session manager and fetch engine

    [TruePeopleSearchScraper] and [TruePeopleSearchAPI] carry the same
    [_setup_driver], [_add_delay] and [_make_request]; they differ in the
    defaults of [__init__]. *)

Record Config := mkConfig {
  min_delay : Q;
  max_delay : Q;
  max_retries : Z
}.

Section Engine.
Context `{Environment}.

Definition now : M nat := fun w => (inr (tick w), w).

(** [webdriver.Chrome(service=service, options=options)] *)
Definition new_chrome : M nat :=
  h <- now;;
  external;;
  emit (ENewDriver h);;
  ret h.

(** [driver.quit()] on a given handle *)
Definition quit (h : nat) : M unit :=
  emit (EQuit h);;
  external.

(** [self.driver], which must be a driver to be used *)
Definition the_driver : M nat :=
  d <- get_driver;;
  match d with
  | Some h => ret h
  | None => raise (mkExn AttributeError "'NoneType' object has no attribute")
  end.

(** Timeouts, window size and the responsiveness probe of a new driver. *)
Definition configure : M unit :=
  external;;
  external;;
  external;;
  _ <- current_url;;
  ret tt.

Definition setup_retries : Z := 3.

(** The retry loop of [_setup_driver]; [local] is the local variable
    [driver], bound once a constructor call has returned. *)
Fixpoint setup_loop (attempts : list Z) (local : option nat) : M (option nat) :=
  match attempts with
  | [] => ret None
  | attempt :: rest =>
      let failed (e : Exn) (local' : option nat) : M (option nat) :=
        if attempt =? setup_retries - 1 then raise e
        else
          swallow (match local' with
                   | Some h => quit h
                   | None => ret tt
                   end);;
          sleep (inject_Z ((attempt + 1) * 2));;
          setup_loop rest local' in
      r <- attempt_result new_chrome;;
      match r with
      | inl e => failed e local
      | inr h =>
          r' <- attempt_result configure;;
          match r' with
          | inl e => failed e (Some h)
          | inr _ => ret (Some h)
          end
      end
  end.

(** [_setup_driver]: options and service first, then the retry loop; the
    outer handler prints and re-raises. *)
Definition _setup_driver : M (option nat) :=
  try_except
    (external;;
     setup_loop (Py.range setup_retries) None)
    (fun e => raise e).

(** [_add_delay] *)
Definition _add_delay (self : Config) : M unit :=
  d <- uniform (min_delay self) (max_delay self);;
  sleep d.

(** [self.driver.get(url)] *)
Definition navigate (url : string) : M unit :=
  _ <- the_driver;;
  emit (EGet url);;
  external.

(** [WebDriverWait(self.driver, seconds).until(...)] *)
Definition wait_until (seconds : Q) : M unit :=
  _ <- the_driver;;
  emit (EWait seconds);;
  external.

Definition read_url : M string :=
  _ <- the_driver;;
  current_url.

(** ["challenge" in self.driver.current_url or "captcha" in self.driver.current_url] *)
Definition on_challenge : M bool :=
  u <- read_url;;
  if Py.contains "challenge" u then ret true
  else
    u' <- read_url;;
    ret (Py.contains "captcha" u').

(** ["challenge" not in self.driver.current_url and "captcha" not in self.driver.current_url] *)
Definition off_challenge : M bool :=
  u <- read_url;;
  if Py.contains "challenge" u then ret false
  else
    u' <- read_url;;
    ret (negb (Py.contains "captcha" u')).

Definition max_cf_retries : Z := 6.

(** The polling loop over [range(max_cf_retries)]. *)
Definition poll_challenge : M unit :=
  _ <- for_each (Py.range max_cf_retries)
         (fun _ : Z =>
            cleared <- off_challenge;;
            if cleared then ret (@Break unit)
            else
              sleep 5;;
              ret Pass);;
  ret tt.

(** The inner [try] of an attempt: page-ready wait and challenge handling. *)
Definition await_page (self : Config) (attempt : Z) : M (Ctl (option string)) :=
  try_except_timeout
    (wait_until 15;;
     challenged <- on_challenge;;
     if challenged then
       sleep 5;;
       poll_challenge;;
       still <- on_challenge;;
       if still then ret (Return None) else ret Pass
     else ret Pass)
    (if attempt =? max_retries self - 1 then ret Break else ret Continue).

(** [self.driver.quit()] on the current driver *)
Definition quit_current : M unit :=
  h <- the_driver;;
  quit h.

(** Tear the session down and build a fresh one. *)
Definition restart_driver : M unit :=
  swallow quit_current;;
  d <- _setup_driver;;
  set_driver d.

(** One iteration of the loop of [_make_request]. *)
Definition attempt_body (self : Config) (url : string) (attempt : Z)
  : M (Ctl (option string)) :=
  try_except
    (_add_delay self;;
     navigate url;;
     c <- await_page self attempt;;
     match c with
     | Pass =>
         sleep 2;;
         _ <- the_driver;;
         src <- page_source;;
         ret (Return (Some src))
     | other => ret other
     end)
    (fun e =>
       if attempt =? max_retries self - 1 then ret Break
       else
         jitter <- uniform 1 3;;
         sleep (inject_Z ((attempt + 1) * 3) + jitter);;
         restart_driver;;
         ret Pass).

(** [_make_request(url)]: markup, or [None]. *)
Definition _make_request (self : Config) (url : string) : M (option string) :=
  r <- for_each (Py.range (max_retries self)) (attempt_body self url);;
  match r with
  | Some v => ret v
  | None => ret None
  end.

(** [__del__] *)
Definition __del__ : M unit := swallow quit_current.

End Engine.

(** ** The batch path: [scraper.py] *)

Module Scraper.

Record Owner := mkOwner {
  first_name : string;
  last_name : string;
  property_address : option string;
  property_city : option string;
  property_state : option string;
  property_zip : option string;
  mailing_address : option string;
  mailing_city : option string;
  mailing_state : option string;
  mailing_zip : option string;
  row_index : Z
}.

Definition full_name (o : Owner) : string :=
  first_name o +:+ " " +:+ last_name o.

(** The dictionary [extract_profile_info] fills, with its three keys. *)
Module Profile.
Record t := mk {
  current_address : option string;
  phone_numbers : list string;
  emails : list string
}.
End Profile.

(** [d.get(key, default)] on a profile dictionary; [None] is the empty
    dictionary. *)
Definition dict_get {A} (key : Profile.t -> A) (default : A) (d : option Profile.t) : A :=
  match d with
  | Some r => key r
  | None => default
  end.

Record ScrapingResult := mkScrapingResult {
  owner : Owner;
  current_address : option string;
  phone_numbers : list string;
  emails : list string;
  error : option string
}.

(** [ScrapingResult(owner=owner)] *)
Definition new_result (o : Owner) : ScrapingResult :=
  {| owner := o; current_address := None; phone_numbers := []; emails := [];
     error := None |}.

Definition set_error (msg : string) (r : ScrapingResult) : ScrapingResult :=
  {| owner := owner r; current_address := current_address r;
     phone_numbers := phone_numbers r; emails := emails r; error := Some msg |}.

Definition default_config : Config :=
  {| min_delay := 5; max_delay := 10; max_retries := 3 |}.

Definition BASE_URL : string := "https://www.truepeoplesearch.com".

(** [xs.remove(x)]: the first occurrence goes; [None] stands for the
    ValueError of an absent [x]. *)
Fixpoint list_remove (x : string) (xs : list string) : option (list string) :=
  match xs with
  | [] => None
  | y :: rest =>
      if String.eqb y x then Some rest
      else option_map (cons y) (list_remove x rest)
  end.

Definition primary_flag : string := "Possible Primary Phone".

(** One iteration of the phone loop of [extract_profile_info]. The state is
    the list [result['phone_numbers']] and the local variable [phone], which
    is unbound until a telephone span has been read. *)
Definition phone_step (st : list string * option string) (section : PhoneSection)
  : Exn + (list string * option string) :=
  let '(numbers, phone) := st in
  match phone_link section with
  | None => inr (numbers, phone)
  | Some span =>
      let '(numbers1, phone1) :=
        match span with
        | Some p => (Py.add_new numbers p, Some p)
        | None => (numbers, phone)
        end in
      match phone_info section with
      | None => inr (numbers1, phone1)
      | Some info_text =>
          if Py.contains primary_flag info_text then
            match phone1 with
            | None =>
                inl (mkExn UnboundLocalError
                       "local variable 'phone' referenced before assignment")
            | Some p =>
                match list_remove p numbers1 with
                | None => inl (mkExn ValueError "list.remove(x): x not in list")
                | Some others => inr (p :: others, phone1)
                end
            end
          else inr (numbers1, phone1)
      end
  end.

Fixpoint scan_phones (sections : list PhoneSection) (st : list string * option string)
  : Exn + list string :=
  match sections with
  | [] => inr (fst st)
  | section :: rest =>
      match phone_step st section with
      | inl e => inl e
      | inr st' => scan_phones rest st'
      end
  end.

(** One iteration of the email loop of [extract_profile_info]. *)
Definition email_step (found : list string) (email_text : string) : list string :=
  if Py.contains "@" email_text && Py.contains "." email_text then
    Py.add_new found (Py.strip email_text)
  else found.

Definition scan_emails (divs : list string) : list string :=
  fold_left email_step divs [].

(** The parsing half of [extract_profile_info]. *)
Definition parse_profile (soup : ProfileSoup) : Exn + Profile.t :=
  match scan_phones (phone_sections soup) ([], None) with
  | inl e => inl e
  | inr numbers =>
      inr {| Profile.current_address := None;
             Profile.phone_numbers := numbers;
             Profile.emails := scan_emails (email_divs soup) |}
  end.

(** The name test of [search_by_address]: some word of the owner's full
    name occurs in the card's displayed name, case-insensitively. *)
Definition name_matches (o : Owner) (displayed : string) : bool :=
  let name := Py.lower displayed in
  existsb (fun part => Py.contains (Py.lower part) name)
          (Py.words (Py.lower (full_name o))).

Fixpoint first_match (o : Owner) (cards : list Card) : option string :=
  match cards with
  | [] => None
  | card :: rest =>
      match card_name card with
      | None => first_match o rest
      | Some displayed =>
          if name_matches o displayed then
            match detail_href card with
            | Some href => Some (BASE_URL +:+ href)
            | None => first_match o rest
            end
          else first_match o rest
      end
  end.

(** [save_results]: the rows handed to pandas, in the order of [results]. *)
Definition to_row (r : ScrapingResult) : Row :=
  {| First_Name := first_name (owner r);
     Last_Name := last_name (owner r);
     Property_Address := property_address (owner r);
     Property_City := property_city (owner r);
     Property_State := property_state (owner r);
     Property_Zip := property_zip (owner r);
     Mailing_Address := mailing_address (owner r);
     Mailing_City := mailing_city (owner r);
     Mailing_State := mailing_state (owner r);
     Mailing_Zip := mailing_zip (owner r);
     Current_Address := current_address r;
     Phone_Numbers := Py.join "; " (phone_numbers r);
     Emails := Py.join "; " (emails r);
     Error := error r;
     Row_Index := row_index (owner r) |}.

(** A row of the DataFrame that pandas read from the input file: its index
    label and, for every column whose cell is not null ([pd.notna]), the
    text [str(cell)]. *)
Record FrameRow := mkFrameRow {
  idx : Z;
  cells : gmap string string
}.

(** [str(row.get(column, '')).strip() if pd.notna(row.get(column)) else None] *)
Definition cell (row : FrameRow) (column : string) : option string :=
  Py.strip <$> cells row !! column.

(** The owner number [n] of a row, when both of its name cells are filled. *)
Definition owner_of (n : string) (row : FrameRow) : list Owner :=
  match cells row !! ("Owner #" +:+ n +:+ " First Name"),
        cells row !! ("Owner #" +:+ n +:+ " Last Name") with
  | Some first, Some last =>
      [ {| first_name := Py.strip first;
           last_name := Py.strip last;
           property_address := cell row "Property Address";
           property_city := cell row "Property City";
           property_state := cell row "Property State";
           property_zip := cell row "Property Zip";
           mailing_address := cell row "Mailing Address";
           mailing_city := cell row "Mailing City";
           mailing_state := cell row "Mailing State";
           mailing_zip := cell row "Mailing Zip";
           row_index := idx row |} ]
  | _, _ => []
  end.

(** [read_input_file], from the DataFrame on: the loop over [df.iterrows()]. *)
Definition read_input_file (df : list FrameRow) : list Owner :=
  flat_map (fun row => owner_of "1" row ++ owner_of "2" row) df.

Section Methods.
Context `{Environment}.

(** [urlencode(params)] *)
Definition urlencode (params : list (string * string)) : string :=
  Py.join "&" (map (fun kv => Py.quote_plus (fst kv) +:+ "=" +:+ Py.quote_plus (snd kv)) params).

(** [_make_request(url, params)] *)
Definition _make_request (self : Config) (url : string)
                         (params : list (string * string)) : M (option string) :=
  let full_url :=
    match params with
    | [] => url
    | _ => url +:+ "?" +:+ urlencode params
    end in
  _make_request self full_url.

(** [TruePeopleSearchScraper()] *)
Definition TruePeopleSearchScraper : M Config :=
  external;;
  d <- _setup_driver;;
  set_driver d;;
  ret default_config.

(** Clear-then-type one form field, checking the value read back. *)
Definition fill_field (expected : option string) : M unit :=
  _ <- for_each (Py.range 3)
         (fun _ : Z =>
            try_except
              (external;;
               external;;
               v <- get_attribute;;
               if bool_decide (v = expected) then ret (@Break unit) else ret Pass)
              (fun _ =>
                 sleep 1;;
                 ret Continue));;
  ret tt.

(** Click the submit control. *)
Definition click_submit : M unit :=
  _ <- for_each (Py.range 3)
         (fun _ : Z =>
            try_except
              (emit EClick;;
               external;;
               ret (@Break unit))
              (fun _ =>
                 sleep 1;;
                 ret Continue));;
  ret tt.

(** Wait for a results marker or a no-results marker; [Some None] is the
    [return None] of the last timeout. *)
Definition await_results : M (option (option string)) :=
  for_each (Py.range 3)
    (fun retry : Z =>
       try_except_timeout
         (wait_until 15;;
          ret (@Break (option string)))
         (if retry =? 3 - 1 then ret (Return None)
          else
            sleep 2;;
            ret Pass)).

(** The form interaction of [search_by_address], inside its [try]. *)
Definition submit_form (o : Owner) : M (option string) :=
  try_except
    (wait_until 20;;
     wait_until 20;;
     wait_until 20;;
     sleep 2;;
     fill_field (mailing_address o);;
     let citystatezip_value :=
       Py.fmt (mailing_city o) +:+ ", " +:+ Py.fmt (mailing_state o) in
     fill_field (Some citystatezip_value);;
     sleep 1;;
     click_submit;;
     r <- await_results;;
     match r with
     | Some v => ret v
     | None =>
         _ <- the_driver;;
         html <- page_source;;
         ret (Some html)
     end)
    (fun _ =>
       swallow (_ <- the_driver;; external);;
       ret None).

(** [search_by_address(owner)]: the profile URL, or [None]. *)
Definition search_by_address (self : Config) (o : Owner) : M (option string) :=
  html <- _make_request self BASE_URL [];;
  if negb (Py.truthy html) then ret None
  else
    page <- submit_form o;;
    match page with
    | None => ret None
    | Some html' => ret (first_match o (soup_cards html'))
    end.

(** [extract_profile_info(profile_url)]; [None] is the empty dictionary. *)
Definition extract_profile_info (self : Config) (profile_url : string)
  : M (option Profile.t) :=
  html <- _make_request self profile_url [];;
  if negb (Py.truthy html) then ret None
  else
    match parse_profile (soup_profile (default "" html)) with
    | inl e => raise e
    | inr d => ret (Some d)
    end.

(** [save_results(results, output_file)].  The event carries the rows of
    [data], one per result and in the order of [results]; pandas orders the
    frame by Row Index before it writes, so the file holds these rows in
    ascending order of Row Index. *)
Definition save_results (results : list ScrapingResult) (output_file : string) : M unit :=
  emit (ESave output_file (map to_row results));;
  external.

(** The body of the inner loop of [main] for one owner: the value of
    [results] after it. *)
Definition process_owner (self : Config) (output_file : string)
                         (results : list ScrapingResult) (o : Owner)
  : M (list ScrapingResult) :=
  let result := new_result o in
  found <- attempt_result
             (profile_url <- search_by_address self o;;
              if negb (Py.truthy profile_url) then ret None
              else
                profile_info <- extract_profile_info self (default "" profile_url);;
                ret (Some profile_info));;
  match found with
  | inl e => ret (results ++ [set_error (exn_msg e) result])
  | inr None => ret (results ++ [set_error "Profile not found" result])
  | inr (Some profile_info) =>
      let result' :=
        {| owner := o;
           current_address := dict_get Profile.current_address None profile_info;
           phone_numbers := dict_get Profile.phone_numbers [] profile_info;
           emails := dict_get Profile.emails [] profile_info;
           error := None |} in
      saved <- attempt_result
                 (match results with
                  | [] => ret tt
                  | _ => save_results results (output_file +:+ ".partial")
                  end);;
      match saved with
      | inl e => ret (results ++ [set_error (exn_msg e) result'])
      | inr _ => ret (results ++ [result'])
      end
  end.

Fixpoint process_batch (self : Config) (output_file : string)
                       (results : list ScrapingResult) (batch : list Owner)
  : M (list ScrapingResult) :=
  match batch with
  | [] => ret results
  | o :: rest =>
      results' <- process_owner self output_file results o;;
      process_batch self output_file results' rest
  end.

(** [range(0, total, step)] for a positive step *)
Definition batch_starts (total step : nat) : list nat :=
  map (fun k => (k * step)%nat) (seq 0 ((total + step - 1) / step)).

(** The outer loop of [main]: the value of [results] when the loop is left,
    and the exception that left it, if any (the pause between batches is
    the one statement of the loop outside the inner [try]). *)
Fixpoint process_batches (self : Config) (output_file : string) (owners : list Owner)
                         (batch_size : nat) (starts : list nat)
                         (results : list ScrapingResult)
  : M (list ScrapingResult * option Exn) :=
  match starts with
  | [] => ret (results, None)
  | batch_start :: rest =>
      let total_owners := length owners in
      let batch_end := Nat.min (batch_start + batch_size) total_owners in
      let batch := take (batch_end - batch_start) (drop batch_start owners) in
      results' <- process_batch self output_file results batch;;
      pause <- attempt_result
                 (if (batch_end <? total_owners)%nat then
                    delay <- uniform 15 30;;
                    sleep delay
                  else ret tt);;
      match pause with
      | inl e => ret (results', Some e)
      | inr _ => process_batches self output_file owners batch_size rest results'
      end
  end.

(** The [try] block of [main]: the final [results] and the exception that
    left the block, if any. *)
Definition run_batches (self : Config) (output_file : string) (owners : list Owner)
                       (batch_size : Z)
  : M (list ScrapingResult * option Exn) :=
  if batch_size =? 0 then
    ret ([], Some (mkExn ValueError "range() arg 3 must not be zero"))
  else if batch_size <? 0 then ret ([], None)
  else
    process_batches self output_file owners (Z.to_nat batch_size)
      (batch_starts (length owners) (Z.to_nat batch_size)) [].

(** [main], from the list of owners read from the input file ([inl] when
    reading it failed); after the [try] block comes its [finally]. *)
Definition main (input : Exn + list Owner) (output_file : string) (batch_size : Z)
  : M unit :=
  match input with
  | inl _ => ret tt
  | inr owners =>
      scraper <- TruePeopleSearchScraper;;
      out <- run_batches scraper output_file owners batch_size;;
      (match fst out with
       | [] => ret tt
       | results => save_results results output_file
       end);;
      __del__;;
      match snd out with
      | Some e => raise e
      | None => ret tt
      end
  end.

End Methods.

End Scraper.

(** ** The regular expressions of [api.py], on ASCII text *)

Module Re.

Definition starts_with (p : string) (l : list ascii) : bool :=
  String.prefix p (Py.text l).

(** [re.search(r'\d+', s).group()]: the first run of digits. *)
Definition first_digits (s : string) : option string :=
  match Py.take_while Py.is_digit
          (Py.drop_while (fun c => negb (Py.is_digit c)) (Py.chars s)) with
  | [] => None
  | run => Some (Py.text run)
  end.

(** [Last reported ([A-Za-z]+ \d{4})] matched at the head of [l]: group 1. *)
Definition last_reported_here (l : list ascii) : option string :=
  if starts_with "Last reported " l then
    let after := drop 14 l in
    let month := Py.take_while Py.is_alpha after in
    match month, Py.drop_while Py.is_alpha after with
    | _ :: _, sp :: d1 :: d2 :: d3 :: d4 :: _ =>
        if Ascii.eqb sp " " && Py.is_digit d1 && Py.is_digit d2
           && Py.is_digit d3 && Py.is_digit d4
        then Some (Py.text (month ++ [sp; d1; d2; d3; d4]))
        else None
    | _, _ => None
    end
  else None.

(** [re.search(r'Last reported ([A-Za-z]+ \d{4})', s).group(1)] *)
Fixpoint last_reported_chars (l : list ascii) : option string :=
  match last_reported_here l with
  | Some g => Some g
  | None =>
      match l with
      | [] => None
      | _ :: rest => last_reported_chars rest
      end
  end.

Definition last_reported (s : string) : option string := last_reported_chars (Py.chars s).

Definition county_class (c : ascii) : bool := Py.is_alpha c || Py.is_space c.

(** Inside one maximal run of [[A-Za-z\s]]: the longest prefix that ends in
    [County] and has at least one character before it. *)
Fixpoint last_county (before_rev run : list ascii) (best : option (list ascii))
  : option (list ascii) :=
  match run with
  | [] => best
  | c :: rest =>
      let best' :=
        match before_rev with
        | [] => best
        | _ => if starts_with "County" run
               then Some (rev before_rev ++ Py.chars "County")
               else best
        end in
      last_county (c :: before_rev) rest best'
  end.

(** [re.search(r'([A-Za-z\s]+County)', s).group(1)] *)
Fixpoint county_chars (l : list ascii) (inside : bool) : option string :=
  match l with
  | [] => None
  | c :: rest =>
      if county_class c then
        if inside then county_chars rest true
        else
          match last_county [] (Py.take_while county_class l) None with
          | Some m => Some (Py.text m)
          | None => county_chars rest true
          end
      else county_chars rest false
  end.

Definition county (s : string) : option string := county_chars (Py.chars s) false.

(** [[\w\.-]] *)
Definition email_class (c : ascii) : bool :=
  Py.is_word c || Ascii.eqb c "." || Ascii.eqb c "-".

Definition two_letters (l : list ascii) : bool :=
  match l with
  | a :: b :: _ => Py.is_alpha a && Py.is_alpha b
  | _ => false
  end.

(** Inside the run of [[\w\.-]] after the [@]: the last dot that has a
    character before it and two letters after it, as (domain, after the dot). *)
Fixpoint last_tld (before_rev run : list ascii) (best : option (list ascii * list ascii))
  : option (list ascii * list ascii) :=
  match run with
  | [] => best
  | c :: rest =>
      let best' :=
        match before_rev with
        | [] => best
        | _ => if Ascii.eqb c "." && two_letters rest
               then Some (rev before_rev, rest)
               else best
        end in
      last_tld (c :: before_rev) rest best'
  end.

(** [[\w\.-]+@[\w\.-]+\.[a-zA-Z]{2,}] matched at the head of [l]. *)
Definition email_here (l : list ascii) : option (list ascii) :=
  match Py.take_while email_class l, Py.drop_while email_class l with
  | (_ :: _) as local_part, at_sign :: after =>
      if Ascii.eqb at_sign "@" then
        match last_tld [] (Py.take_while email_class after) None with
        | Some (domain, tail) =>
            Some (local_part ++ [at_sign] ++ domain ++ ["."%char]
                    ++ Py.take_while Py.is_alpha tail)
        | None => None
        end
      else None
  | _, _ => None
  end.

(** The scan of [re.findall]: [skip] characters of the last match are still
    to be passed over. *)
Fixpoint findall_chars (l : list ascii) (skip : nat) : list string :=
  match l with
  | [] => []
  | _ :: rest =>
      match skip with
      | S k => findall_chars rest k
      | O =>
          match email_here l with
          | Some m => Py.text m :: findall_chars rest (length m - 1)
          | None => findall_chars rest 0
          end
      end
  end.

(** [re.findall(r'[\w\.-]+@[\w\.-]+\.[a-zA-Z]{2,}', s)], exact on ASCII
    text: Python's [\w] also takes the letters and digits beyond ASCII. *)
Definition findall_emails (s : string) : list string := findall_chars (Py.chars s) 0.

End Re.


(** ** The request-response path: [api.py] *)

(** Values of the decoded JSON body that the endpoint reads: null, an
    integer (booleans included), a string, or a list of strings. *)
Inductive PyVal :=
| PNone
| PInt (z : Z)
| PStr (s : string)
| PList (xs : list string).

Module Api.

(** One entry of [result['phones']]. *)
Module Phone.
Record t := mk {
  number : string;
  type : string;
  last_reported : string;
  provider : string
}.
End Phone.

(** The dictionary [_extract_profile_info] fills, with its eleven keys. *)
Module Profile.
Record t := mk {
  first_name : option string;
  last_name : option string;
  age : option string;
  lives_in : option string;
  street_address : option string;
  address_locality : option string;
  address_region : option string;
  postal_code : option string;
  country_name : option string;
  emails : list string;
  phones : list Phone.t
}.
End Profile.

Record SearchResult := mkSearchResult {
  search_option : string;
  input_given : string;
  first_name : option string;
  last_name : option string;
  age : option string;
  lives_in : option string;
  street_address : option string;
  address_locality : option string;
  address_region : option string;
  postal_code : option string;
  country_name : option string;
  emails : list string;
  phones : list Phone.t;
  person_link : option string;
  error : option string
}.

(** [SearchResult(search_option=..., input_given=..., error=...)] *)
Definition failure (option_name given message : string) : SearchResult :=
  {| search_option := option_name; input_given := given;
     first_name := None; last_name := None; age := None; lives_in := None;
     street_address := None; address_locality := None; address_region := None;
     postal_code := None; country_name := None; emails := []; phones := [];
     person_link := None; error := Some message |}.

Definition slot (label : string) (i : nat) (suffix : string) : string :=
  label +:+ " " +:+ Py.text [ascii_of_nat (48 + i)] +:+ suffix.

Definition email_slots (i : nat) (email : string) : list (string * option string) :=
  [(slot "Email" i "", Some email)].

Definition phone_slots (i : nat) (p : Phone.t) : list (string * option string) :=
  [(slot "Phone" i "", Some (Phone.number p));
   (slot "Phone" i " Type", Some (Phone.type p));
   (slot "Phone" i " Last Reported", Some (Phone.last_reported p));
   (slot "Phone" i " Provider", Some (Phone.provider p))].

Definition empty_phone : Phone.t :=
  {| Phone.number := ""; Phone.type := ""; Phone.last_reported := "";
     Phone.provider := "" |}.

(** [enumerate(xs, 1)] *)
Definition enumerate1 {A} (xs : list A) : list (nat * A) :=
  combine (seq 1 (length xs)) xs.

(** [range(a, 6)] *)
Definition range_to_6 (a : nat) : list nat := seq a (6 - a).

(** [to_dict]: the flattened record, keys in insertion order. *)
Definition to_dict (r : SearchResult) : list (string * option string) :=
  [("Search Option", Some (search_option r));
   ("Input Given", Some (input_given r));
   ("First Name", first_name r);
   ("Last Name", last_name r);
   ("Age", age r);
   ("Lives in", lives_in r);
   ("Street Address", street_address r);
   ("Address Locality", address_locality r);
   ("Address Region", address_region r);
   ("Postal Code", postal_code r);
   ("Country Name", country_name r);
   ("Person Link", person_link r)]
  ++ flat_map (fun ie => email_slots (fst ie) (snd ie)) (enumerate1 (take 5 (emails r)))
  ++ flat_map (fun i => email_slots i "") (range_to_6 (length (emails r) + 1))
  ++ flat_map (fun ip => phone_slots (fst ip) (snd ip)) (enumerate1 (take 5 (phones r)))
  ++ flat_map (fun i => phone_slots i empty_phone) (range_to_6 (length (phones r) + 1)).

Definition default_config : Config :=
  {| min_delay := 2; max_delay := 5; max_retries := 3 |}.

Definition BASE_URL : string := "https://www.truepeoplesearch.com".
Definition NAME_SEARCH_URL : string := BASE_URL +:+ "/results".
Definition ADDRESS_SEARCH_URL : string := BASE_URL +:+ "/resultaddress".
Definition PHONE_SEARCH_URL : string := BASE_URL +:+ "/resultphone".

(** Name and age from the header text. *)
Definition parse_header (name_text : string)
  : option string * option string * option string :=
  let name_parts := Py.split1 "," name_text in
  let full_name := Py.strip (nth 0 name_parts "") in
  let name_split := Py.split1 " " full_name in
  let first := Some (nth 0 name_split "") in
  let last := if (1 <? length name_split)%nat then Some (nth 1 name_split "") else None in
  let years :=
    if (1 <? length name_parts)%nat
    then Re.first_digits (Py.strip (nth 1 name_parts ""))
    else None in
  (first, last, years).

(** The phone type by keyword. *)
Definition phone_type (info_text : string) : string :=
  if Py.contains "Landline" info_text then "Landline"
  else if Py.contains "Wireless" info_text || Py.contains "Cell" info_text
          || Py.contains "Mobile" info_text then "Wireless"
  else "Unknown".

Definition provider_line (line : string) : bool :=
  negb (Py.contains "Last reported" line) && negb (Py.contains "Primary" line)
  && negb (Py.contains "Landline" line) && negb (Py.contains "Wireless" line).

(** The newline character, [chr(10)]. *)
Definition newline : ascii := ascii_of_nat 10.

Definition phone_provider (info_text : string) : string :=
  match rev (filter (fun line => provider_line line = true) (Py.split newline info_text)) with
  | [] => ""
  | line :: _ => Py.strip line
  end.

(** One iteration of the phone loop of [_extract_profile_info]. *)
Definition phone_step (found : list Phone.t) (section : PhoneSection) : list Phone.t :=
  match phone_link section with
  | Some (Some phone_number) =>
      let phone_data :=
        match phone_info section with
        | Some info_text =>
            {| Phone.number := phone_number;
               Phone.type := phone_type info_text;
               Phone.last_reported :=
                 match Re.last_reported info_text with
                 | Some g => "Last reported " +:+ g
                 | None => ""
                 end;
               Phone.provider := phone_provider info_text |}
        | None =>
            {| Phone.number := phone_number; Phone.type := "Unknown";
               Phone.last_reported := ""; Phone.provider := "" |}
        end in
      found ++ [phone_data]
  | _ => found
  end.

Definition scan_phones (sections : list PhoneSection) : list Phone.t :=
  fold_left phone_step sections [].

(** The inner loop over the matches of one block. *)
Definition add_emails (found matches : list string) : list string :=
  fold_left Py.add_new matches found.

(** One iteration of the email loop of [_extract_profile_info]. *)
Definition email_step (found : list string) (email_text : string) : list string :=
  if Py.contains "@" email_text && Py.contains "." email_text
  then add_emails found (Re.findall_emails email_text)
  else found.

Definition scan_emails (divs : list string) : list string :=
  fold_left email_step divs [].

(** The parsing half of [_extract_profile_info]. *)
Definition parse_profile (soup : ProfileSoup) : Profile.t :=
  let '(first, last, years) :=
    match name_header soup with
    | Some name_text => parse_header name_text
    | None => (None, None, None)
    end in
  let address := address_section soup in
  let street_address := address ≫= street in
  let address_locality := address ≫= locality in
  let address_region := address ≫= region in
  {| Profile.first_name := first;
     Profile.last_name := last;
     Profile.age := years;
     Profile.lives_in :=
       match address with
       | Some _ =>
           if Py.truthy address_locality && Py.truthy address_region
           then Some (Py.fmt address_locality +:+ ", " +:+ Py.fmt address_region)
           else None
       | None => None
       end;
     Profile.street_address := street_address;
     Profile.address_locality := address_locality;
     Profile.address_region := address_region;
     Profile.postal_code := address ≫= postal;
     Profile.country_name := address ≫= (fun a => Re.county (address_text a));
     Profile.emails := scan_emails (email_divs soup);
     Profile.phones := scan_phones (phone_sections soup) |}.

(** The name-and-location parse at the head of [search_by_name]. *)
Definition parse_name (name : string) (city_state : option string)
  : string * option string :=
  if Py.contains ";" name && negb (Py.truthy city_state) then
    let parts := Py.split1 ";" name in
    (Py.strip (nth 0 parts ""),
     if (1 <? length parts)%nat then Some (Py.strip (nth 1 parts "")) else None)
  else (name, city_state).

(** The search URL of [search_by_name]. *)
Definition name_url (name : string) (city_state : option string) : string :=
  let url := NAME_SEARCH_URL +:+ "?name=" +:+ Py.quote_plus name in
  if Py.truthy city_state
  then url +:+ "&citystatezip=" +:+ Py.quote_plus (Py.fmt city_state)
  else url.

(** [name + (f"; {city_state}" if city_state else "")] *)
Definition given_name (name : string) (city_state : option string) : string :=
  name +:+ (if Py.truthy city_state then "; " +:+ Py.fmt city_state else "").

(** [person_cards[:max_results]] *)
Definition slice_cards (max_results : PyVal) (cards : list Card) : Exn + list Card :=
  match max_results with
  | PNone => inr cards
  | PInt n => inr (Py.slice_to n cards)
  | _ => inl (mkExn TypeError
                "slice indices must be integers or None or have an __index__ method")
  end.

Section Methods.
Context `{Environment}.

(** [TruePeopleSearchAPI()] *)
Definition TruePeopleSearchAPI : M Config :=
  external;;
  d <- _setup_driver;;
  set_driver d;;
  ret default_config.

(** [_extract_profile_info(profile_url)]; [None] is the empty dictionary. *)
Definition _extract_profile_info (self : Config) (profile_url : string)
  : M (option Profile.t) :=
  html <- _make_request self profile_url;;
  if negb (Py.truthy html) then ret None
  else ret (Some (parse_profile (soup_profile (default "" html)))).

(** The loop over the cards, shared word for word by the three searches. *)
Fixpoint collect (self : Config) (option_name given : string) (cards : list Card)
                 (results : list SearchResult) : M (list SearchResult) :=
  match cards with
  | [] => ret results
  | card :: rest =>
      match detail_href card with
      | None => collect self option_name given rest results
      | Some href =>
          let link := BASE_URL +:+ href in
          profile_info <- _extract_profile_info self link;;
          match profile_info with
          | None => collect self option_name given rest results
          | Some info =>
              let result :=
                {| search_option := option_name;
                   input_given := given;
                   first_name := Profile.first_name info;
                   last_name := Profile.last_name info;
                   age := Profile.age info;
                   lives_in := Profile.lives_in info;
                   street_address := Profile.street_address info;
                   address_locality := Profile.address_locality info;
                   address_region := Profile.address_region info;
                   postal_code := Profile.postal_code info;
                   country_name := Profile.country_name info;
                   emails := Profile.emails info;
                   phones := Profile.phones info;
                   person_link := Some link;
                   error := None |} in
              collect self option_name given rest (results ++ [result])
          end
      end
  end.

(** From the request on: what the three searches do with their URL. *)
Definition search_url (self : Config) (option_name given url : string)
                      (max_results : PyVal) : M (list SearchResult) :=
  html <- _make_request self url;;
  if negb (Py.truthy html) then
    ret [failure option_name given "Failed to retrieve search results"]
  else
    match soup_cards (default "" html) with
    | [] => ret [failure option_name given "No results found"]
    | person_cards =>
        match slice_cards max_results person_cards with
        | inl e => raise e
        | inr cards =>
            results <- collect self option_name given cards [];;
            match results with
            | [] => ret [failure option_name given "No valid results could be processed"]
            | _ => ret results
            end
        end
    end.

(** [search_by_name(name, city_state, max_results)] *)
Definition search_by_name (self : Config) (name : string) (city_state : option string)
                          (max_results : PyVal) : M (list SearchResult) :=
  let '(name', city_state') := parse_name name city_state in
  search_url self "Name Search" (given_name name' city_state')
             (name_url name' city_state') max_results.

(** The module-level function [search_by_address(self, address, max_results)] *)
Definition search_by_address (self : Config) (address : string) (max_results : PyVal)
  : M (list SearchResult) :=
  let parts := Py.split1 ";" address in
  let street_part := if Py.contains ";" address then Py.strip (nth 0 parts "") else address in
  let city_state :=
    if Py.contains ";" address
    then if (1 <? length parts)%nat then Some (Py.strip (nth 1 parts "")) else None
    else None in
  let url := ADDRESS_SEARCH_URL +:+ "?streetaddress=" +:+ Py.quote_plus street_part in
  let url' :=
    if Py.truthy city_state
    then url +:+ "&citystatezip=" +:+ Py.quote_plus (Py.fmt city_state)
    else url in
  search_url self "Address Search" address url' max_results.

(** [re.sub(r'\D', '', phone)] *)
Definition clean_phone (phone : string) : string :=
  Py.text (filter (fun c => Py.is_digit c = true) (Py.chars phone)).

(** The module-level function [search_by_phone(self, phone, max_results)] *)
Definition search_by_phone (self : Config) (phone : string) (max_results : PyVal)
  : M (list SearchResult) :=
  search_url self "Phone Search" phone
             (PHONE_SEARCH_URL +:+ "?phoneno=" +:+ clean_phone phone) max_results.

(** *** The module as Python executes it

    What a name of the module or of a class is bound to. *)
Inductive Attr :=
| Constant
| SearchMethod (call : Config -> string -> PyVal -> M (list SearchResult))
| OtherFunction.

Inductive Stmt :=
| Assign (name : string) (value : Attr)               (* assignment, import or def *)
| ClassDef (name : string) (body : list (string * Attr))
| AppRun.                                             (* app.run(...) *)

(** A top-level statement, plain or under [if __name__ == "__main__":]. *)
Inductive Top :=
| Plain (s : Stmt)
| IfMain (body : list Stmt).

Record Namespace := mkNamespace {
  globals : gmap string Attr;
  classes : gmap string (gmap string Attr)
}.

Definition class_body (body : list (string * Attr)) : gmap string Attr :=
  fold_left (fun m kv => <[fst kv := snd kv]> m) body ∅.

(** One statement; [served] collects the namespaces in which [app.run]
    has answered requests. *)
Definition exec_stmt (st : Namespace * list Namespace) (s : Stmt)
  : Namespace * list Namespace :=
  let '(ns, served) := st in
  match s with
  | Assign name value =>
      ({| globals := <[name := value]> (globals ns); classes := classes ns |}, served)
  | ClassDef name body =>
      ({| globals := <[name := Constant]> (globals ns);
          classes := <[name := class_body body]> (classes ns) |}, served)
  | AppRun => (ns, served ++ [ns])
  end.

Definition exec_top (as_main : bool) (st : Namespace * list Namespace) (t : Top)
  : Namespace * list Namespace :=
  match t with
  | Plain s => exec_stmt st s
  | IfMain body => if as_main then fold_left exec_stmt body st else st
  end.

Definition run_module (as_main : bool) (tops : list Top) : Namespace * list Namespace :=
  fold_left (exec_top as_main) tops ({| globals := ∅; classes := ∅ |}, []).

(** The top level of [api.py], in source order, after its imports: the
    names it binds, and for each class the names its body binds (for the
    data classes, the fields that have a default and the methods). *)
Definition api_module : list Top :=
  [ Plain (Assign "app" Constant);
    Plain (Assign "api_instance" Constant);
    Plain (Assign "initialize_api" OtherFunction);
    Plain (Assign "search" OtherFunction);
    Plain (Assign "health_check" OtherFunction);
    Plain (ClassDef "SearchQuery"
             [("city_state", Constant); ("max_results", Constant)]);
    Plain (ClassDef "SearchResult"
             [ ("first_name", Constant); ("last_name", Constant);
               ("age", Constant); ("lives_in", Constant);
               ("street_address", Constant); ("address_locality", Constant);
               ("address_region", Constant); ("postal_code", Constant);
               ("country_name", Constant); ("emails", Constant);
               ("phones", Constant); ("person_link", Constant);
               ("error", Constant);
               ("__post_init__", OtherFunction); ("to_dict", OtherFunction) ]);
    Plain (ClassDef "TruePeopleSearchAPI"
             [ ("BASE_URL", Constant);
               ("NAME_SEARCH_URL", Constant);
               ("ADDRESS_SEARCH_URL", Constant);
               ("PHONE_SEARCH_URL", Constant);
               ("__init__", OtherFunction);
               ("_setup_driver", OtherFunction);
               ("_add_delay", OtherFunction);
               ("_make_request", OtherFunction);
               ("__del__", OtherFunction);
               ("_extract_profile_info", OtherFunction);
               ("search_by_name",
                SearchMethod (fun self query max_results =>
                                search_by_name self query None max_results)) ]);
    IfMain [ Assign "port" Constant;
             AppRun;
             Assign "search_by_address" (SearchMethod search_by_address) ];
    IfMain [ Assign "port" Constant;
             AppRun;
             Assign "search_by_phone" (SearchMethod search_by_phone) ];
    IfMain [ Assign "port" Constant;
             AppRun ] ].

(** The namespaces in which requests are served: at each [app.run] when the
    file is run as a script, after the whole module when it is imported. *)
Definition serving (as_main : bool) : list Namespace :=
  let '(ns, served) := run_module as_main api_module in
  if as_main then served else [ns].

(** The attributes [__init__] sets on the instance. *)
Definition instance_attrs : list string :=
  ["ua"; "min_delay"; "max_delay"; "max_retries"; "driver"].

(** [api_instance.<name>] *)
Definition getattr (ns : Namespace) (name : string) : Exn + Attr :=
  if Py.mem name instance_attrs then inr Constant
  else
    match classes ns !! "TruePeopleSearchAPI" ≫= (fun c => c !! name) with
    | Some a => inr a
    | None =>
        inl (mkExn AttributeError
               ("'TruePeopleSearchAPI' object has no attribute '" +:+ name +:+ "'"))
    end.

(** [api_instance.<name>(query, max_results=max_results)] *)
Definition call_method (ns : Namespace) (name : string) (self : Config)
                       (query : string) (max_results : PyVal) : M (list SearchResult) :=
  match getattr ns name with
  | inl e => raise e
  | inr (SearchMethod call) => call self query max_results
  | inr _ => raise (mkExn TypeError "object is not callable with these arguments")
  end.

(** *** The [/search] endpoint *)

Definition Flat : Type := list (string * option string).

Inductive Body :=
| ErrorBody (message : string)
| ResultsBody (results : list (string * list Flat)).

Record Response := mkResponse { body : Body; status : Z }.

(** Truth value of a decoded value. *)
Definition truthy_val (v : PyVal) : bool :=
  match v with
  | PNone => false
  | PInt z => negb (z =? 0)
  | PStr s => negb (String.eqb s "")
  | PList xs => match xs with [] => false | _ => true end
  end.

(** [for query in v]: the elements of a list, the characters of a string. *)
Definition iterate (v : PyVal) : Exn + list string :=
  match v with
  | PList xs => inr xs
  | PStr s => inr (map (fun c => Py.text [c]) (Py.chars s))
  | PInt _ => inl (mkExn TypeError "'int' object is not iterable")
  | PNone => inl (mkExn TypeError "'NoneType' object is not iterable")
  end.

(** [if api_instance is None: api_instance = TruePeopleSearchAPI()] *)
Definition ensure_api : M Config :=
  fun w =>
    if api_instance w then (inr default_config, w)
    else
      (self <- TruePeopleSearchAPI;;
       (fun w' => (inr self, {| tick := tick w'; trace := trace w';
                                driver := driver w'; api_instance := true |}))) w.

(** One of the three loops of [search]. *)
Fixpoint run_queries (ns : Namespace) (method : string) (max_results : PyVal)
                     (queries : list string) (acc : list Flat) : M (list Flat) :=
  match queries with
  | [] => ret acc
  | query :: rest =>
      self <- ensure_api;;
      search_results <- call_method ns method self query max_results;;
      run_queries ns method max_results rest (acc ++ map to_dict search_results)
  end.

(** One of the three blocks of [search]: the entry it adds to [results]. *)
Definition search_block (ns : Namespace) (data : gmap string PyVal) (key method out : string)
                        (max_results : PyVal) : M (list (string * list Flat)) :=
  match data !! key with
  | Some v =>
      if truthy_val v then
        match iterate v with
        | inl e => raise e
        | inr queries =>
            found <- run_queries ns method max_results queries [];;
            ret [(out, found)]
        end
      else ret []
  | None => ret []
  end.

(** The view [search()] in the namespace [ns], from the point where
    [request.json] has returned [data]: a JSON object, or [None] when there
    is no body. *)
Definition search (ns : Namespace) (data : option (gmap string PyVal)) : M Response :=
  try_except
    (match data with
     | None => ret {| body := ErrorBody "No JSON data provided"; status := 400 |}
     | Some d =>
         if bool_decide (d = ∅)
         then ret {| body := ErrorBody "No JSON data provided"; status := 400 |}
         else
           let max_results := default (PInt 1) (d !! "max_results") in
           names <- search_block ns d "name" "search_by_name" "name_results" max_results;;
           addresses <- search_block ns d "street_citystatezip" "search_by_address"
                          "address_results" max_results;;
           phones <- search_block ns d "phone_number" "search_by_phone"
                       "phone_results" max_results;;
           ret {| body := ResultsBody (names ++ addresses ++ phones); status := 200 |}
     end)
    (fun e => ret {| body := ErrorBody (exn_msg e); status := 500 |}).

(** [initialize_api()], the hook that Flask runs before the first request
    of the process. *)
Definition initialize_api : M unit :=
  _ <- ensure_api;;
  ret tt.

(** A POST to [/search] as Flask handles it: the hook, as long as it has
    not completed in this process ([hook_pending]), then the view.  [json]
    is the outcome of reading [request.json] inside the [try] of the view:
    what it returns, or the exception it raises.  An exception of the hook
    leaves the application code. *)
Definition post_search (hook_pending : bool) (ns : Namespace)
                       (json : Exn + option (gmap string PyVal)) : M Response :=
  (if hook_pending then initialize_api else ret tt);;
  match json with
  | inl e =>
      try_except (raise e)
        (fun e => ret {| body := ErrorBody (exn_msg e); status := 500 |})
  | inr data => search ns data
  end.

End Methods.

End Api.


(** ** Vocabulary of the statements *)

(** Deduplication by exact string equality that keeps the first occurrence
    of every string, in the order of first occurrence. *)
Fixpoint first_seen (l : list string) : list string :=
  match l with
  | [] => []
  | x :: rest => x :: List.filter (fun y => negb (String.eqb y x)) (first_seen rest)
  end.

(** Every string but [p]. *)
Definition differs (p : string) : string -> bool := fun y => negb (String.eqb y p).

(** A section whose caption flags its phone as the possible primary one; the
    caption is read only under a phone anchor. *)
Definition flagged (section : PhoneSection) : bool :=
  match phone_link section, phone_info section with
  | Some _, Some info_text => Py.contains Scraper.primary_flag info_text
  | _, _ => false
  end.

(** The telephone spans of the sections, in scan order. *)
Definition spans (sections : list PhoneSection) : list string :=
  flat_map (fun section =>
              match phone_link section with
              | Some (Some p) => [p]
              | _ => []
              end) sections.

(** The shape [local@domain.tld] of the pattern of [api.py]. *)
Definition email_shaped (e : string) : Prop :=
  exists local_part domain tld : list ascii,
    Py.chars e = local_part ++ "@"%char :: domain ++ "."%char :: tld /\
    local_part <> [] /\ forallb Re.email_class local_part = true /\
    domain <> [] /\ forallb Re.email_class domain = true /\
    (2 <= length tld)%nat /\ forallb Py.is_alpha tld = true.

(** The test of both extraction loops on the text of a block:
    ['@' in email_text and '.' in email_text]. *)
Definition has_at_and_dot (t : string) : bool :=
  Py.contains "@" t && Py.contains "." t.

(** [e] occurs in [t] as a substring. *)
Definition substring_of (e t : string) : Prop :=
  exists before after : list ascii, Py.chars t = before ++ Py.chars e ++ after.

(** *** Traces and judgements *)

(** [random.random()] stays in the unit interval. *)
Definition random_in_unit `{Environment} : Prop :=
  forall t, Qle_bool 0 (random_at t) = true /\ Qle_bool (random_at t) 1 = true.

(** A pacing delay of [self]: a sleep of a length in
    [[min_delay, max_delay]]. *)
Definition is_pace (self : Config) (e : Event) : bool :=
  match e with
  | ESleep d => Qle_bool (min_delay self) d && Qle_bool d (max_delay self)
  | _ => false
  end.

Definition is_get (e : Event) : bool :=
  match e with
  | EGet _ => true
  | _ => false
  end.

(** A navigation: a [driver.get] or the click that submits the form. *)
Definition is_navigation (e : Event) : bool :=
  match e with
  | EGet _ | EClick => true
  | _ => false
  end.

(** Every event of [events] that [nav] selects comes right after a pacing
    delay; [prev] is the event just before [events], if any. *)
Fixpoint paced (nav : Event -> bool) (self : Config) (prev : option Event)
               (events : list Event) : bool :=
  match events with
  | [] => true
  | e :: rest =>
      (if nav e
       then match prev with
            | Some s => is_pace self s
            | None => false
            end
       else true)
      && paced nav self (Some e) rest
  end.

(** Events other than navigation, clicking and saving. *)
Definition quiet (e : Event) : bool :=
  match e with
  | EGet _ | EClick | ESave _ _ => false
  | _ => true
  end.

Definition all_quiet (events : list Event) : Prop :=
  Forall (fun e => quiet e = true) events.

(** The event, if it is a save, writes rows that satisfy [Q]. *)
Definition saves (Q : list Row -> Prop) (e : Event) : Prop :=
  match e with
  | ESave _ rows => Q rows
  | _ => True
  end.

(** The saves of a trace: the path and the first names of the rows written. *)
Definition saved (events : list Event) : list (string * list string) :=
  flat_map (fun e => match e with
                     | ESave path rows => [(path, map First_Name rows)]
                     | _ => []
                     end) events.

(** The seconds slept in [events]. *)
Fixpoint slept (events : list Event) : Q :=
  match events with
  | [] => 0
  | ESleep d :: rest => d + slept rest
  | _ :: rest => slept rest
  end.

Definition count_gets (events : list Event) : nat :=
  length (List.filter is_get events).

(** A property of event lists that holds of the empty list and of
    concatenations. *)
Definition stable (E : list Event -> Prop) : Prop :=
  E [] /\ forall a b, E a -> E b -> E (a ++ b).

(** From every world, [m] appends to the trace events that satisfy [E],
    and a value it returns satisfies [R]. *)
Definition obeys {A} (E : list Event -> Prop) (R : A -> Prop) (m : M A) : Prop :=
  forall w r w',
    m w = (r, w') ->
    (exists delta, trace w' = trace w ++ delta /\ E delta) /\
    (forall a, r = inr a -> R a).

(** From every world, [m] returns a value that satisfies [R]: it does not
    raise. *)
Definition succeeds {A} (R : A -> Prop) (m : M A) : Prop :=
  forall w, exists a w', m w = (inr a, w') /\ R a.

Definition anything {A} : A -> Prop := fun _ => True.

(** A record of the request-response path that is a failure marker has
    no optional field. *)
Definition marker_or_record (r : Api.SearchResult) : Prop :=
  Api.error r = None \/
  (Api.first_name r = None /\ Api.last_name r = None /\ Api.age r = None /\
   Api.lives_in r = None /\ Api.street_address r = None /\
   Api.address_locality r = None /\ Api.address_region r = None /\
   Api.postal_code r = None /\ Api.country_name r = None /\
   Api.emails r = [] /\ Api.phones r = [] /\ Api.person_link r = None).

(** A result without a current address, and a row with an empty Current
    Address column. *)
Definition no_address (r : Scraper.ScrapingResult) : Prop :=
  Scraper.current_address r = None.

Definition blank_address (row : Row) : Prop := Current_Address row = None.

(** The local variable [phone] of the phone loop, once bound, names a
    member of the list. *)
Definition bound_in_list (st : list string * option string) : Prop :=
  forall p, snd st = Some p -> In p (fst st).

(** Every phone anchor of the section, if it has one, carries a telephone
    span. *)
Definition has_span (section : PhoneSection) : bool :=
  match phone_link section with
  | Some None => false
  | _ => true
  end.

(** The AttributeError of a missing attribute of the API object. *)
Definition missing (name : string) : Exn :=
  mkExn AttributeError ("'TruePeopleSearchAPI' object has no attribute '" +:+ name +:+ "'").

(** [w'] is [w] after the events [delta], with the same session. *)
Definition later (w : World) (delta : list Event) (w' : World) : Prop :=
  trace w' = trace w ++ delta /\ driver w' = driver w /\
  api_instance w' = api_instance w.

(** The loop [for x in xs: body x], started in [w], begins the iteration of
    [x] in the world [wx]. *)
Inductive iterates {X A} (body : X -> M (Ctl A)) : list X -> World -> X -> World -> Prop :=
| iterates_here x rest w : iterates body (x :: rest) w x w
| iterates_next x rest w c w1 y wy :
    body x w = (inr c, w1) -> c = Pass \/ c = Continue ->
    iterates body rest w1 y wy -> iterates body (x :: rest) w y wy.

(** The [try] block of one attempt of [_make_request]. *)
Definition attempt_try `{Environment} (self : Config) (url : string) (attempt : Z)
  : M (Ctl (option string)) :=
  _add_delay self;;
  navigate url;;
  c <- await_page self attempt;;
  match c with
  | Pass =>
      sleep 2;;
      _ <- the_driver;;
      src <- page_source;;
      ret (Return (Some src))
  | other => ret other
  end.

(** What the handler of an attempt does before it builds the new session:
    the pause, and the end of the old session. *)
Definition teardown `{Environment} (attempt : Z) : M unit :=
  jitter <- uniform 1 3;;
  sleep (inject_Z ((attempt + 1) * 3) + jitter);;
  swallow quit_current.

(** The attempt started in [wa] raises before the last turn of the loop,
    and its handler calls [_setup_driver] in the world [wr]. *)
Definition restart_of `{Environment} (self : Config) (url : string) (attempt : Z)
                      (wa wr : World) : Prop :=
  exists e wb,
    attempt_try self url attempt wa = (inl e, wb) /\
    attempt <> max_retries self - 1 /\
    teardown attempt wb = (inr tt, wr).

(** The fetch of [url] started in [w] restarts the session in [wr]: one of
    its attempts calls [_setup_driver] there. *)
Definition restarts_at `{Environment} (self : Config) (url : string) (w wr : World) : Prop :=
  exists attempt wa,
    iterates (attempt_body self url) (Py.range (max_retries self)) w attempt wa /\
    restart_of self url attempt wa wr.

(** What the challenge handling of one attempt emits when the challenge
    never clears: the first wait and six polling waits. *)
Definition challenge_waits : list Event := ESleep 5 :: repeat (ESleep 5) 6.

(** *** Environments used in the examples below *)

Definition site_url : string := "https://www.truepeoplesearch.com/results?name=Jane+Doe".

Definition a_profile : ProfileSoup :=
  {| name_header := Some "Jane Doe, Age 45";
     address_section := None;
     phone_sections :=
       [ {| phone_link := Some (Some "555-0100"); phone_info := Some "Landline" |} ];
     email_divs := ["a@x.com"] |}.

(** A site that answers every request at once. *)
Definition calm_site : Environment :=
  {| call_raises := fun _ => None;
     current_url_at := fun _ => inr site_url;
     page_source_at := fun _ => inr "<html>";
     attribute_at := fun _ => inr None;
     random_at := fun _ => 1 # 2;
     soup_cards := fun _ => [ {| card_name := Some "Jane Doe";
                                 detail_href := Some "/find/person/p1" |} ];
     soup_profile := fun _ => a_profile |}.

(** A site that keeps every request on its challenge page. *)
Definition challenge_site : Environment :=
  {| call_raises := fun _ => None;
     current_url_at := fun _ => inr "https://www.truepeoplesearch.com/challenge";
     page_source_at := fun _ => inr "<html>";
     attribute_at := fun _ => inr None;
     random_at := fun _ => 1 # 2;
     soup_cards := fun _ => [];
     soup_profile := fun _ => a_profile |}.

Definition chrome_down : Exn := mkExn WebDriverException "chrome not reachable".

(** A browser whose first navigation fails and whose constructor fails
    from then on. *)
Definition dead_browser : Environment :=
  {| call_raises := fun t => if (t =? 1)%nat || (5 <=? t)%nat
                            then Some chrome_down else None;
     current_url_at := fun _ => inl chrome_down;
     page_source_at := fun _ => inl chrome_down;
     attribute_at := fun _ => inl chrome_down;
     random_at := fun _ => 1 # 2;
     soup_cards := fun _ => [];
     soup_profile := fun _ => a_profile |}.

(** A browser whose first navigation fails and that works from then on. *)
Definition flaky_browser : Environment :=
  {| call_raises := fun t => if (t =? 1)%nat then Some chrome_down else None;
     current_url_at := fun _ => inr site_url;
     page_source_at := fun _ => inr "<html>";
     attribute_at := fun _ => inr None;
     random_at := fun _ => 1 # 2;
     soup_cards := fun _ => [];
     soup_profile := fun _ => a_profile |}.

(** A browser that loads pages but fails whenever its page source is read. *)
Definition no_source : Environment :=
  {| call_raises := fun _ => None;
     current_url_at := fun _ => inr site_url;
     page_source_at := fun _ => inl chrome_down;
     attribute_at := fun _ => inr None;
     random_at := fun _ => 1 # 2;
     soup_cards := fun _ => [];
     soup_profile := fun _ => a_profile |}.

Definition an_owner : Scraper.Owner :=
  {| Scraper.first_name := "Jane"; Scraper.last_name := "Doe";
     Scraper.property_address := None; Scraper.property_city := None;
     Scraper.property_state := None; Scraper.property_zip := None;
     Scraper.mailing_address := Some "1 Main St";
     Scraper.mailing_city := Some "Springfield";
     Scraper.mailing_state := Some "IL"; Scraper.mailing_zip := None;
     Scraper.row_index := 0 |}.

Definition another_owner : Scraper.Owner :=
  {| Scraper.first_name := "John"; Scraper.last_name := "Doe";
     Scraper.property_address := None; Scraper.property_city := None;
     Scraper.property_state := None; Scraper.property_zip := None;
     Scraper.mailing_address := Some "1 Main St";
     Scraper.mailing_city := Some "Springfield";
     Scraper.mailing_state := Some "IL"; Scraper.mailing_zip := None;
     Scraper.row_index := 1 |}.

Definition disk_full : Exn := mkExn OSError "disk full".

(** A site as calm as [calm_site] whose writer fails once: at the 73rd
    consultation, which in a run over two owners from [live_world] is the
    write of the partial file once the second owner has been extracted. *)
Definition partial_write_fails : Environment :=
  {| call_raises := fun t => if (t =? 72)%nat then Some disk_full else None;
     current_url_at := fun _ => inr site_url;
     page_source_at := fun _ => inr "<html>";
     attribute_at := fun _ => inr None;
     random_at := fun _ => 1 # 2;
     soup_cards := fun _ => [ {| card_name := Some "Jane Doe";
                                 detail_href := Some "/find/person/p1" |} ];
     soup_profile := fun _ => a_profile |}.

(** A world with a live session. *)
Definition live_world : World :=
  {| tick := 0; trace := []; driver := Some 0%nat; api_instance := true |}.

(** *** Vocabulary of the further properties *)

(** A text without white space at either end. *)
Definition stripped (s : string) : Prop := Py.strip s = s.

(** [xs] cut or padded with [d] to five entries. *)
Definition five {A} (d : A) (xs : list A) : list A := take 5 (xs ++ repeat d 5).

(** The columns of a flattened record. *)
Definition columns : list string :=
  [ "Search Option"; "Input Given"; "First Name"; "Last Name"; "Age"; "Lives in";
    "Street Address"; "Address Locality"; "Address Region"; "Postal Code";
    "Country Name"; "Person Link";
    "Email 1"; "Email 2"; "Email 3"; "Email 4"; "Email 5";
    "Phone 1"; "Phone 1 Type"; "Phone 1 Last Reported"; "Phone 1 Provider";
    "Phone 2"; "Phone 2 Type"; "Phone 2 Last Reported"; "Phone 2 Provider";
    "Phone 3"; "Phone 3 Type"; "Phone 3 Last Reported"; "Phone 3 Provider";
    "Phone 4"; "Phone 4 Type"; "Phone 4 Last Reported"; "Phone 4 Provider";
    "Phone 5"; "Phone 5 Type"; "Phone 5 Last Reported"; "Phone 5 Provider" ].

(** The four cells of a phone entry. *)
Definition phone_cells (p : Api.Phone.t) : list string :=
  [Api.Phone.number p; Api.Phone.type p; Api.Phone.last_reported p; Api.Phone.provider p].

(** The lengths of the sleeps of a trace, in order. *)
Definition sleeps (events : list Event) : list Q :=
  flat_map (fun e => match e with
                     | ESleep d => [d]
                     | _ => []
                     end) events.

(** The event, if it is a [driver.get], targets a URL that satisfies [P]. *)
Definition visits (P : string -> Prop) (e : Event) : Prop :=
  match e with
  | EGet u => P u
  | _ => True
  end.

(** A URL of the site. *)
Definition on_site (u : string) : Prop := String.prefix Scraper.BASE_URL u = true.

(** The characters [quote_plus] leaves in a field: the unreserved ones, the
    [+] of a blank and the [%] of an escape. *)
Definition url_safe (c : ascii) : bool :=
  Py.is_word c || existsb (Ascii.eqb c) (Py.chars ".-~+%").

(** How often the character [c] occurs in [s]. *)
Definition occurrences (c : ascii) (s : string) : nat :=
  length (List.filter (Ascii.eqb c) (Py.chars s)).

(** Every byte. *)
Definition every_ascii : list ascii := map ascii_of_nat (seq 0 256).



(** The seconds [_setup_driver] sleeps after a failed attempt. *)
Definition setup_pause (attempt : Z) : Q := inject_Z ((attempt + 1) * 2).

(** At most [n] navigations, each to [url]. *)
Definition navigates (n : nat) (url : string) (events : list Event) : Prop :=
  (count_gets events <= n)%nat /\ Forall (visits (eq url)) events.

(** The keys of a request body that carry queries, each with the method
    [search] calls for it. *)
Definition served_methods : list (string * string) :=
  [ ("name", "search_by_name");
    ("street_citystatezip", "search_by_address");
    ("phone_number", "search_by_phone") ].

(** The body has no query under [key]: the key is absent or its value is
    false ([null], [0], [""] or [[]]). *)
Definition no_query (d : gmap string PyVal) (key : string) : Prop :=
  match d !! key with
  | Some v => Api.truthy_val v = false
  | None => True
  end.

(** The response to a request without a body. *)
Definition no_json : Api.Response :=
  {| Api.body := Api.ErrorBody "No JSON data provided"; Api.status := 400 |}.

(** The request carries no query: reading its body raised, it has no body,
    or what the body holds under the keys of [served_methods] is false. *)
Definition without_queries (json : Exn + option (gmap string PyVal)) : Prop :=
  match json with
  | inr (Some d) => forall key, In key (map fst served_methods) -> no_query d key
  | _ => True
  end.

(** The answer of the view when there is nothing to search: the message of
    the exception when reading the body raised, the 400 error without a body
    or with an empty one, and an empty result object otherwise. *)
Definition unsearched (json : Exn + option (gmap string PyVal)) : Api.Response :=
  match json with
  | inl e => {| Api.body := Api.ErrorBody (exn_msg e); Api.status := 500 |}
  | inr None => no_json
  | inr (Some d) =>
      if bool_decide (d = ∅) then no_json
      else {| Api.body := Api.ResultsBody []; Api.status := 200 |}
  end.

(** A response is a list of results with status 200, or an error message
    with status 400 or 500. *)
Definition well_formed (r : Api.Response) : Prop :=
  match Api.body r with
  | Api.ResultsBody _ => Api.status r = 200
  | Api.ErrorBody _ => Api.status r = 400 \/ Api.status r = 500
  end.

(** Whenever [m] returns, the value it returns satisfies [R]. *)
Definition returns {A} (R : A -> Prop) (m : M A) : Prop :=
  forall w a w', m w = (inr a, w') -> R a.

(** A text that holds nothing but white space. *)
Definition blank (s : string) : bool := forallb Py.is_space (Py.chars s).

(** A text that is one word: not empty, no white space. *)
Definition one_word (s : string) : bool :=
  negb (String.eqb s "") && forallb (fun c => negb (Py.is_space c)) (Py.chars s).

(** The optional fields of an owner that hold an address part. *)
Definition address_fields : list (Scraper.Owner -> option string) :=
  [ Scraper.property_address; Scraper.property_city; Scraper.property_state;
    Scraper.property_zip; Scraper.mailing_address; Scraper.mailing_city;
    Scraper.mailing_state; Scraper.mailing_zip ].

(** A record of the request-response path names its query, and is either
    a failure marker or the profile behind a link of the site. *)
Definition answers (option_name given : string) (r : Api.SearchResult) : Prop :=
  Api.search_option r = option_name /\ Api.input_given r = given /\
  match Api.person_link r with
  | Some u => on_site u /\ Api.error r = None
  | None => Api.error r <> None
  end.

(** A county as the address pattern reads it: letters and white space, at
    least one, then [County]. *)
Definition county_shaped (m : string) : Prop :=
  exists pre : list ascii,
    Py.chars m = pre ++ Py.chars "County" /\ pre <> [] /\
    forallb Re.county_class pre = true.

(** * Properties *)

(** ** Text primitives *)

Section TextFacts.

Lemma text_chars (s : string) : Py.text (Py.chars s) = s.
Proof. apply string_of_list_ascii_of_string. Qed.

Lemma chars_text (l : list ascii) : Py.chars (Py.text l) = l.
Proof. apply list_ascii_of_string_of_list_ascii. Qed.

Lemma text_app (a b : list ascii) : Py.text (a ++ b) = Py.text a +:+ Py.text b.
Proof. induction a as [|c a IH]; simpl; [reflexivity | now rewrite IH]. Qed.

Lemma prefix_char (c : ascii) (s : string) :
  String.prefix (String c "") s =
  match s with
  | EmptyString => false
  | String d _ => Ascii.eqb c d
  end.
Proof.
  destruct s as [|d s]; simpl; [reflexivity |].
  destruct (ascii_dec c d) as [->|Hne].
  - rewrite Ascii.eqb_refl. now destruct s.
  - symmetry. now apply Ascii.eqb_neq.
Qed.

(** [c in s] for a one-character needle is membership among the characters. *)
Lemma contains_char (c : ascii) (s : string) :
  Py.contains (String c "") s = existsb (Ascii.eqb c) (Py.chars s).
Proof.
  induction s as [|d s IH].
  - reflexivity.
  - cbn [Py.contains]. rewrite prefix_char, IH. reflexivity.
Qed.

Lemma existsb_eqb_false (c : ascii) (l : list ascii) :
  existsb (Ascii.eqb c) l = false <-> ~ In c l.
Proof.
  induction l as [|d l IH]; simpl.
  - tauto.
  - rewrite orb_false_iff, IH, Ascii.eqb_neq. intuition congruence.
Qed.

(** [split1_chars] cuts at the first separator and nowhere else. *)
Lemma split1_chars_spec (sep : ascii) (l : list ascii) :
  match Py.split1_chars sep l with
  | (a, None) => l = a /\ ~ In sep a
  | (a, Some b) => l = a ++ sep :: b /\ ~ In sep a
  end.
Proof.
  induction l as [|c l IH]; simpl.
  - tauto.
  - destruct (Ascii.eqb c sep) eqn:E.
    + apply Ascii.eqb_eq in E. subst c. simpl. tauto.
    + apply Ascii.eqb_neq in E.
      destruct (Py.split1_chars sep l) as [a [b|]]; simpl; destruct IH as [-> Hn];
        (split; [reflexivity | intros [?|?]; [congruence | tauto]]).
Qed.

End TextFacts.

(** ** Query builder ([search_by_name]) *)

Section QueryBuilder.

(** With a [;] in the name, [split(";", 1)] gives exactly two parts: the
    text before the first [;] and everything after it. *)
Lemma split1_semicolon (name : string) :
  Py.contains ";" name = true ->
  exists before after : string,
    name = before +:+ ";" +:+ after /\
    Py.contains ";" before = false /\
    Py.split1 ";" name = [before; after].
Proof.
  intros Hc. rewrite contains_char in Hc.
  unfold Py.split1.
  pose proof (split1_chars_spec ";" (Py.chars name)) as Hs.
  destruct (Py.split1_chars ";" (Py.chars name)) as [a [b|]].
  - destruct Hs as [Hl Hn].
    exists (Py.text a), (Py.text b). repeat split.
    + rewrite <- (text_chars name), Hl, text_app. reflexivity.
    + rewrite contains_char, chars_text. now apply existsb_eqb_false.
  - destruct Hs as [Hl Hn]. rewrite Hl in Hc.
    apply existsb_eqb_false in Hn. congruence.
Qed.

(** C9, as the code has it: a name with a [;] is split at the first [;]
    into the stripped name and the stripped suffix only when no explicit
    (non-empty) locality is passed; with an explicit locality the name is
    used whole, [;] and suffix included, next to that locality.  The name
    "Jane Doe; Springfield, IL" without a locality gives "Jane Doe" and
    "Springfield, IL". *)
Theorem parse_name_splits_without_locality (name : string) (city_state : option string) :
  Py.contains ";" name = true ->
  (Py.truthy city_state = false ->
   exists before after : string,
     name = before +:+ ";" +:+ after /\
     Py.contains ";" before = false /\
     Api.parse_name name city_state = (Py.strip before, Some (Py.strip after)))
  /\ (Py.truthy city_state = true ->
      Api.parse_name name city_state = (name, city_state))
  /\ Api.parse_name "Jane Doe; Springfield, IL" None
     = ("Jane Doe", Some "Springfield, IL").
Proof.
  intros Hc. split; [|split].
  - intros Hf.
    destruct (split1_semicolon name Hc) as (before & after & Hname & Hb & Hs).
    exists before, after. repeat split; try assumption.
    unfold Api.parse_name. rewrite Hc, Hf, Hs. reflexivity.
  - intros Ht. unfold Api.parse_name. rewrite Hc, Ht. reflexivity.
  - vm_compute. reflexivity.
Qed.

Lemma parse_name_splits_without_locality_witness :
  Py.contains ";" "Jane Doe; Springfield, IL" = true /\
  Api.parse_name "Jane Doe; Springfield, IL" None
  = ("Jane Doe", Some "Springfield, IL").
Proof.
  split; [reflexivity |].
  apply (parse_name_splits_without_locality "Jane Doe; Springfield, IL" None).
  reflexivity.
Defined.

(** C9 as stated fails: with an explicit locality the name is not split;
    the whole text, [;] and suffix included, goes into the request. *)
Lemma parse_name_explicit_locality_keeps_suffix :
  Api.parse_name "Jane Doe; Springfield, IL" (Some "Boston, MA")
  = ("Jane Doe; Springfield, IL", Some "Boston, MA")
  /\ Api.name_url "Jane Doe; Springfield, IL" (Some "Boston, MA")
     = "https://www.truepeoplesearch.com/results?name=Jane+Doe%3B+Springfield%2C+IL&citystatezip=Boston%2C+MA".
Proof. split; vm_compute; reflexivity. Qed.

End QueryBuilder.

(** ** Lists without repetition, in order of first occurrence *)

Section FirstSeen.

Lemma mem_In (x : string) (l : list string) : Py.mem x l = true <-> In x l.
Proof.
  unfold Py.mem. rewrite existsb_exists. split.
  - intros (y & Hin & Heq). apply String.eqb_eq in Heq. now subst.
  - intros Hin. exists x. split; [assumption | apply String.eqb_refl].
Qed.

Lemma mem_app (x : string) (a b : list string) :
  Py.mem x (a ++ b) = Py.mem x a || Py.mem x b.
Proof. unfold Py.mem. apply existsb_app. Qed.

Lemma filter_twice {A} (p q : A -> bool) (l : list A) :
  List.filter p (List.filter q l) = List.filter (fun y => q y && p y) l.
Proof.
  induction l as [|y l IH]; simpl; [reflexivity |].
  destruct (q y); simpl; [destruct (p y) |]; now rewrite IH.
Qed.

Lemma filter_same {A} (p q : A -> bool) (l : list A) :
  (forall y, p y = q y) -> List.filter p l = List.filter q l.
Proof.
  intros Hpq. induction l as [|y l IH]; simpl; [reflexivity |].
  now rewrite Hpq, IH.
Qed.

Lemma filter_In {A} (p : A -> bool) (l : list A) (x : A) :
  In x (List.filter p l) <-> In x l /\ p x = true.
Proof. apply List.filter_In. Qed.

(** The loop [for x in l: if x not in acc: acc.append(x)] appends to [acc]
    the strings of [l] that are new, each once, in order of first
    occurrence. *)
Lemma fold_add_new (l acc : list string) :
  fold_left Py.add_new l acc
  = acc ++ List.filter (fun y => negb (Py.mem y acc)) (first_seen l).
Proof.
  revert acc. induction l as [|x l IH]; intros acc; simpl.
  - now rewrite app_nil_r.
  - rewrite IH. unfold Py.add_new. destruct (Py.mem x acc) eqn:E; simpl.
    + f_equal. rewrite filter_twice. apply filter_same. intros y.
      destruct (String.eqb y x) eqn:Eyx; simpl; [|reflexivity].
      apply String.eqb_eq in Eyx. subst y. now rewrite E.
    + rewrite <- app_assoc. simpl. do 2 f_equal.
      rewrite filter_twice. apply filter_same. intros y.
      rewrite mem_app. unfold Py.mem at 2. simpl. rewrite orb_false_r.
      rewrite negb_orb. apply andb_comm.
Qed.

Lemma fold_add_new_nil (l : list string) : fold_left Py.add_new l [] = first_seen l.
Proof.
  rewrite fold_add_new. simpl. induction (first_seen l) as [|y r IH]; simpl; congruence.
Qed.

Lemma first_seen_In (l : list string) (x : string) : In x (first_seen l) <-> In x l.
Proof.
  induction l as [|y l IH]; simpl; [tauto |].
  rewrite filter_In, IH, negb_true_iff, String.eqb_neq.
  destruct (string_dec y x) as [->|Hne]; [tauto |].
  intuition congruence.
Qed.

Lemma NoDup_filter_bool {A} (p : A -> bool) (l : list A) :
  List.NoDup l -> List.NoDup (List.filter p l).
Proof.
  induction 1 as [|y l Hy Hl IH]; simpl; [constructor |].
  destruct (p y); [constructor |]; try assumption.
  rewrite filter_In. tauto.
Qed.

Lemma first_seen_NoDup (l : list string) : List.NoDup (first_seen l).
Proof.
  induction l as [|y l IH]; simpl; constructor.
  - rewrite filter_In, negb_true_iff, String.eqb_neq. tauto.
  - now apply NoDup_filter_bool.
Qed.

Lemma first_seen_app (a b : list string) :
  first_seen (a ++ b)
  = first_seen a ++ List.filter (fun y => negb (Py.mem y a)) (first_seen b).
Proof.
  rewrite <- (fold_add_new_nil (a ++ b)), fold_left_app, fold_add_new_nil.
  rewrite fold_add_new. f_equal. apply filter_same. intros y. f_equal.
  apply eq_true_iff_eq. rewrite !mem_In. apply first_seen_In.
Qed.

End FirstSeen.

(** ** Email extraction *)

Section Emails.

Lemma take_drop_while (p : ascii -> bool) (l : list ascii) :
  l = Py.take_while p l ++ Py.drop_while p l.
Proof.
  induction l as [|c l IH]; simpl; [reflexivity |].
  destruct (p c); simpl; [now rewrite <- IH | reflexivity].
Qed.

Lemma take_while_all (p : ascii -> bool) (l : list ascii) :
  forallb p (Py.take_while p l) = true.
Proof.
  induction l as [|c l IH]; simpl; [reflexivity |].
  destruct (p c) eqn:E; simpl; [now rewrite E | reflexivity].
Qed.

Lemma two_letters_take (l : list ascii) :
  Re.two_letters l = true -> (2 <= length (Py.take_while Py.is_alpha l))%nat.
Proof.
  destruct l as [|a [|b l]]; simpl; try discriminate.
  intros Hab. apply andb_prop in Hab as [-> ->]. simpl. lia.
Qed.

(** What [last_tld] returns is a cut of the run at a dot, with something
    before the dot and two letters after it. *)
Lemma last_tld_spec (run : list ascii) :
  forall (before_rev : list ascii) (best : option (list ascii * list ascii))
         (whole : list ascii),
    whole = rev before_rev ++ run ->
    (forall d t, best = Some (d, t) ->
                 whole = d ++ "."%char :: t /\ d <> [] /\ Re.two_letters t = true) ->
    forall d t, Re.last_tld before_rev run best = Some (d, t) ->
                whole = d ++ "."%char :: t /\ d <> [] /\ Re.two_letters t = true.
Proof.
  induction run as [|c rest IH]; intros before_rev best whole Hw Hbest d t; simpl.
  - apply Hbest.
  - apply IH.
    + simpl. now rewrite <- app_assoc.
    + intros d' t'. destruct before_rev as [|b before_rev]; [apply Hbest |].
      destruct (Ascii.eqb c "." && Re.two_letters rest) eqn:E; [|apply Hbest].
      apply andb_prop in E as [Ec Et]. apply Ascii.eqb_eq in Ec. subst c.
      intros [= <- <-]. repeat split; try assumption.
      simpl. intros Hnil. now apply app_eq_nil in Hnil as [_ ?].
Qed.

(** A match at the head of [l] is a prefix of [l] of the shape of the
    pattern. *)
Lemma email_here_spec (l m : list ascii) :
  Re.email_here l = Some m ->
  email_shaped (Py.text m) /\ exists after, l = m ++ after.
Proof.
  unfold Re.email_here.
  pose proof (take_drop_while Re.email_class l) as Hl.
  pose proof (take_while_all Re.email_class l) as Hloc.
  destruct (Py.take_while Re.email_class l) as [|c0 loc] eqn:Eloc; [discriminate |].
  destruct (Py.drop_while Re.email_class l) as [|at_sign after]; [discriminate |].
  destruct (Ascii.eqb at_sign "@") eqn:Eat; [|discriminate].
  apply Ascii.eqb_eq in Eat. subst at_sign.
  pose proof (take_drop_while Re.email_class after) as Hafter.
  pose proof (take_while_all Re.email_class after) as Hrun.
  destruct (Re.last_tld [] (Py.take_while Re.email_class after) None)
    as [[domain tail]|] eqn:Etld; [|discriminate].
  intros [= <-].
  destruct (last_tld_spec _ [] None _ eq_refl
              ltac:(intros ? ? ?; discriminate) _ _ Etld) as (Hcut & Hdom & Htwo).
  simpl in Hcut. rewrite Hcut in Hrun, Hafter.
  rewrite forallb_app in Hrun. apply andb_prop in Hrun as [Hd _].
  split.
  - exists (c0 :: loc), domain, (Py.take_while Py.is_alpha tail).
    rewrite chars_text. repeat split; try assumption; try discriminate.
    + now apply two_letters_take.
    + apply take_while_all.
  - exists (Py.drop_while Py.is_alpha tail ++ Py.drop_while Re.email_class after).
    rewrite Hl, Hafter at 1.
    rewrite (take_drop_while Py.is_alpha tail) at 1.
    repeat (rewrite <- ?app_assoc; simpl). reflexivity.
Qed.

Lemma findall_chars_spec (l : list ascii) :
  forall (skip : nat) (e : string),
    In e (Re.findall_chars l skip) ->
    email_shaped e /\ exists before after, l = before ++ Py.chars e ++ after.
Proof.
  induction l as [|c rest IH]; intros skip e; simpl; [tauto |].
  assert (Hrest : forall k, In e (Re.findall_chars rest k) ->
            email_shaped e /\
            exists before after, c :: rest = before ++ Py.chars e ++ after).
  { intros k Hin. destruct (IH k e Hin) as (Hs & before & after & ->).
    split; [assumption |]. now exists (c :: before), after. }
  destruct skip as [|k]; [|apply Hrest].
  destruct (Re.email_here (c :: rest)) as [m|] eqn:E; [|apply Hrest].
  intros [<- | Hin]; [|now apply (Hrest _ Hin)].
  destruct (email_here_spec _ _ E) as (Hs & after & Hl).
  split; [assumption |]. exists [], after. now rewrite chars_text.
Qed.

(** Every string [findall] returns is a substring of the text and has the
    shape of the pattern. *)
Lemma findall_emails_sound (t e : string) :
  In e (Re.findall_emails t) -> email_shaped e /\ substring_of e t.
Proof. apply findall_chars_spec. Qed.

Lemma existsb_eqb_In (c : ascii) (l : list ascii) :
  In c l -> existsb (Ascii.eqb c) l = true.
Proof.
  intros Hin. apply existsb_exists. exists c. split; [assumption | apply Ascii.eqb_refl].
Qed.

(** The test for [@] and [.] before the pattern is applied filters nothing
    that the pattern would find. *)
Lemma findall_guard (t : string) :
  Py.contains "@" t && Py.contains "." t = false -> Re.findall_emails t = [].
Proof.
  intros Hg. destruct (Re.findall_emails t) as [|e r] eqn:E; [reflexivity |].
  destruct (findall_emails_sound t e) as ((lp & dm & tl & He & _) & before & after & Ht).
  { rewrite E. now left. }
  rewrite !contains_char, Ht, He in Hg.
  rewrite !existsb_eqb_In in Hg; [discriminate | |];
    rewrite !in_app_iff; simpl; rewrite ?in_app_iff; simpl; tauto.
Qed.

Lemma api_email_step (found : list string) (t : string) :
  Api.email_step found t = fold_left Py.add_new (Re.findall_emails t) found.
Proof.
  unfold Api.email_step, Api.add_emails.
  destruct (Py.contains "@" t && Py.contains "." t) eqn:E; [reflexivity |].
  now rewrite (findall_guard t E).
Qed.

Lemma api_scan_emails_fold (divs found : list string) :
  fold_left Api.email_step divs found
  = fold_left Py.add_new (flat_map Re.findall_emails divs) found.
Proof.
  revert found. induction divs as [|t divs IH]; intros found; simpl; [reflexivity |].
  now rewrite fold_left_app, IH, api_email_step.
Qed.

Lemma api_profile_emails (soup : ProfileSoup) :
  Api.Profile.emails (Api.parse_profile soup) = Api.scan_emails (email_divs soup).
Proof.
  unfold Api.parse_profile.
  destruct (match name_header soup with
            | Some name_text => Api.parse_header name_text
            | None => (None, None, None)
            end) as [[? ?] ?].
  reflexivity.
Qed.

Lemma scraper_scan_emails_fold (divs found : list string) :
  fold_left Scraper.email_step divs found
  = fold_left Py.add_new (map Py.strip (List.filter has_at_and_dot divs)) found.
Proof.
  revert found. induction divs as [|t divs IH]; intros found; simpl; [reflexivity |].
  rewrite IH. unfold Scraper.email_step, has_at_and_dot.
  destruct (Py.contains "@" t && Py.contains "." t); reflexivity.
Qed.

Lemma scraper_profile_emails (soup : ProfileSoup) (d : Scraper.Profile.t) :
  Scraper.parse_profile soup = inr d ->
  Scraper.Profile.emails d = Scraper.scan_emails (email_divs soup).
Proof.
  unfold Scraper.parse_profile.
  destruct (Scraper.scan_phones _ _); [discriminate |]. now intros [= <-].
Qed.

(** C8, as the code has it, on both paths.

    In the request-response extraction the emails are the matches of the
    pattern in the texts of the content blocks, in block order, deduplicated
    by exact string equality with first-seen order kept; each one is a
    substring of a block and has the shape local@domain.tld; blocks holding
    a@x.com, b@y.com, a@x.com in that order yield a@x.com, b@y.com.

    In the batch extraction no pattern is applied: the emails are the
    stripped texts of the blocks that hold an [@] and a [.], whole,
    deduplicated in the same way; every profile that is extracted carries
    exactly that list.

    Texts are byte strings and the classes of the pattern are the ASCII
    ones, which is how Python reads them on ASCII text. *)
Theorem emails_first_seen_on_both_paths (soup : ProfileSoup) :
  (Api.Profile.emails (Api.parse_profile soup)
   = first_seen (flat_map Re.findall_emails (email_divs soup))
   /\ List.NoDup (Api.Profile.emails (Api.parse_profile soup))
   /\ (forall e, In e (Api.Profile.emails (Api.parse_profile soup)) ->
         email_shaped e /\ exists t, In t (email_divs soup) /\ substring_of e t)
   /\ Api.scan_emails ["a@x.com"; "b@y.com"; "a@x.com"] = ["a@x.com"; "b@y.com"]
   /\ Api.scan_emails ["a@x.com b@y.com, a@x.com"] = ["a@x.com"; "b@y.com"])
  /\
  (Scraper.scan_emails (email_divs soup)
   = first_seen (map Py.strip (List.filter has_at_and_dot (email_divs soup)))
   /\ List.NoDup (Scraper.scan_emails (email_divs soup))
   /\ (forall e, In e (Scraper.scan_emails (email_divs soup)) <->
         exists t, In t (email_divs soup) /\ has_at_and_dot t = true /\ e = Py.strip t)
   /\ match Scraper.parse_profile soup with
      | inr d => Scraper.Profile.emails d = Scraper.scan_emails (email_divs soup)
      | inl _ => True
      end
   /\ Scraper.scan_emails ["a@x.com"; "b@y.com"; "a@x.com"] = ["a@x.com"; "b@y.com"]).
Proof.
  split.
  - assert (Heq : Api.Profile.emails (Api.parse_profile soup)
                  = first_seen (flat_map Re.findall_emails (email_divs soup))).
    { rewrite api_profile_emails. unfold Api.scan_emails.
      now rewrite api_scan_emails_fold, fold_add_new_nil. }
    rewrite Heq. repeat split.
    + apply first_seen_NoDup.
    + apply first_seen_In, in_flat_map in H as (t & _ & Hin).
      now apply (findall_emails_sound t).
    + apply first_seen_In, in_flat_map in H as (t & Ht & Hin).
      exists t. split; [assumption |]. now apply (findall_emails_sound t).
  - assert (Heq : Scraper.scan_emails (email_divs soup)
                  = first_seen (map Py.strip
                                  (List.filter has_at_and_dot (email_divs soup)))).
    { unfold Scraper.scan_emails.
      now rewrite scraper_scan_emails_fold, fold_add_new_nil. }
    rewrite Heq. split; [reflexivity |]. split; [apply first_seen_NoDup |].
    split; [|split].
    + intros e. rewrite first_seen_In, in_map_iff. split.
      * intros (t & <- & Hin). apply List.filter_In in Hin as [Hin Hm]. now exists t.
      * intros (t & Hin & Hm & ->). exists t. split; [reflexivity |].
        apply List.filter_In. now split.
    + destruct (Scraper.parse_profile soup) as [?|d] eqn:E; [exact I |].
      rewrite <- Heq. now apply scraper_profile_emails.
    + vm_compute. reflexivity.
Qed.

(** C8 as stated fails on the batch path: [extract_profile_info] applies no
    pattern; a block that holds an [@] and a [.] goes into the list whole. *)
Lemma scraper_emails_keep_whole_block :
  Scraper.parse_profile
    {| name_header := None; address_section := None; phone_sections := [];
       email_divs := ["a@x.com b@y.com a@x.com"] |}
  = inr {| Scraper.Profile.current_address := None;
           Scraper.Profile.phone_numbers := [];
           Scraper.Profile.emails := ["a@x.com b@y.com a@x.com"] |}
  /\ Scraper.scan_emails ["Email: a@x.com"] = ["Email: a@x.com"].
Proof. split; vm_compute; reflexivity. Qed.

End Emails.

(** ** Phone extraction *)

Section Phones.

Lemma filter_differs_absent (p : string) (l : list string) :
  ~ In p l -> List.filter (differs p) l = l.
Proof.
  induction l as [|y l IH]; simpl; [reflexivity |].
  intros Hn. unfold differs at 1.
  destruct (String.eqb y p) eqn:E; simpl.
  - apply String.eqb_eq in E. tauto.
  - rewrite IH; tauto.
Qed.

(** On a list without repetition, [remove] is a filter. *)
Lemma list_remove_NoDup (p : string) (l : list string) :
  List.NoDup l -> In p l ->
  Scraper.list_remove p l = Some (List.filter (differs p) l).
Proof.
  induction 1 as [|y l Hy Hl IH]; simpl; [tauto |].
  intros Hin. unfold differs at 1. destruct (String.eqb y p) eqn:E; simpl.
  - apply String.eqb_eq in E. subst y. now rewrite filter_differs_absent.
  - apply String.eqb_neq in E. rewrite IH; [reflexivity |].
    destruct Hin; [congruence | assumption].
Qed.

Lemma NoDup_add_new (l : list string) (p : string) :
  List.NoDup l -> List.NoDup (Py.add_new l p) /\ In p (Py.add_new l p).
Proof.
  intros Hl. unfold Py.add_new. destruct (Py.mem p l) eqn:E.
  - split; [assumption | now apply mem_In].
  - split; [|apply in_or_app; simpl; tauto].
    assert (Hn : ~ In p l) by (rewrite <- mem_In; congruence).
    clear E. induction Hl as [|y l Hy Hl IH]; simpl.
    + constructor; [tauto | constructor].
    + constructor.
      * rewrite in_app_iff. simpl in *. intuition congruence.
      * apply IH. simpl in Hn. tauto.
Qed.

Lemma remove_after_add (l : list string) (p : string) :
  List.NoDup l ->
  Scraper.list_remove p (Py.add_new l p) = Some (List.filter (differs p) l).
Proof.
  intros Hl. destruct (NoDup_add_new l p Hl) as [Hnd Hin].
  rewrite (list_remove_NoDup _ _ Hnd Hin). f_equal.
  unfold Py.add_new. destruct (Py.mem p l) eqn:E; [reflexivity |].
  rewrite List.filter_app. simpl. unfold differs at 2.
  rewrite String.eqb_refl. simpl. apply app_nil_r.
Qed.

Lemma spans_app (a b : list PhoneSection) : spans (a ++ b) = spans a ++ spans b.
Proof. unfold spans. apply flat_map_app. Qed.

(** A section that is not flagged adds its telephone span, if new. *)
Lemma phone_step_unflagged (numbers : list string) (phone : option string)
                           (section : PhoneSection) :
  flagged section = false ->
  exists phone',
    Scraper.phone_step (numbers, phone) section
    = inr (fold_left Py.add_new (spans [section]) numbers, phone').
Proof.
  unfold flagged, Scraper.phone_step, spans. simpl.
  destruct (phone_link section) as [[p|]|]; destruct (phone_info section) as [info|];
    simpl; intros Hf; rewrite ?Hf; eauto.
Qed.

Lemma scan_phones_unflagged (front : list PhoneSection) :
  forall (numbers : list string) (phone : option string) (rest : list PhoneSection),
    forallb (fun s => negb (flagged s)) front = true ->
    exists phone',
      Scraper.scan_phones (front ++ rest) (numbers, phone)
      = Scraper.scan_phones rest (fold_left Py.add_new (spans front) numbers, phone').
Proof.
  induction front as [|s front IH]; intros numbers phone rest Hall;
    cbn [Scraper.scan_phones app].
  - now exists phone.
  - simpl in Hall. apply andb_prop in Hall as [Hs Hall].
    apply negb_true_iff in Hs.
    destruct (phone_step_unflagged numbers phone s Hs) as [phone1 ->].
    destruct (IH (fold_left Py.add_new (spans [s]) numbers) phone1 rest Hall)
      as [phone2 ->].
    exists phone2. change (s :: front) with ([s] ++ front).
    now rewrite spans_app, fold_left_app.
Qed.

Lemma api_phone_numbers_fold (sections : list PhoneSection) (found : list Api.Phone.t) :
  map Api.Phone.number (fold_left Api.phone_step sections found)
  = map Api.Phone.number found ++ spans sections.
Proof.
  revert found. induction sections as [|s sections IH]; intros found; simpl.
  - now rewrite app_nil_r.
  - rewrite IH. unfold Api.phone_step.
    destruct (phone_link s) as [[p|]|]; simpl; try reflexivity.
    rewrite map_app, <- app_assoc. simpl. now destruct (phone_info s).
Qed.

Lemma api_profile_phones (soup : ProfileSoup) :
  Api.Profile.phones (Api.parse_profile soup) = Api.scan_phones (phone_sections soup).
Proof.
  unfold Api.parse_profile.
  destruct (match name_header soup with
            | Some name_text => Api.parse_header name_text
            | None => (None, None, None)
            end) as [[? ?] ?].
  reflexivity.
Qed.

(** C6, as the code has it: in the batch extraction, when exactly one phone
    block is flagged as the possible primary phone and it carries a
    telephone span, that phone is first and the other phones follow in
    first-seen scan order; the request-response extraction does not promote
    anything and lists the phones in scan order. *)
Theorem batch_promotes_single_primary
    (soup : ProfileSoup) (front back : list PhoneSection) (p info_text : string) :
  phone_sections soup
  = front ++ {| phone_link := Some (Some p); phone_info := Some info_text |} :: back ->
  Py.contains Scraper.primary_flag info_text = true ->
  forallb (fun s => negb (flagged s)) front = true ->
  forallb (fun s => negb (flagged s)) back = true ->
  (exists d, Scraper.parse_profile soup = inr d /\
             Scraper.Profile.phone_numbers d
             = p :: List.filter (differs p) (first_seen (spans (phone_sections soup))))
  /\ map Api.Phone.number (Api.Profile.phones (Api.parse_profile soup))
     = spans (phone_sections soup).
Proof.
  intros Hsec Hflag Hfront Hback. split.
  2:{ rewrite api_profile_phones. unfold Api.scan_phones.
      now rewrite api_phone_numbers_fold. }
  unfold Scraper.parse_profile. rewrite Hsec.
  destruct (scan_phones_unflagged front [] None
              ({| phone_link := Some (Some p); phone_info := Some info_text |} :: back)
              Hfront) as [phone1 ->].
  rewrite fold_add_new_nil.
  cbn [Scraper.scan_phones Scraper.phone_step phone_link phone_info].
  rewrite Hflag, remove_after_add by apply first_seen_NoDup.
  destruct (scan_phones_unflagged back
              (p :: List.filter (differs p) (first_seen (spans front))) (Some p) []
              Hback) as [phone2 Hscan].
  rewrite app_nil_r in Hscan. rewrite Hscan.
  cbn [Scraper.scan_phones fst]. eexists. split; [reflexivity |].
  cbn [Scraper.Profile.phone_numbers].
  rewrite fold_add_new. simpl. f_equal.
  rewrite (spans_app front (_ :: back)).
  change (spans ({| phone_link := Some (Some p); phone_info := Some info_text |} :: back))
    with (p :: spans back).
  rewrite first_seen_app. simpl.
  rewrite List.filter_app. f_equal.
  assert (Hdrop : forall X, List.filter (differs p) (p :: X) = List.filter (differs p) X).
  { intros X. simpl. unfold differs at 1. now rewrite String.eqb_refl. }
  destruct (negb (Py.mem p (spans front))); rewrite ?Hdrop;
    rewrite !filter_twice; apply filter_same; intros y;
    destruct (String.eqb y p) eqn:Eyp; unfold differs; rewrite ?Eyp; simpl;
    try reflexivity; rewrite andb_true_r; f_equal;
    apply eq_true_iff_eq; rewrite !mem_In, filter_In, first_seen_In;
    rewrite Eyp; simpl; tauto.
Qed.

Lemma batch_promotes_single_primary_witness :
  exists d,
    Scraper.parse_profile
      {| name_header := None; address_section := None;
         phone_sections :=
           [ {| phone_link := Some (Some "555-0100"); phone_info := Some "Landline" |};
             {| phone_link := Some (Some "555-0101");
                phone_info := Some "Wireless Possible Primary Phone" |};
             {| phone_link := Some (Some "555-0102"); phone_info := None |} ];
         email_divs := [] |} = inr d /\
    Scraper.Profile.phone_numbers d = ["555-0101"; "555-0100"; "555-0102"].
Proof.
  destruct (batch_promotes_single_primary
    {| name_header := None; address_section := None;
       phone_sections :=
         [ {| phone_link := Some (Some "555-0100"); phone_info := Some "Landline" |};
           {| phone_link := Some (Some "555-0101");
              phone_info := Some "Wireless Possible Primary Phone" |};
           {| phone_link := Some (Some "555-0102"); phone_info := None |} ];
       email_divs := [] |}
    [ {| phone_link := Some (Some "555-0100"); phone_info := Some "Landline" |} ]
    [ {| phone_link := Some (Some "555-0102"); phone_info := None |} ]
    "555-0101" "Wireless Possible Primary Phone"
    eq_refl eq_refl eq_refl eq_refl) as [(d & Hd & Hp) _].
  exists d. split; [exact Hd | exact Hp].
Defined.

(** C6 as stated fails: the request-response extraction leaves a flagged
    phone where the scan met it, and in the batch extraction a second
    flagged block pushes the first flagged phone out of the first place. *)
Lemma flagged_phone_not_first :
  map Api.Phone.number
      (Api.Profile.phones
         (Api.parse_profile
            {| name_header := None; address_section := None;
               phone_sections :=
                 [ {| phone_link := Some (Some "555-0100"); phone_info := Some "Landline" |};
                   {| phone_link := Some (Some "555-0101");
                      phone_info := Some "Wireless Possible Primary Phone" |} ];
               email_divs := [] |}))
  = ["555-0100"; "555-0101"]
  /\ Scraper.scan_phones
       [ {| phone_link := Some (Some "555-0100");
            phone_info := Some "Possible Primary Phone" |};
         {| phone_link := Some (Some "555-0101");
            phone_info := Some "Possible Primary Phone" |} ] ([], None)
     = inr ["555-0101"; "555-0100"].
Proof. split; vm_compute; reflexivity. Qed.

End Phones.

(** ** Rules for the two judgements *)

Section Judgements.
Context `{Environment}.

Lemma stable_Forall (P : Event -> Prop) : stable (Forall P).
Proof.
  split; [constructor |]. intros a b Ha Hb. apply Forall_app. now split.
Qed.

Lemma obeys_weaken {A} (E E' : list Event -> Prop) (R R' : A -> Prop) (m : M A) :
  (forall l, E l -> E' l) -> (forall a, R a -> R' a) ->
  obeys E R m -> obeys E' R' m.
Proof.
  intros HE HR Hm w r w' Hrun. destruct (Hm w r w' Hrun) as ((d & Ht & Hd) & Hr).
  split; [exists d; auto | auto].
Qed.

Lemma obeys_ret {A} (E : list Event -> Prop) (R : A -> Prop) (a : A) :
  E [] -> R a -> obeys E R (ret a).
Proof.
  intros HE HR w r w' [= <- <-]. split.
  - exists []. now rewrite app_nil_r.
  - now intros a' [= <-].
Qed.

Lemma obeys_raise {A} (E : list Event -> Prop) (R : A -> Prop) (e : Exn) :
  E [] -> obeys E R (raise e).
Proof.
  intros HE w r w' [= <- <-]. split.
  - exists []. now rewrite app_nil_r.
  - discriminate.
Qed.

Lemma obeys_bind {A B} (E : list Event -> Prop) (R1 : A -> Prop) (R2 : B -> Prop)
                 (m : M A) (k : A -> M B) :
  stable E -> obeys E R1 m -> (forall a, R1 a -> obeys E R2 (k a)) ->
  obeys E R2 (bind m k).
Proof.
  intros [_ Happ] Hm Hk w r w' Hrun. unfold bind in Hrun.
  destruct (m w) as [[e|a] w1] eqn:Em.
  - injection Hrun as <- <-. destruct (Hm _ _ _ Em) as [Hd _].
    split; [exact Hd | discriminate].
  - destruct (Hm _ _ _ Em) as ((d1 & Ht1 & Hd1) & Hr1).
    destruct (Hk a (Hr1 a eq_refl) _ _ _ Hrun) as ((d2 & Ht2 & Hd2) & Hr2).
    split; [|exact Hr2].
    exists (d1 ++ d2). split; [|now apply Happ].
    now rewrite Ht2, Ht1, app_assoc.
Qed.

Lemma obeys_try {A} (E : list Event -> Prop) (R : A -> Prop)
                (m : M A) (h : Exn -> M A) :
  stable E -> obeys E R m -> (forall e, obeys E R (h e)) ->
  obeys E R (try_except m h).
Proof.
  intros [_ Happ] Hm Hh w r w' Hrun. unfold try_except in Hrun.
  destruct (m w) as [[e|a] w1] eqn:Em.
  - destruct (Hm _ _ _ Em) as ((d1 & Ht1 & Hd1) & _).
    destruct (Hh e _ _ _ Hrun) as ((d2 & Ht2 & Hd2) & Hr2).
    split; [|exact Hr2].
    exists (d1 ++ d2). split; [|now apply Happ].
    now rewrite Ht2, Ht1, app_assoc.
  - injection Hrun as <- <-. exact (Hm _ _ _ Em).
Qed.

Lemma obeys_try_timeout {A} (E : list Event -> Prop) (R : A -> Prop) (m h : M A) :
  stable E -> obeys E R m -> obeys E R h -> obeys E R (try_except_timeout m h).
Proof.
  intros HE Hm Hh. apply obeys_try; try assumption.
  intros e. destruct (is_timeout e); [assumption |].
  apply obeys_raise, HE.
Qed.

Lemma obeys_swallow (E : list Event -> Prop) (m : M unit) :
  stable E -> obeys E anything m -> obeys E anything (swallow m).
Proof.
  intros HE Hm. apply obeys_try; try assumption.
  intros e. apply obeys_ret; [apply HE | exact I].
Qed.

Lemma obeys_attempt_result {A} (E : list Event -> Prop) (R : A -> Prop) (m : M A) :
  obeys E R m ->
  obeys E (fun r => forall a, r = inr a -> R a) (attempt_result m).
Proof.
  intros Hm w r w' Hrun. unfold attempt_result in Hrun.
  destruct (m w) as [r0 w0] eqn:Em. injection Hrun as <- <-.
  destruct (Hm _ _ _ Em) as [Hd Hr]. split; [exact Hd |].
  now intros a [= <-].
Qed.

Lemma obeys_for_each {X A} (E : list Event -> Prop) (xs : list X)
                     (body : X -> M (Ctl A)) :
  stable E -> (forall x, In x xs -> obeys E anything (body x)) ->
  obeys E anything (for_each xs body).
Proof.
  intros HE. induction xs as [|x xs IH]; intros Hbody; simpl.
  - apply obeys_ret; [apply HE | exact I].
  - apply obeys_bind with (R1 := anything); try assumption.
    + apply Hbody. now left.
    + intros c _. destruct c; try (apply obeys_ret; [apply HE | exact I]);
        apply IH; intros y Hy; apply Hbody; now right.
Qed.

Lemma obeys_emit (E : list Event -> Prop) (e : Event) :
  E [e] -> obeys E anything (emit e).
Proof.
  intros HE w r w' [= <- <-]. split; [|intros; exact I].
  exists [e]. now split.
Qed.

Lemma obeys_silent {A} (E : list Event -> Prop) (R : A -> Prop) (m : M A) :
  E [] ->
  (forall w r w', m w = (r, w') -> trace w' = trace w /\ forall a, r = inr a -> R a) ->
  obeys E R m.
Proof.
  intros HE Hm w r w' Hrun. destruct (Hm _ _ _ Hrun) as [Ht Hr].
  split; [|exact Hr]. exists []. now rewrite app_nil_r.
Qed.

Lemma obeys_external (E : list Event -> Prop) : E [] -> obeys E anything external.
Proof.
  intros HE. apply obeys_silent; [assumption |].
  intros w r w'. unfold external.
  destruct (call_raises (tick w)); intros [= <- <-]; now split.
Qed.

Lemma obeys_ask (E : list Event -> Prop) (oracle : nat -> Exn + string) :
  E [] -> obeys E anything (ask oracle).
Proof.
  intros HE. apply obeys_silent; [assumption |].
  intros w r w'. unfold ask.
  destruct (oracle (tick w)); intros [= <- <-]; now split.
Qed.

Lemma obeys_get_attribute (E : list Event -> Prop) : E [] -> obeys E anything get_attribute.
Proof.
  intros HE. apply obeys_silent; [assumption |].
  intros w r w'. unfold get_attribute.
  destruct (attribute_at (tick w)); intros [= <- <-]; now split.
Qed.

Lemma obeys_uniform (E : list Event -> Prop) (a b : Q) :
  E [] -> obeys E (fun d => exists t, d = (a + (b - a) * random_at t)%Q) (uniform a b).
Proof.
  intros HE. apply obeys_silent; [assumption |].
  intros w r w' [= <- <-]. split; [reflexivity |].
  intros d [= <-]. now exists (tick w).
Qed.

Lemma obeys_get_driver (E : list Event -> Prop) : E [] -> obeys E anything get_driver.
Proof.
  intros HE. apply obeys_silent; [assumption |].
  intros w r w' [= <- <-]. now split.
Qed.

Lemma obeys_set_driver (E : list Event -> Prop) (d : option nat) :
  E [] -> obeys E anything (set_driver d).
Proof.
  intros HE. apply obeys_silent; [assumption |].
  intros w r w' [= <- <-]. now split.
Qed.

Lemma obeys_now (E : list Event -> Prop) : E [] -> obeys E anything now.
Proof.
  intros HE. apply obeys_silent; [assumption |].
  intros w r w' [= <- <-]. now split.
Qed.

Lemma obeys_sleep (E : list Event -> Prop) (d : Q) :
  E [] -> E [ESleep d] -> obeys E anything (sleep d).
Proof.
  intros H0 H1. unfold sleep. destruct (Qle_bool 0 d).
  - now apply obeys_emit.
  - now apply obeys_raise.
Qed.

(** *** Returning without an exception *)

Lemma succeeds_weaken {A} (R R' : A -> Prop) (m : M A) :
  (forall a, R a -> R' a) -> succeeds R m -> succeeds R' m.
Proof.
  intros HR Hm w. destruct (Hm w) as (a & w' & Hrun & Ha). eauto.
Qed.

Lemma succeeds_ret {A} (R : A -> Prop) (a : A) : R a -> succeeds R (ret a).
Proof. intros Ha w. now exists a, w. Qed.

Lemma succeeds_bind {A B} (R1 : A -> Prop) (R2 : B -> Prop) (m : M A) (k : A -> M B) :
  succeeds R1 m -> (forall a, R1 a -> succeeds R2 (k a)) -> succeeds R2 (bind m k).
Proof.
  intros Hm Hk w. destruct (Hm w) as (a & w1 & Hrun & Ha).
  destruct (Hk a Ha w1) as (b & w2 & Hrun2 & Hb).
  exists b, w2. unfold bind. now rewrite Hrun.
Qed.

(** A [try] whose handler does not raise does not raise. *)
Lemma succeeds_try {A} (m : M A) (h : Exn -> M A) :
  (forall e, succeeds anything (h e)) -> succeeds anything (try_except m h).
Proof.
  intros Hh w. unfold try_except. destruct (m w) as [[e|a] w1].
  - apply Hh.
  - now exists a, w1.
Qed.

Lemma succeeds_for_each {X A} (xs : list X) (body : X -> M (Ctl A)) :
  (forall x, In x xs -> succeeds anything (body x)) ->
  succeeds anything (for_each xs body).
Proof.
  induction xs as [|x xs IH]; intros Hbody; simpl.
  - now apply succeeds_ret.
  - apply succeeds_bind with (R1 := anything).
    + apply Hbody. now left.
    + intros c _. destruct c; try (now apply succeeds_ret);
        apply IH; intros y Hy; apply Hbody; now right.
Qed.

Lemma succeeds_uniform (a b : Q) :
  succeeds (fun d => exists t, d = (a + (b - a) * random_at t)%Q) (uniform a b).
Proof. intros w. eexists _, _. split; [reflexivity |]. now exists (tick w). Qed.

Lemma succeeds_sleep (d : Q) : (0 <= d)%Q -> succeeds anything (sleep d).
Proof.
  intros Hd w. unfold sleep. apply Qle_bool_iff in Hd. rewrite Hd.
  eexists _, _. split; [reflexivity | exact I].
Qed.

Lemma succeeds_set_driver (d : option nat) : succeeds anything (set_driver d).
Proof. intros w. eexists _, _. split; [reflexivity | exact I]. Qed.

End Judgements.

(** ** The session manager and the fetch engine emit quiet events *)

Lemma stable_nil (E : list Event -> Prop) : stable E -> E [].
Proof. now intros [? _]. Qed.

Lemma quiet_one (E : list Event -> Prop) (e : Event) :
  (forall l, all_quiet l -> E l) -> quiet e = true -> E [e].
Proof. intros HE He. apply HE. now repeat constructor. Qed.

Section Sequencing.
Context `{Environment}.

Lemma obeys_seq {A B} (E : list Event -> Prop) (R : B -> Prop) (m : M A) (k : A -> M B) :
  stable E -> obeys E anything m -> (forall a, obeys E R (k a)) -> obeys E R (bind m k).
Proof. intros HE Hm Hk. apply obeys_bind with (R1 := anything); auto. Qed.

Lemma obeys_done {A} (E : list Event -> Prop) (a : A) : stable E -> obeys E anything (ret a).
Proof. intros HE. apply obeys_ret; [now apply stable_nil | exact I]. Qed.

Lemma quiet_uniform (E : list Event -> Prop) (a b : Q) :
  stable E -> obeys E anything (uniform a b).
Proof.
  intros HE.
  eapply obeys_weaken; [| | apply obeys_uniform, stable_nil, HE]; [tauto | intros; exact I].
Qed.

Lemma quiet_attempt_result {A} (E : list Event -> Prop) (m : M A) :
  obeys E anything m -> obeys E anything (attempt_result m).
Proof.
  intros Hm. eapply obeys_weaken; [| | apply obeys_attempt_result, Hm]; [tauto |].
  intros; exact I.
Qed.

End Sequencing.

Create HintDb quiet.

(** One step of a proof that a computation emits only events of [E]: a
    lemma already proved, or the rule of the construct at the head.  The
    context holds that [E] is stable and holds of quiet events. *)
Ltac obey_with extra :=
  repeat first
    [ progress intros
    | extra
    | solve [auto 3 with quiet nocore]
    | apply obeys_done; [assumption]
    | apply obeys_seq; [assumption | |]
    | apply obeys_raise, stable_nil; assumption
    | apply obeys_external, stable_nil; assumption
    | apply obeys_get_attribute, stable_nil; assumption
    | apply obeys_get_driver, stable_nil; assumption
    | apply obeys_set_driver, stable_nil; assumption
    | apply obeys_now, stable_nil; assumption
    | apply obeys_emit, quiet_one; [assumption | reflexivity]
    | apply obeys_sleep;
      [apply stable_nil; assumption | apply quiet_one; [assumption | reflexivity]]
    | apply quiet_uniform; [assumption]
    | apply quiet_attempt_result
    | apply obeys_swallow; [assumption |]
    | apply obeys_try_timeout; [assumption | |]
    | apply obeys_try; [assumption | |]
    | apply obeys_for_each; [assumption |]
    | match goal with
      | |- obeys _ _ (match ?x with _ => _ end) => destruct x
      | |- obeys _ _ (if ?x then _ else _) => destruct x
      end ].

Ltac obey := obey_with fail.

Section Quiet.
Context `{Environment}.
Variable E : list Event -> Prop.
Hypothesis E_stable : stable E.
Hypothesis E_quiet : forall l, all_quiet l -> E l.

Lemma quiet_the_driver :
  obeys E anything the_driver.
Proof.
  unfold the_driver. obey.
Qed.
#[local] Hint Resolve quiet_the_driver : quiet.

Lemma quiet_new_chrome :
  obeys E anything new_chrome.
Proof.
  unfold new_chrome. obey.
Qed.
#[local] Hint Resolve quiet_new_chrome : quiet.

Lemma quiet_quit (h : nat) :
  obeys E anything (quit h).
Proof.
  unfold quit. obey.
Qed.
#[local] Hint Resolve quiet_quit : quiet.

Lemma quiet_current_url :
  obeys E anything current_url.
Proof.
  apply obeys_ask, stable_nil, E_stable.
Qed.
#[local] Hint Resolve quiet_current_url : quiet.

Lemma quiet_page_source :
  obeys E anything page_source.
Proof.
  apply obeys_ask, stable_nil, E_stable.
Qed.
#[local] Hint Resolve quiet_page_source : quiet.

Lemma quiet_configure :
  obeys E anything configure.
Proof.
  unfold configure. obey.
Qed.
#[local] Hint Resolve quiet_configure : quiet.

Lemma quiet_setup_loop (attempts : list Z) :
  forall local, obeys E anything (setup_loop attempts local).
Proof.
  induction attempts as [|attempt rest IH]; intros local;
    cbn [setup_loop]; obey; apply IH.
Qed.
#[local] Hint Resolve quiet_setup_loop : quiet.

Lemma quiet_setup_driver :
  obeys E anything _setup_driver.
Proof.
  unfold _setup_driver. obey.
Qed.
#[local] Hint Resolve quiet_setup_driver : quiet.

Lemma quiet_wait_until (seconds : Q) :
  obeys E anything (wait_until seconds).
Proof.
  unfold wait_until. obey.
Qed.
#[local] Hint Resolve quiet_wait_until : quiet.

Lemma quiet_read_url :
  obeys E anything read_url.
Proof.
  unfold read_url. obey.
Qed.
#[local] Hint Resolve quiet_read_url : quiet.

Lemma quiet_on_challenge :
  obeys E anything on_challenge.
Proof.
  unfold on_challenge. obey.
Qed.
#[local] Hint Resolve quiet_on_challenge : quiet.

Lemma quiet_off_challenge :
  obeys E anything off_challenge.
Proof.
  unfold off_challenge. obey.
Qed.
#[local] Hint Resolve quiet_off_challenge : quiet.

Lemma quiet_poll_challenge :
  obeys E anything poll_challenge.
Proof.
  unfold poll_challenge. obey.
Qed.
#[local] Hint Resolve quiet_poll_challenge : quiet.

Lemma quiet_await_page (self : Config) (attempt : Z) :
  obeys E anything (await_page self attempt).
Proof.
  unfold await_page. obey.
Qed.
#[local] Hint Resolve quiet_await_page : quiet.

Lemma quiet_quit_current :
  obeys E anything quit_current.
Proof.
  unfold quit_current. obey.
Qed.
#[local] Hint Resolve quiet_quit_current : quiet.

Lemma quiet_restart_driver :
  obeys E anything restart_driver.
Proof.
  unfold restart_driver. obey.
Qed.
#[local] Hint Resolve quiet_restart_driver : quiet.

Lemma quiet_del :
  obeys E anything __del__.
Proof.
  unfold __del__. obey.
Qed.
#[local] Hint Resolve quiet_del : quiet.

(** What an attempt does once the navigation has been issued. *)
Lemma quiet_after_navigation (self : Config) (attempt : Z) :
  obeys E anything
    (c <- await_page self attempt;;
     match c with
     | Pass =>
         sleep 2;;
         _ <- the_driver;;
         src <- page_source;;
         ret (Return (Some src))
     | other => ret other
     end).
Proof. obey. Qed.

(** The handler of an attempt: backoff and restart. *)
Lemma quiet_backoff (self : Config) (attempt : Z) :
  obeys E anything
    (if attempt =? max_retries self - 1 then ret (@Break (option string))
     else
       jitter <- uniform 1 3;;
       sleep (inject_Z ((attempt + 1) * 3) + jitter);;
       restart_driver;;
       ret Pass).
Proof. obey. Qed.

End Quiet.

#[global] Hint Resolve quiet_the_driver quiet_new_chrome quiet_quit quiet_current_url
  quiet_page_source quiet_configure quiet_setup_loop quiet_setup_driver
  quiet_wait_until quiet_read_url quiet_on_challenge quiet_off_challenge
  quiet_poll_challenge quiet_await_page quiet_quit_current quiet_restart_driver
  quiet_del quiet_after_navigation quiet_backoff : quiet.

(** ** Pacing of navigations *)

Section Pacing.
Context `{Environment}.
Variable self : Config.

Lemma paced_quiet prev l : all_quiet l -> paced is_get self prev l = true.
Proof.
  revert prev. induction l as [|e l IH]; intros prev Hq; simpl; [reflexivity |].
  inversion Hq as [|? ? He Hl]; subst. rewrite IH by assumption.
  destruct e; simpl in *; try reflexivity; discriminate.
Qed.

Lemma paced_weaken prev l : paced is_get self None l = true -> paced is_get self prev l = true.
Proof.
  destruct l as [|e l]; simpl; [reflexivity |].
  destruct (is_get e); simpl; [discriminate | auto].
Qed.

Lemma paced_app prev a b :
  paced is_get self prev a = true -> paced is_get self None b = true -> paced is_get self prev (a ++ b) = true.
Proof.
  revert prev. induction a as [|e a IH]; intros prev Ha Hb; simpl.
  - now apply paced_weaken.
  - simpl in Ha. apply andb_prop in Ha as [-> Ha]. simpl. now apply IH.
Qed.

Lemma stable_paced : stable (fun l => paced is_get self None l = true).
Proof. split; [reflexivity |]. intros a b. apply paced_app. Qed.

Lemma pace_in_range (t : nat) :
  random_in_unit -> (min_delay self <= max_delay self)%Q ->
  is_pace self (ESleep (min_delay self + (max_delay self - min_delay self) * random_at t)) = true.
Proof.
  intros Hr Hmm. destruct (Hr t) as [H0 H1].
  apply Qle_bool_iff in H0, H1. simpl. apply andb_true_intro.
  split; apply Qle_bool_iff; nra.
Qed.

Lemma paced_try (url : string) (k : M (Ctl (option string))) :
  random_in_unit -> (min_delay self <= max_delay self)%Q ->
  obeys all_quiet anything k ->
  obeys (fun l => paced is_get self None l = true) anything
        (_add_delay self;; navigate url;; k).
Proof.
  intros Hr Hmm Hk [t tr dr ai] r w' Hrun.
  split; [|intros; exact I].
  unfold _add_delay, uniform, sleep, navigate, the_driver, get_driver, external in Hrun.
  assert (Hd := pace_in_range t Hr Hmm).
  cbv [bind] in Hrun. cbn [tick trace driver api_instance advance] in Hrun.
  set (d := (min_delay self + (max_delay self - min_delay self) * random_at t)%Q) in *.
  cbn [trace].
  destruct (Qle_bool 0 d);
    cbn [emit raise ret tick trace driver api_instance advance] in Hrun.
  2:{ injection Hrun as <- <-. exists []. simpl. now rewrite app_nil_r. }
  destruct dr as [h|];
    cbn [emit raise ret tick trace driver api_instance advance] in Hrun.
  2:{ injection Hrun as <- <-. exists [ESleep d]. now split. }
  destruct (call_raises (S t));
    cbn [emit raise ret tick trace driver api_instance advance] in Hrun.
  { injection Hrun as <- <-. exists [ESleep d; EGet url]. cbn [trace].
    split; [now rewrite <- app_assoc | cbn [paced is_get]; now rewrite Hd]. }
  destruct (Hk _ _ _ Hrun) as ((delta & Ht & Hq) & _). cbn [trace advance] in Ht.
  exists ([ESleep d; EGet url] ++ delta). split.
  - rewrite Ht, <- !app_assoc. reflexivity.
  - apply paced_app; [cbn [paced is_get]; now rewrite Hd | now apply paced_quiet].
Qed.

(** One attempt paces its navigation. *)
Lemma paced_attempt_body (url : string) (attempt : Z) :
  random_in_unit -> (min_delay self <= max_delay self)%Q ->
  obeys (fun l => paced is_get self None l = true) anything (attempt_body self url attempt).
Proof.
  intros Hr Hmm. unfold attempt_body. apply obeys_try.
  - apply stable_paced.
  - apply paced_try; try assumption.
    apply quiet_after_navigation; [apply stable_Forall | auto].
  - intros e. apply quiet_backoff; [apply stable_paced |].
    intros l. apply paced_quiet.
Qed.

(** In a paced list, the event just before a [driver.get] is a sleep of a
    length between the two bounds. *)
Lemma paced_before_get (before after : list Event) (u : string) (prev : option Event) :
  paced is_get self prev (before ++ EGet u :: after) = true ->
  match rev before with
  | s :: _ => is_pace self s = true
  | [] => exists s, prev = Some s /\ is_pace self s = true
  end.
Proof.
  revert prev. induction before as [|e before IH]; intros prev; simpl.
  - destruct prev as [s|]; simpl; [|discriminate].
    intros Hp. apply andb_prop in Hp as [Hp _]. eauto.
  - intros Hp. apply andb_prop in Hp as [_ Hp]. specialize (IH _ Hp).
    destruct (rev before) as [|s r]; simpl.
    + destruct IH as (s & [= <-] & Hs). exact Hs.
    + exact IH.
Qed.

Lemma is_pace_sleep (s : Event) :
  is_pace self s = true ->
  exists d, s = ESleep d /\ (min_delay self <= d)%Q /\ (d <= max_delay self)%Q.
Proof.
  destruct s; simpl; try discriminate. intros Hp. apply andb_prop in Hp as [Hlo Hhi].
  apply Qle_bool_iff in Hlo, Hhi. eauto.
Qed.

End Pacing.

(** C7, as the code has it: in every fetch through [_make_request], each
    [driver.get] (the first attempt, a retry after a page-load timeout, a
    retry after an exception and a session restart alike) comes right
    after a sleep whose length lies between [min_delay] and [max_delay]. *)
Theorem make_request_paces_every_get `{Environment}
    (self : Config) (url : string) (w : World) :
  random_in_unit -> (min_delay self <= max_delay self)%Q ->
  exists delta,
    trace (snd (_make_request self url w)) = trace w ++ delta /\
    forall before after u,
      delta = before ++ EGet u :: after ->
      exists before' d,
        before = before' ++ [ESleep d] /\
        (min_delay self <= d)%Q /\ (d <= max_delay self)%Q.
Proof.
  intros Hr Hmm.
  assert (Hob : obeys (fun l => paced is_get self None l = true) anything
                      (_make_request self url)).
  { unfold _make_request. apply obeys_bind with (R1 := anything).
    - apply stable_paced.
    - apply obeys_for_each; [apply stable_paced |].
      intros attempt _. now apply paced_attempt_body.
    - intros r _. destruct r; (apply obeys_ret; [reflexivity | exact I]). }
  destruct (_make_request self url w) as [r w'] eqn:Erun.
  destruct (Hob _ _ _ Erun) as ((delta & Ht & Hp) & _).
  exists delta. split; [exact Ht |].
  intros before after u ->.
  pose proof (paced_before_get self before after u None Hp) as Hb.
  destruct (rev before) as [|s r0] eqn:Erev.
  - destruct Hb as (s & [=] & _).
  - destruct (is_pace_sleep self s Hb) as (d & -> & Hlo & Hhi).
    exists (rev r0), d. split; [|now split].
    rewrite <- (rev_involutive before), Erev. reflexivity.
Qed.

Lemma make_request_paces_every_get_witness :
  exists delta,
    trace (snd (@_make_request no_source Api.default_config site_url live_world))
    = trace live_world ++ delta /\
    forall before after u,
      delta = before ++ EGet u :: after ->
      exists before' d,
        before = before' ++ [ESleep d] /\
        (min_delay Api.default_config <= d)%Q /\ (d <= max_delay Api.default_config)%Q.
Proof.
  apply (@make_request_paces_every_get no_source Api.default_config site_url live_world).
  - intros t. split; reflexivity.
  - unfold Qle. simpl. lia.
Defined.

(** C7 as stated fails for the form submission: in [search_by_address] the
    click that submits the search form comes right after a fixed sleep of
    one second, and no sleep since the homepage navigation reaches the
    lower bound of five seconds. *)
Lemma form_submission_is_not_paced :
  trace (snd (@Scraper.search_by_address calm_site Scraper.default_config
                an_owner live_world))
  = [ ESleep (15 # 2); EGet "https://www.truepeoplesearch.com"; EWait 15; ESleep 2;
      EWait 20; EWait 20; EWait 20; ESleep 2; ESleep 1; EClick; EWait 15 ]
  /\ paced is_navigation Scraper.default_config None
       (trace (snd (@Scraper.search_by_address calm_site Scraper.default_config
                      an_owner live_world)))
     = false
  /\ forallb (fun d => negb (Qle_bool (min_delay Scraper.default_config) d)) [2; 2; 1]%Q
     = true.
Proof. repeat split; vm_compute; reflexivity. Qed.

(** ** Exceptions leaving the fetch engine *)

Section NoRaise.
Context `{Environment}.
Variables (self : Config) (url : string).

Lemma inject_Z_nonneg (z : Z) : 0 <= z -> (0 <= inject_Z z)%Q.
Proof. intros Hz. unfold Qle. simpl. lia. Qed.

Lemma range_nonneg (n x : Z) : In x (Py.range n) -> 0 <= x.
Proof.
  unfold Py.range. rewrite in_map_iff. intros (k & <- & _). lia.
Qed.

Lemma succeeds_swallow (m : M unit) : succeeds anything (swallow m).
Proof. apply succeeds_try. intros e. now apply succeeds_ret. Qed.

(** An attempt is its [try] block and, when that raises before the last
    turn, the teardown and the new session. *)
Lemma attempt_body_split (attempt : Z) (w : World) :
  attempt_body self url attempt w =
  match attempt_try self url attempt w with
  | (inr c, w1) => (inr c, w1)
  | (inl e, wb) =>
      if attempt =? max_retries self - 1 then (inr Break, wb)
      else
        match teardown attempt wb with
        | (inr _, wr) =>
            match _setup_driver wr with
            | (inr d, w1) => (inr Pass, snd (set_driver d w1))
            | (inl e', w1) => (inl e', w1)
            end
        | (inl e', w') => (inl e', w')
        end
  end.
Proof.
  unfold attempt_body, attempt_try, try_except.
  match goal with |- context [match ?m w with _ => _ end] => destruct (m w) as [[e|c] w1] end;
    [|reflexivity].
  destruct (attempt =? max_retries self - 1); [reflexivity |].
  unfold teardown, restart_driver, bind.
  destruct (uniform 1 3 w1) as [[e1|jitter] w2]; [reflexivity |].
  destruct (sleep _ w2) as [[e2|[]] w3]; [reflexivity |].
  destruct (swallow quit_current w3) as [[e3|[]] w4]; [reflexivity |].
  destruct (_setup_driver w4) as [[e4|d] w5]; reflexivity.
Qed.

Lemma teardown_returns (attempt : Z) (wb : World) :
  random_in_unit -> 0 <= attempt ->
  exists wr, teardown attempt wb = (inr tt, wr).
Proof.
  intros Hr Ha. unfold teardown, bind, uniform.
  destruct (Hr (tick wb)) as [H0 _]. apply Qle_bool_iff in H0.
  assert (Hd : Qle_bool 0 (inject_Z ((attempt + 1) * 3) + (1 + (3 - 1) * random_at (tick wb)))
               = true).
  { apply Qle_bool_iff.
    pose proof (inject_Z_nonneg ((attempt + 1) * 3) ltac:(lia)). nra. }
  unfold sleep. rewrite Hd. cbn [emit].
  unfold swallow, try_except.
  match goal with |- context [quit_current ?w0] => destruct (quit_current w0) as [[e|[]] w1] end;
    eexists; reflexivity.
Qed.

(** An exception that leaves the loop left a restart of one of its
    attempts. *)
Lemma loop_raises_a_failed_restart (xs : list Z) :
  random_in_unit -> (forall x, In x xs -> 0 <= x) ->
  forall w e w',
    for_each xs (attempt_body self url) w = (inl e, w') ->
    exists attempt wa wr,
      iterates (attempt_body self url) xs w attempt wa /\
      restart_of self url attempt wa wr /\
      _setup_driver wr = (inl e, w').
Proof.
  intros Hr. induction xs as [|x rest IH]; intros Hxs w e w'; [discriminate |].
  cbn [for_each]. unfold bind at 1. rewrite attempt_body_split.
  destruct (attempt_try self url x w) as [[e0|c] wb] eqn:Etry.
  - destruct (x =? max_retries self - 1) eqn:Elast; [discriminate |].
    destruct (teardown_returns x wb Hr ltac:(apply Hxs; now left)) as (wr & Htear).
    rewrite Htear.
    destruct (_setup_driver wr) as [[e1|d] w1] eqn:Esetup.
    + intros [= <- <-]. exists x, w, wr. split; [constructor |]. split; [|exact Esetup].
      exists e0, wb. repeat split; try assumption. apply Z.eqb_neq, Elast.
    + intros Hrest. apply IH in Hrest as (attempt & wa & wr' & Hit & Hre & Hs).
      * exists attempt, wa, wr'. split; [|now split].
        apply iterates_next with (c := Pass) (w1 := snd (set_driver d w1)); auto.
        rewrite attempt_body_split, Etry, Elast, Htear, Esetup. reflexivity.
      * intros y Hy. apply Hxs. now right.
  - assert (Hbody : attempt_body self url x w = (inr c, wb))
      by (now rewrite attempt_body_split, Etry).
    destruct c; try discriminate; intros Hrest;
      apply IH in Hrest as (attempt & wa & wr' & Hit & Hre & Hs);
      try (intros y Hy; apply Hxs; now right);
      exists attempt, wa, wr'; (split; [|now split]);
      eapply iterates_next; eauto.
Qed.

(** The exception of a restart that fails leaves the loop. *)
Lemma failed_restart_leaves_loop (xs : list Z) (w wa wr w1 : World) (attempt : Z) (e : Exn) :
  iterates (attempt_body self url) xs w attempt wa ->
  restart_of self url attempt wa wr ->
  _setup_driver wr = (inl e, w1) ->
  for_each xs (attempt_body self url) w = (inl e, w1).
Proof.
  intros Hit (e0 & wb & Htry & Hne & Htear) Hs.
  induction Hit as [x rest w|x rest w c w2 y wy Hbody Hc Hit IH]; cbn [for_each]; unfold bind.
  - rewrite attempt_body_split, Htry, Htear, Hs.
    apply Z.eqb_neq in Hne. now rewrite Hne.
  - rewrite Hbody. destruct Hc as [-> | ->]; now apply IH.
Qed.

End NoRaise.

(** C3, as the code has it.  [_make_request] returns markup or [None]
    without raising whenever the session restarts it performs succeed,
    whatever made its attempts fail; an exception that leaves it is the one
    [_setup_driver] raised in one of its restarts; and the exception of a
    restart that fails does leave it.  The restarts of a fetch are the calls
    of [_setup_driver] by the handlers of its attempts ([restarts_at]). *)
Theorem make_request_raises_only_a_failed_restart `{Environment}
    (self : Config) (url : string) (w : World) :
  random_in_unit ->
  ((forall wr, restarts_at self url w wr -> exists d w1, _setup_driver wr = (inr d, w1)) ->
   exists (r : option string) (w' : World), _make_request self url w = (inr r, w'))
  /\ (forall e w', _make_request self url w = (inl e, w') ->
        exists wr, restarts_at self url w wr /\ _setup_driver wr = (inl e, w'))
  /\ (forall wr e w', restarts_at self url w wr -> _setup_driver wr = (inl e, w') ->
        _make_request self url w = (inl e, w')).
Proof.
  intros Hr.
  assert (Hraise : forall e w', _make_request self url w = (inl e, w') ->
            exists wr, restarts_at self url w wr /\ _setup_driver wr = (inl e, w')).
  { intros e w'. unfold _make_request, bind.
    destruct (for_each _ _ w) as [[e0|r] w0] eqn:Eloop.
    - intros [= <- <-].
      apply loop_raises_a_failed_restart in Eloop
        as (attempt & wa & wr & Hit & Hre & Hs); try assumption.
      + exists wr. split; [now exists attempt, wa | exact Hs].
      + intros x. apply range_nonneg.
    - destruct r; discriminate. }
  split; [|split; [exact Hraise |]].
  - intros Hsetup. destruct (_make_request self url w) as [[e|r] w'] eqn:Erun.
    + destruct (Hraise e w' eq_refl) as (wr & Hwr & Hs).
      destruct (Hsetup wr Hwr) as (d & w1 & Hok). congruence.
    + now exists r, w'.
  - intros wr e w' (attempt & wa & Hit & Hre) Hs. unfold _make_request, bind.
    now rewrite (failed_restart_leaves_loop self url _ _ _ _ _ _ _ Hit Hre Hs).
Qed.

Lemma make_request_raises_only_a_failed_restart_witness :
  exists (r : option string) (w' : World),
    @_make_request flaky_browser Api.default_config site_url live_world = (inr r, w')
    /\ r = Some "<html>"
    /\ trace w' = [ ESleep (7 # 2); EGet site_url; ESleep (10 # 2); EQuit 0; ENewDriver 5;
                    ESleep (7 # 2); EGet site_url; EWait 15; ESleep 2 ].
Proof.
  destruct (proj1 (@make_request_raises_only_a_failed_restart flaky_browser
                     Api.default_config site_url live_world
                     ltac:(intros t; split; reflexivity))) as (r & w' & Hrun).
  - intros wr (attempt & wa & Hit & e & wb & Htry & Hne & Htear).
    change (Py.range (max_retries Api.default_config)) with [0; 1; 2] in Hit.
    inversion Hit as [x rest w0|x rest w0 c w1 y wy Hbody Hc Hit1]; subst.
    + vm_compute in Htry. injection Htry as <- <-.
      vm_compute in Htear. injection Htear as <-.
      eexists _, _. vm_compute. reflexivity.
    + vm_compute in Hbody. injection Hbody as <- <-.
      inversion Hit1 as [x rest w0|x rest w0 c w2 y wy Hbody2 Hc2 Hit2]; subst.
      * vm_compute in Htry. discriminate.
      * vm_compute in Hbody2. injection Hbody2 as <- <-.
        destruct Hc2; discriminate.
  - exists r, w'. split; [exact Hrun |].
    vm_compute in Hrun. injection Hrun as <- <-. split; reflexivity.
Defined.

(** C3 as stated fails: when the navigation raises and the browser cannot
    be constructed again, the exception of [_setup_driver], raised inside
    the handler of [_make_request], reaches the caller. *)
Lemma make_request_raises_when_restart_fails :
  fst (@_make_request dead_browser Api.default_config site_url live_world)
  = inl chrome_down
  /\ trace (snd (@_make_request dead_browser Api.default_config site_url live_world))
     = [ ESleep (7 # 2); EGet site_url; ESleep (10 # 2); EQuit 0; ESleep 2; ESleep 4 ].
Proof. split; vm_compute; reflexivity. Qed.
(** ** A challenge that never clears *)

Section Challenge.
Context `{Environment}.
Variables (self : Config) (url u : string).
Hypothesis url_stays : forall t, current_url_at t = inr u.
Hypothesis url_challenge : Py.contains "challenge" u || Py.contains "captcha" u = true.

Lemma later_refl (w : World) : later w [] w.
Proof. unfold later. now rewrite app_nil_r. Qed.

Lemma later_trans (w1 w2 w3 : World) (d1 d2 : list Event) :
  later w1 d1 w2 -> later w2 d2 w3 -> later w1 (d1 ++ d2) w3.
Proof.
  unfold later. intros (Ht1 & Hd1 & Ha1) (Ht2 & Hd2 & Ha2).
  rewrite Ht2, Ht1, Hd2, Hd1, Ha2, Ha1, app_assoc. auto.
Qed.

Lemma bind_run {A B} (m : M A) (k : A -> M B) (w w1 : World) (a : A) :
  m w = (inr a, w1) -> bind m k w = k a w1.
Proof. intros Hm. unfold bind. now rewrite Hm. Qed.

Lemma sleep_run (d : Q) (w : World) :
  Qle_bool 0 d = true -> exists w', sleep d w = (inr tt, w') /\ later w [ESleep d] w'.
Proof.
  intros Hd. unfold sleep. rewrite Hd. eexists. split; [reflexivity |].
  now destruct w.
Qed.

Lemma read_url_run (w : World) (h : nat) :
  driver w = Some h -> exists w', read_url w = (inr u, w') /\ later w [] w'.
Proof.
  intros Hd. unfold read_url, the_driver, get_driver, current_url, ask.
  cbv [bind ret]. rewrite Hd. cbn. rewrite url_stays. eexists. split; [reflexivity |].
  destruct w. unfold later. simpl. now rewrite app_nil_r.
Qed.

Lemma on_challenge_run (w : World) (h : nat) :
  driver w = Some h -> exists w', on_challenge w = (inr true, w') /\ later w [] w'.
Proof.
  intros Hd. unfold on_challenge.
  destruct (read_url_run w h Hd) as (w1 & Hr1 & Hl1).
  rewrite (bind_run _ _ _ _ _ Hr1).
  destruct (Py.contains "challenge" u) eqn:E1.
  - exists w1. now split.
  - assert (Hd1 : driver w1 = Some h) by (destruct Hl1 as (_ & -> & _); exact Hd).
    destruct (read_url_run w1 h Hd1) as (w2 & Hr2 & Hl2).
    rewrite (bind_run _ _ _ _ _ Hr2). simpl in url_challenge. rewrite url_challenge.
    exists w2. split; [reflexivity |]. apply (later_trans _ _ _ [] [] Hl1 Hl2).
Qed.

Lemma off_challenge_run (w : World) (h : nat) :
  driver w = Some h -> exists w', off_challenge w = (inr false, w') /\ later w [] w'.
Proof.
  intros Hd. unfold off_challenge.
  destruct (read_url_run w h Hd) as (w1 & Hr1 & Hl1).
  rewrite (bind_run _ _ _ _ _ Hr1).
  destruct (Py.contains "challenge" u) eqn:E1.
  - exists w1. now split.
  - assert (Hd1 : driver w1 = Some h) by (destruct Hl1 as (_ & -> & _); exact Hd).
    destruct (read_url_run w1 h Hd1) as (w2 & Hr2 & Hl2).
    rewrite (bind_run _ _ _ _ _ Hr2). simpl in url_challenge. rewrite url_challenge.
    exists w2. split; [reflexivity |]. apply (later_trans _ _ _ [] [] Hl1 Hl2).
Qed.

(** Every round of the polling loop finds the challenge in place and sleeps. *)
Lemma poll_rounds (rounds : list Z) (w : World) (h : nat) :
  driver w = Some h ->
  exists w',
    for_each rounds
      (fun _ : Z =>
         cleared <- off_challenge;;
         if cleared then ret (@Break unit) else sleep 5;; ret Pass) w
    = (inr None, w') /\ later w (repeat (ESleep 5) (length rounds)) w'.
Proof.
  revert w. induction rounds as [|x rounds IH]; intros w Hd.
  - exists w. split; [reflexivity | apply later_refl].
  - cbn [for_each].
    destruct (off_challenge_run w h Hd) as (w1 & Hr1 & Hl1).
    assert (Hd1 : driver w1 = Some h) by (destruct Hl1 as (_ & -> & _); exact Hd).
    destruct (sleep_run 5 w1 eq_refl) as (w2 & Hr2 & Hl2).
    assert (Hd2 : driver w2 = Some h) by (destruct Hl2 as (_ & -> & _); exact Hd1).
    destruct (IH w2 Hd2) as (w3 & Hr3 & Hl3).
    exists w3. split.
    + assert (Hbody : (cleared <- off_challenge;;
                       if cleared then ret (@Break unit) else sleep 5;; ret Pass) w
                      = (inr Pass, w2)).
      { rewrite (bind_run _ _ _ _ _ Hr1), (bind_run _ _ _ _ _ Hr2). reflexivity. }
      rewrite (bind_run _ _ _ _ _ Hbody). exact Hr3.
    + apply (later_trans _ _ _ [] _ Hl1). apply (later_trans _ _ _ [ESleep 5] _ Hl2 Hl3).
Qed.

Lemma poll_challenge_run (w : World) (h : nat) :
  driver w = Some h ->
  exists w', poll_challenge w = (inr tt, w') /\ later w (repeat (ESleep 5) 6) w'.
Proof.
  intros Hd. unfold poll_challenge.
  destruct (poll_rounds (Py.range max_cf_retries) w h Hd) as (w1 & Hr1 & Hl1).
  rewrite (bind_run _ _ _ _ _ Hr1). now exists w1.
Qed.

(** The challenge handling of an attempt, from the first URL test on. *)
Lemma challenge_handling_run (w : World) (h : nat) :
  driver w = Some h ->
  exists w',
    (challenged <- on_challenge;;
     if challenged then
       sleep 5;;
       poll_challenge;;
       still <- on_challenge;;
       if still then ret (Return None) else ret Pass
     else ret (@Pass (option string))) w
    = (inr (Return None), w') /\ later w challenge_waits w'.
Proof.
  intros Hd.
  destruct (on_challenge_run w h Hd) as (w1 & Hr1 & Hl1).
  assert (Hd1 : driver w1 = Some h) by (destruct Hl1 as (_ & -> & _); exact Hd).
  destruct (sleep_run 5 w1 eq_refl) as (w2 & Hr2 & Hl2).
  assert (Hd2 : driver w2 = Some h) by (destruct Hl2 as (_ & -> & _); exact Hd1).
  destruct (poll_challenge_run w2 h Hd2) as (w3 & Hr3 & Hl3).
  assert (Hd3 : driver w3 = Some h) by (destruct Hl3 as (_ & -> & _); exact Hd2).
  destruct (on_challenge_run w3 h Hd3) as (w4 & Hr4 & Hl4).
  exists w4. split.
  - rewrite (bind_run _ _ _ _ _ Hr1), (bind_run _ _ _ _ _ Hr2),
      (bind_run _ _ _ _ _ Hr3), (bind_run _ _ _ _ _ Hr4). reflexivity.
  - apply (later_trans _ _ _ [] _ Hl1). apply (later_trans _ _ _ [ESleep 5] _ Hl2).
    rewrite <- (app_nil_r (repeat _ _)). apply (later_trans _ _ _ _ [] Hl3 Hl4).
Qed.

Lemma try_run {A} (m : M A) (handler : Exn -> M A) (w w' : World) (a : A) :
  m w = (inr a, w') -> try_except m handler w = (inr a, w').
Proof. intros Hm. unfold try_except. now rewrite Hm. Qed.

Lemma add_delay_run (w : World) :
  Qle_bool 0 (min_delay self + (max_delay self - min_delay self) * random_at (tick w)) = true ->
  exists w',
    _add_delay self w = (inr tt, w') /\
    later w [ESleep (min_delay self + (max_delay self - min_delay self) * random_at (tick w))] w' /\
    tick w' = S (tick w).
Proof.
  intros Hd. unfold _add_delay, uniform, sleep. cbv [bind]. rewrite Hd.
  eexists. split; [reflexivity |]. now destruct w.
Qed.

Lemma navigate_run (w : World) (h : nat) :
  driver w = Some h -> call_raises (tick w) = None ->
  exists w', navigate url w = (inr tt, w') /\ later w [EGet url] w' /\ tick w' = S (tick w).
Proof.
  intros Hd Hc. unfold navigate, the_driver, get_driver, external. cbv [bind].
  rewrite Hd. cbn. rewrite Hc. eexists. split; [reflexivity |]. now destruct w.
Qed.

Lemma wait_until_run (seconds : Q) (w : World) (h : nat) :
  driver w = Some h -> call_raises (tick w) = None ->
  exists w', wait_until seconds w = (inr tt, w') /\ later w [EWait seconds] w'.
Proof.
  intros Hd Hc. unfold wait_until, the_driver, get_driver, external. cbv [bind].
  rewrite Hd. cbn. rewrite Hc. eexists. split; [reflexivity |]. now destruct w.
Qed.

(** An attempt that meets the challenge returns [None] from the fetch. *)
Lemma challenged_attempt_run (attempt : Z) (w : World) (h : nat) :
  driver w = Some h ->
  Qle_bool 0 (min_delay self + (max_delay self - min_delay self) * random_at (tick w)) = true ->
  call_raises (S (tick w)) = None ->
  call_raises (S (S (tick w))) = None ->
  exists w',
    attempt_body self url attempt w = (inr (Return None), w') /\
    later w ([ ESleep (min_delay self + (max_delay self - min_delay self) * random_at (tick w));
               EGet url; EWait 15 ] ++ challenge_waits) w'.
Proof.
  intros Hdr Hd Hget Hwait.
  destruct (add_delay_run w Hd) as (w1 & Hr1 & Hl1 & Ht1).
  assert (Hd1 : driver w1 = Some h) by (destruct Hl1 as (_ & -> & _); exact Hdr).
  rewrite <- Ht1 in Hget, Hwait.
  destruct (navigate_run w1 h Hd1 Hget) as (w2 & Hr2 & Hl2 & Ht2).
  assert (Hd2 : driver w2 = Some h) by (destruct Hl2 as (_ & -> & _); exact Hd1).
  rewrite <- Ht2 in Hwait.
  destruct (wait_until_run 15 w2 h Hd2 Hwait) as (w3 & Hr3 & Hl3).
  assert (Hd3 : driver w3 = Some h) by (destruct Hl3 as (_ & -> & _); exact Hd2).
  destruct (challenge_handling_run w3 h Hd3) as (w4 & Hr4 & Hl4).
  exists w4. split.
  - unfold attempt_body. apply try_run.
    rewrite (bind_run _ _ _ _ _ Hr1), (bind_run _ _ _ _ _ Hr2).
    assert (Hpage : await_page self attempt w2 = (inr (Return None), w4)).
    { unfold await_page, try_except_timeout. apply try_run.
      rewrite (bind_run _ _ _ _ _ Hr3). exact Hr4. }
    rewrite (bind_run _ _ _ _ _ Hpage). reflexivity.
  - apply (later_trans _ _ _ [_] _ Hl1). apply (later_trans _ _ _ [_] _ Hl2).
    apply (later_trans _ _ _ [_] _ Hl3 Hl4).
Qed.

End Challenge.

(** C4, as the code has it: when the URL of an attempt shows a challenge
    that never clears, the engine sleeps 5 seconds, polls six times with a
    5-second sleep after each test (35 seconds in all), and then returns
    [None] from [_make_request] itself: the fetch ends with that attempt,
    whatever attempts remain, and the session is neither torn down nor
    rebuilt. *)
Theorem unresolved_challenge_ends_fetch `{Environment}
    (self : Config) (url u : string) (w : World) (h : nat) :
  driver w = Some h ->
  Qle_bool 0 (min_delay self + (max_delay self - min_delay self) * random_at (tick w)) = true ->
  call_raises (S (tick w)) = None ->
  call_raises (S (S (tick w))) = None ->
  (forall t, current_url_at t = inr u) ->
  Py.contains "challenge" u || Py.contains "captcha" u = true ->
  (forall attempt remaining, exists w',
      for_each (attempt :: remaining) (attempt_body self url) w = (inr (Some None), w') /\
      later w ([ ESleep (min_delay self
                         + (max_delay self - min_delay self) * random_at (tick w));
                 EGet url; EWait 15 ] ++ challenge_waits) w')
  /\ (1 <= max_retries self -> exists w',
        _make_request self url w = (inr None, w') /\
        later w ([ ESleep (min_delay self
                           + (max_delay self - min_delay self) * random_at (tick w));
                   EGet url; EWait 15 ] ++ challenge_waits) w')
  /\ (slept challenge_waits == 35)%Q.
Proof.
  intros Hdr Hd Hget Hwait Hurl Hch.
  assert (Hloop : forall attempt remaining, exists w',
            for_each (attempt :: remaining) (attempt_body self url) w
            = (inr (Some None), w') /\
            later w ([ ESleep (min_delay self
                               + (max_delay self - min_delay self) * random_at (tick w));
                       EGet url; EWait 15 ] ++ challenge_waits) w').
  { intros attempt remaining.
    destruct (challenged_attempt_run self url u Hurl Hch attempt w h Hdr Hd Hget Hwait)
      as (w' & Hr & Hl).
    exists w'. split; [|exact Hl].
    cbn [for_each]. rewrite (bind_run _ _ _ _ _ Hr). reflexivity. }
  split; [exact Hloop |]. split; [|reflexivity].
  intros Hn. unfold _make_request, Py.range.
  destruct (Z.to_nat (max_retries self)) as [|n] eqn:En; [lia |].
  cbn [seq map]. destruct (Hloop (Z.of_nat 0) (map Z.of_nat (seq 1 n))) as (w' & Hr & Hl).
  exists w'. split; [|exact Hl].
  rewrite (bind_run _ _ _ _ _ Hr). reflexivity.
Qed.

Lemma unresolved_challenge_ends_fetch_witness :
  exists w',
    @_make_request challenge_site Api.default_config site_url live_world = (inr None, w') /\
    later live_world ([ESleep (7 # 2); EGet site_url; EWait 15] ++ challenge_waits) w'.
Proof.
  destruct (@unresolved_challenge_ends_fetch challenge_site Api.default_config site_url
              "https://www.truepeoplesearch.com/challenge" live_world 0%nat
              eq_refl eq_refl eq_refl eq_refl (fun _ => eq_refl) eq_refl)
    as (_ & Hfetch & _).
  destruct (Hfetch ltac:(simpl; lia)) as (w' & Hr & Hl).
  exists w'. split; [exact Hr | exact Hl].
Defined.

(** C4 as stated fails: with three attempts allowed, a challenge that does
    not clear ends the fetch in its first attempt; there is one navigation,
    no session restart and no further attempt. *)
Lemma challenge_timeout_ends_all_attempts :
  max_retries Api.default_config = 3
  /\ @_make_request challenge_site Api.default_config site_url live_world
     = (inr None,
        {| tick := 11;
           trace := [ ESleep (7 # 2); EGet site_url; EWait 15; ESleep 5; ESleep 5;
                      ESleep 5; ESleep 5; ESleep 5; ESleep 5; ESleep 5 ];
           driver := Some 0%nat;
           api_instance := true |})
  /\ count_gets
       (trace (snd (@_make_request challenge_site Api.default_config site_url live_world)))
     = 1%nat.
Proof. repeat split; vm_compute; reflexivity. Qed.

(** ** The [/search] endpoint *)

Section Endpoint.
Context `{Environment}.

(** In every namespace in which requests are served, the class has neither
    [search_by_address] nor [search_by_phone]. *)
Lemma getattr_missing (as_main : bool) (ns : Api.Namespace) :
  In ns (Api.serving as_main) ->
  Api.getattr ns "search_by_address" = inl (missing "search_by_address") /\
  Api.getattr ns "search_by_phone" = inl (missing "search_by_phone").
Proof.
  destruct as_main; cbn -[Api.getattr]; intros Hin;
    repeat (destruct Hin as [<- | Hin]); try contradiction;
    split; vm_compute; reflexivity.
Qed.

Lemma call_missing (ns : Api.Namespace) (name : string) (e : Exn)
                   (self : Config) (query : string) (max_results : PyVal) (w : World) :
  Api.getattr ns name = inl e ->
  Api.call_method ns name self query max_results w = (inl e, w).
Proof. intros Hg. unfold Api.call_method. now rewrite Hg. Qed.

Lemma iterate_truthy (v : PyVal) (queries : list string) :
  Api.truthy_val v = true -> Api.iterate v = inr queries -> queries <> [].
Proof.
  destruct v as [|z|s|xs]; simpl; try discriminate.
  - destruct s; [discriminate |]. intros _ [= <-]. discriminate.
  - destruct xs; [discriminate |]. intros _ [= <-]. discriminate.
Qed.

(** A block whose method is missing raises as soon as it has a query. *)
Lemma search_block_raises (ns : Api.Namespace) (d : gmap string PyVal)
                          (key method out : string) (max_results v : PyVal)
                          (e : Exn) (w : World) :
  d !! key = Some v -> Api.truthy_val v = true ->
  Api.getattr ns method = inl e ->
  exists e' w', Api.search_block ns d key method out max_results w = (inl e', w').
Proof.
  intros Hk Hv Hg. unfold Api.search_block. rewrite Hk, Hv.
  destruct (Api.iterate v) as [e0|queries] eqn:Ei; [now eexists _, _ |].
  pose proof (iterate_truthy v queries Hv Ei) as Hne.
  destruct queries as [|query rest]; [congruence |].
  unfold bind at 1. cbn [Api.run_queries]. unfold bind at 1.
  destruct (Api.ensure_api w) as [[e1|self] w1]; [now eexists _, _ |].
  unfold bind at 1. rewrite (call_missing ns method e self query max_results w1 Hg).
  now eexists _, _.
Qed.

Lemma search_fails (m : M Api.Response) (w : World) :
  (exists e w', m w = (inl e, w')) ->
  exists message w',
    try_except m (fun e => ret {| Api.body := Api.ErrorBody (exn_msg e);
                                  Api.status := 500 |}) w
    = (inr {| Api.body := Api.ErrorBody message; Api.status := 500 |}, w').
Proof.
  intros (e & w' & Hm). unfold try_except. rewrite Hm. now eexists _, _.
Qed.

End Endpoint.

(** C1: in every namespace in which [api.py] serves requests, calling
    [search_by_address] or [search_by_phone] on the API object raises
    AttributeError (the class binds only [search_by_name] of the three),
    and a [/search] request that carries an address query or a phone query
    is answered with status 500 and an error body, never with records. *)
Theorem address_and_phone_queries_fail `{Environment}
    (as_main : bool) (ns : Api.Namespace) (d : gmap string PyVal)
    (key : string) (v : PyVal) (w : World) :
  In ns (Api.serving as_main) ->
  key = "street_citystatezip" \/ key = "phone_number" ->
  d !! key = Some v ->
  Api.truthy_val v = true ->
  (forall self query max_results w0,
     Api.call_method ns "search_by_address" self query max_results w0
     = (inl (missing "search_by_address"), w0) /\
     Api.call_method ns "search_by_phone" self query max_results w0
     = (inl (missing "search_by_phone"), w0))
  /\ exists message w',
       Api.search ns (Some d) w
       = (inr {| Api.body := Api.ErrorBody message; Api.status := 500 |}, w').
Proof.
  intros Hns Hkey Hk Hv.
  destruct (getattr_missing as_main ns Hns) as [Ha Hp].
  split.
  { intros self query max_results w0. split; now apply call_missing. }
  unfold Api.search. apply search_fails.
  assert (Hne : d <> ∅) by (intros ->; rewrite lookup_empty in Hk; discriminate).
  rewrite (bool_decide_eq_false_2 _ Hne).
  set (max_results := default (PInt 1) (d !! "max_results")).
  unfold bind at 1.
  destruct (Api.search_block ns d "name" "search_by_name" "name_results" max_results w)
    as [[e|names] w1]; [now eexists _, _ |].
  unfold bind at 1.
  destruct Hkey as [-> | ->].
  - destruct (search_block_raises ns d "street_citystatezip" "search_by_address"
                "address_results" max_results v _ w1 Hk Hv Ha) as (e & w2 & ->).
    now eexists _, _.
  - destruct (Api.search_block ns d "street_citystatezip" "search_by_address"
                "address_results" max_results w1) as [[e|addresses] w2];
      [now eexists _, _ |].
    unfold bind at 1.
    destruct (search_block_raises ns d "phone_number" "search_by_phone"
                "phone_results" max_results v _ w2 Hk Hv Hp) as (e & w3 & ->).
    now eexists _, _.
Qed.

Lemma address_and_phone_queries_fail_witness :
  exists w',
    @Api.search calm_site (hd (Api.mkNamespace ∅ ∅) (@Api.serving calm_site false))
      (Some {[ "street_citystatezip" := PList ["1 Main St; Springfield, IL"] ]}) live_world
    = (inr {| Api.body := Api.ErrorBody (exn_msg (missing "search_by_address"));
              Api.status := 500 |}, w').
Proof.
  destruct (@address_and_phone_queries_fail calm_site false
              (hd (Api.mkNamespace ∅ ∅) (@Api.serving calm_site false))
              {[ "street_citystatezip" := PList ["1 Main St; Springfield, IL"] ]}
              "street_citystatezip" (PList ["1 Main St; Springfield, IL"]) live_world)
    as (_ & message & w' & Hrun).
  - vm_compute. left. reflexivity.
  - left. reflexivity.
  - reflexivity.
  - reflexivity.
  - exists w'. rewrite Hrun. vm_compute in Hrun. injection Hrun as <- _. reflexivity.
Defined.

(** ** What the batch run writes *)

Section Saving.
Context `{Environment}.
Variable Q : list Row -> Prop.

Lemma stable_saves : stable (Forall (saves Q)).
Proof. apply stable_Forall. Qed.

Lemma quiet_saves (l : list Event) : all_quiet l -> Forall (saves Q) l.
Proof.
  intros Hq. eapply List.Forall_impl; [|exact Hq].
  intros e He. destruct e; simpl in *; try exact I; discriminate.
Qed.
#[local] Hint Resolve stable_saves quiet_saves : quiet.

(** An event that is not a save. *)
Ltac unsaved := apply obeys_emit; constructor; [exact I | constructor].

Ltac obeying :=
  pose proof stable_saves as Hstable; pose proof quiet_saves as Hquiet;
  obey_with unsaved.

Lemma saves_navigate (url : string) : obeys (Forall (saves Q)) anything (navigate url).
Proof. unfold navigate. obeying. Qed.
#[local] Hint Resolve saves_navigate : quiet.

Lemma saves_attempt_body (self : Config) (url : string) (attempt : Z) :
  obeys (Forall (saves Q)) anything (attempt_body self url attempt).
Proof. unfold attempt_body, _add_delay. obeying. Qed.
#[local] Hint Resolve saves_attempt_body : quiet.

Lemma saves_make_request (self : Config) (url : string) :
  obeys (Forall (saves Q)) anything (_make_request self url).
Proof. unfold _make_request. obeying. Qed.
#[local] Hint Resolve saves_make_request : quiet.

Lemma saves_scraper_make_request (self : Config) (url : string) params :
  obeys (Forall (saves Q)) anything (Scraper._make_request self url params).
Proof. unfold Scraper._make_request. obeying. Qed.
#[local] Hint Resolve saves_scraper_make_request : quiet.

Lemma saves_constructor : obeys (Forall (saves Q)) anything Scraper.TruePeopleSearchScraper.
Proof. unfold Scraper.TruePeopleSearchScraper. obeying. Qed.
#[local] Hint Resolve saves_constructor : quiet.

Lemma saves_fill_field (expected : option string) :
  obeys (Forall (saves Q)) anything (Scraper.fill_field expected).
Proof. unfold Scraper.fill_field. obeying. Qed.
#[local] Hint Resolve saves_fill_field : quiet.

Lemma saves_click_submit : obeys (Forall (saves Q)) anything Scraper.click_submit.
Proof. unfold Scraper.click_submit. obeying. Qed.
#[local] Hint Resolve saves_click_submit : quiet.

Lemma saves_await_results : obeys (Forall (saves Q)) anything Scraper.await_results.
Proof. unfold Scraper.await_results. obeying. Qed.
#[local] Hint Resolve saves_await_results : quiet.

Lemma saves_submit_form (o : Scraper.Owner) :
  obeys (Forall (saves Q)) anything (Scraper.submit_form o).
Proof. unfold Scraper.submit_form. obeying. Qed.
#[local] Hint Resolve saves_submit_form : quiet.

Lemma saves_search_by_address (self : Config) (o : Scraper.Owner) :
  obeys (Forall (saves Q)) anything (Scraper.search_by_address self o).
Proof. unfold Scraper.search_by_address. obeying. Qed.
#[local] Hint Resolve saves_search_by_address : quiet.

Lemma saves_extract_profile (self : Config) (url : string) :
  obeys (Forall (saves Q)) anything (Scraper.extract_profile_info self url).
Proof.
  unfold Scraper.extract_profile_info. obeying.
Qed.
#[local] Hint Resolve saves_extract_profile : quiet.

Lemma saves_api_extract_profile (self : Config) (url : string) :
  obeys (Forall (saves Q)) anything (Api._extract_profile_info self url).
Proof.
  unfold Api._extract_profile_info. obeying.
Qed.
#[local] Hint Resolve saves_api_extract_profile : quiet.

Lemma saves_save_results (results : list Scraper.ScrapingResult) (path : string) :
  Q (map Scraper.to_row results) ->
  obeys (Forall (saves Q)) anything (Scraper.save_results results path).
Proof.
  intros Hrows. unfold Scraper.save_results.
  apply obeys_seq; [apply stable_saves | | obeying].
  apply obeys_emit. constructor; [exact Hrows | constructor].
Qed.

End Saving.

Section CurrentAddress.
Context `{Environment}.

Lemma parse_profile_address (soup : ProfileSoup) (d : Scraper.Profile.t) :
  Scraper.parse_profile soup = inr d -> Scraper.Profile.current_address d = None.
Proof.
  unfold Scraper.parse_profile.
  destruct (Scraper.scan_phones (phone_sections soup) ([], None)); [discriminate |].
  now intros [= <-].
Qed.

Lemma In_list_remove (p : string) (l : list string) :
  In p l -> exists l', Scraper.list_remove p l = Some l'.
Proof.
  induction l as [|y l IH]; simpl; [tauto |].
  destruct (String.eqb y p) eqn:E; [eauto |].
  intros [->|Hin]; [rewrite String.eqb_refl in E; discriminate |].
  destruct (IH Hin) as [l' ->]. simpl. eauto.
Qed.

Lemma phone_step_bound (st : list string * option string) (section : PhoneSection) :
  bound_in_list st ->
  match Scraper.phone_step st section with
  | inl e => exn_class e = UnboundLocalError /\ has_span section = false
  | inr st' => bound_in_list st'
  end.
Proof.
  destruct st as [numbers phone]. unfold bound_in_list, Scraper.phone_step, has_span.
  simpl. intros Hb.
  destruct (phone_link section) as [[p|]|]; [| |exact Hb].
  - assert (Hin : In p (Py.add_new numbers p)).
    { unfold Py.add_new. destruct (Py.mem p numbers) eqn:E.
      - now apply mem_In.
      - apply in_or_app. simpl. tauto. }
    destruct (phone_info section) as [info|]; [|now intros q [= <-]].
    destruct (Py.contains Scraper.primary_flag info); [|now intros q [= <-]].
    destruct (In_list_remove p _ Hin) as [l' ->]. simpl. intros q [= <-]. now left.
  - destruct (phone_info section) as [info|]; [|exact Hb].
    destruct (Py.contains Scraper.primary_flag info); [|exact Hb].
    destruct phone as [p|]; [|now split].
    destruct (In_list_remove p numbers (Hb p eq_refl)) as [l' ->].
    simpl. intros q [= <-]. now left.
Qed.

(** The phone loop stops only on the unbound local, and only when some
    phone anchor has no telephone span. *)
Lemma scan_phones_outcome (sections : list PhoneSection) :
  forall st, bound_in_list st ->
    match Scraper.scan_phones sections st with
    | inl e => exn_class e = UnboundLocalError /\ forallb has_span sections = false
    | inr _ => True
    end.
Proof.
  induction sections as [|section rest IH]; intros st Hb; simpl; [exact I |].
  pose proof (phone_step_bound st section Hb) as Hstep.
  destruct (Scraper.phone_step st section) as [e|st'].
  - destruct Hstep as [He ->]. now split.
  - specialize (IH st' Hstep). destruct (Scraper.scan_phones rest st'); [|exact I].
    destruct IH as [He ->]. split; [exact He | apply andb_false_r].
Qed.

Lemma parse_profile_outcome (soup : ProfileSoup) :
  match Scraper.parse_profile soup with
  | inl e => exn_class e = UnboundLocalError /\ forallb has_span (phone_sections soup) = false
  | inr d => Scraper.Profile.current_address d = None
  end.
Proof.
  unfold Scraper.parse_profile.
  pose proof (scan_phones_outcome (phone_sections soup) ([], None)) as Hs.
  destruct (Scraper.scan_phones (phone_sections soup) ([], None)).
  - apply Hs. intros p. discriminate.
  - reflexivity.
Qed.

Lemma saves_extract_profile_info (self : Config) (url : string) :
  obeys (Forall (saves (Forall blank_address)))
        (fun info => Scraper.dict_get Scraper.Profile.current_address None info = None)
        (Scraper.extract_profile_info self url).
Proof.
  unfold Scraper.extract_profile_info.
  apply obeys_bind with (R1 := anything);
    [apply stable_saves | apply saves_scraper_make_request |].
  intros html _. destruct (negb (Py.truthy html)).
  - apply obeys_ret; [constructor | reflexivity].
  - destruct (Scraper.parse_profile (soup_profile (default "" html))) as [e|d] eqn:Ep.
    + apply obeys_raise. constructor.
    + apply obeys_ret; [constructor |]. simpl. now apply (parse_profile_address _ _ Ep).
Qed.

Lemma rows_blank (results : list Scraper.ScrapingResult) :
  Forall no_address results -> Forall blank_address (map Scraper.to_row results).
Proof.
  intros Hr. apply Forall_map. eapply List.Forall_impl; [|exact Hr]. now intros r.
Qed.

Lemma no_address_snoc (results : list Scraper.ScrapingResult) (r : Scraper.ScrapingResult) :
  Forall no_address results -> no_address r -> Forall no_address (results ++ [r]).
Proof. intros Hr Hn. apply Forall_app. split; [exact Hr | now constructor]. Qed.

(** One owner: the saves it makes and the result it appends carry no
    current address. *)
Lemma saves_process_owner (self : Config) (output_file : string)
                          (results : list Scraper.ScrapingResult) (o : Scraper.Owner) :
  Forall no_address results ->
  obeys (Forall (saves (Forall blank_address))) (Forall no_address)
        (Scraper.process_owner self output_file results o).
Proof.
  intros Hres. unfold Scraper.process_owner.
  apply obeys_bind with
    (R1 := fun found => forall a, found = inr a ->
             forall info, a = Some info ->
               Scraper.dict_get Scraper.Profile.current_address None info = None).
  - apply stable_saves.
  - apply obeys_attempt_result.
    apply obeys_bind with (R1 := anything);
      [apply stable_saves | apply saves_search_by_address |].
    intros profile_url _. destruct (negb (Py.truthy profile_url)).
    + apply obeys_ret; [constructor | discriminate].
    + eapply obeys_bind; [apply stable_saves | apply saves_extract_profile_info |].
      intros info Hinfo. apply obeys_ret; [constructor |]. now intros ? [= <-].
  - intros [e|[info|]] Hfound.
    + apply obeys_ret; [constructor |]. now apply no_address_snoc.
    + apply obeys_bind with (R1 := anything); [apply stable_saves | |].
      * apply quiet_attempt_result. destruct results as [|r0 rs].
        -- apply obeys_ret; [constructor | exact I].
        -- apply saves_save_results. now apply rows_blank.
      * intros saved _.
        assert (Hnew : Scraper.dict_get Scraper.Profile.current_address None info = None)
          by now apply (Hfound (Some info)).
        destruct saved; (apply obeys_ret; [constructor |]);
          apply no_address_snoc; try assumption; exact Hnew.
    + apply obeys_ret; [constructor |]. now apply no_address_snoc.
Qed.

Lemma saves_process_batch (self : Config) (output_file : string) (batch : list Scraper.Owner) :
  forall results,
    Forall no_address results ->
    obeys (Forall (saves (Forall blank_address))) (Forall no_address)
          (Scraper.process_batch self output_file results batch).
Proof.
  induction batch as [|o rest IH]; intros results Hres; simpl.
  - apply obeys_ret; [constructor | exact Hres].
  - eapply obeys_bind; [apply stable_saves | now apply saves_process_owner |].
    intros results' Hres'. now apply IH.
Qed.

Lemma saves_process_batches (self : Config) (output_file : string)
                            (owners : list Scraper.Owner) (batch_size : nat)
                            (starts : list nat) :
  forall results,
    Forall no_address results ->
    obeys (Forall (saves (Forall blank_address))) (fun out => Forall no_address (fst out))
          (Scraper.process_batches self output_file owners batch_size starts results).
Proof.
  induction starts as [|batch_start rest IH]; intros results Hres; simpl.
  - apply obeys_ret; [constructor | exact Hres].
  - eapply obeys_bind; [apply stable_saves | now apply saves_process_batch |].
    intros results' Hres'.
    apply obeys_bind with (R1 := anything); [apply stable_saves | |].
    + apply quiet_attempt_result. destruct (_ <? _)%nat.
      * pose proof (stable_saves (Forall blank_address)) as Hstable.
        pose proof (quiet_saves (Forall blank_address)) as Hquiet. obey.
      * apply obeys_ret; [constructor | exact I].
    + intros [e|?] _; [apply obeys_ret; [constructor | exact Hres'] | now apply IH].
Qed.

Lemma saves_run_batches (self : Config) (output_file : string)
                        (owners : list Scraper.Owner) (batch_size : Z) :
  obeys (Forall (saves (Forall blank_address))) (fun out => Forall no_address (fst out))
        (Scraper.run_batches self output_file owners batch_size).
Proof.
  unfold Scraper.run_batches.
  destruct (batch_size =? 0); [apply obeys_ret; constructor |].
  destruct (batch_size <? 0); [apply obeys_ret; constructor |].
  apply saves_process_batches. constructor.
Qed.

Lemma saves_main (input : Exn + list Scraper.Owner) (output_file : string)
                 (batch_size : Z) :
  obeys (Forall (saves (Forall blank_address))) anything (Scraper.main input output_file batch_size).
Proof.
  unfold Scraper.main. destruct input as [e|owners].
  - apply obeys_ret; [constructor | exact I].
  - apply obeys_bind with (R1 := anything);
      [apply stable_saves | apply saves_constructor |].
    intros scraper _.
    eapply obeys_bind; [apply stable_saves | apply saves_run_batches |].
    intros [results pending] Hres. simpl in Hres. cbn [fst snd].
    apply obeys_bind with (R1 := anything); [apply stable_saves | |].
    + destruct results as [|r0 rs].
      * apply obeys_ret; [constructor | exact I].
      * apply saves_save_results. now apply rows_blank.
    + intros _ _.
      pose proof (stable_saves (Forall blank_address)) as Hstable.
      pose proof (quiet_saves (Forall blank_address)) as Hquiet.
      apply obeys_seq; [assumption | now apply quiet_del |].
      intros _. destruct pending; [apply obeys_raise | apply obeys_ret]; try constructor.
Qed.

End CurrentAddress.

(** C10: whatever the profile markup, the result that the batch-path
    extraction returns has [current_address] [None], the key being set once
    and never assigned again; the extraction returns whenever every phone
    anchor of the markup carries a telephone span (it stops on the unbound
    local [phone] otherwise, and only then); and in every batch run each
    result and each row handed to the writer, successful ones included, has
    an empty current address. *)
Theorem current_address_is_never_set `{Environment}
    (soup : ProfileSoup) (self : Config) (input : Exn + list Scraper.Owner)
    (owners : list Scraper.Owner) (output_file : string) (batch_size : Z) (w : World) :
  match Scraper.parse_profile soup with
  | inl e => exn_class e = UnboundLocalError /\ forallb has_span (phone_sections soup) = false
  | inr d => Scraper.Profile.current_address d = None
  end
  /\ Forall no_address
       match fst (Scraper.run_batches self output_file owners batch_size w) with
       | inr out => fst out
       | inl _ => []
       end
  /\ exists delta,
       trace (snd (Scraper.main input output_file batch_size w)) = trace w ++ delta /\
       Forall (saves (Forall blank_address)) delta.
Proof.
  split; [apply parse_profile_outcome |]. split.
  - destruct (Scraper.run_batches self output_file owners batch_size w) as [r w'] eqn:Er.
    destruct (saves_run_batches self output_file owners batch_size _ _ _ Er) as [_ Hr].
    destruct r as [e|out]; [constructor | now apply Hr].
  - destruct (Scraper.main input output_file batch_size w) as [r w'] eqn:Er.
    destruct (saves_main input output_file batch_size _ _ _ Er) as [Hd _]. exact Hd.
Qed.

(** ** The checkpoint of the batch run *)

Section Checkpoint.
Context `{Environment}.

(** While an owner is processed, whatever is saved is the list of results
    as it stood before that owner; the result of the owner is appended
    after the save. *)
Lemma process_owner_saves_earlier_results
    (self : Config) (output_file : string)
    (results : list Scraper.ScrapingResult) (o : Scraper.Owner) :
  obeys (Forall (saves (fun rows => rows = map Scraper.to_row results)))
        (fun results' => exists r, results' = results ++ [r])
        (Scraper.process_owner self output_file results o).
Proof.
  unfold Scraper.process_owner.
  apply obeys_bind with (R1 := anything); [apply stable_saves | |].
  - apply quiet_attempt_result.
    apply obeys_seq; [apply stable_saves | apply saves_search_by_address |].
    intros profile_url. destruct (negb (Py.truthy profile_url)).
    + apply obeys_ret; [constructor | exact I].
    + apply obeys_seq; [apply stable_saves | apply saves_extract_profile |].
      intros info. apply obeys_ret; [constructor | exact I].
  - intros [e|[info|]] _; try (apply obeys_ret; [constructor | eauto]).
    apply obeys_bind with (R1 := anything); [apply stable_saves | |].
    + apply quiet_attempt_result. destruct results as [|r0 rs].
      * apply obeys_ret; [constructor | exact I].
      * now apply saves_save_results.
    + intros saved _. destruct saved; (apply obeys_ret; [constructor | eauto]).
Qed.

Lemma succeeds_attempt_result {A} (m : M A) : succeeds anything (attempt_result m).
Proof.
  intros w. unfold attempt_result. destruct (m w) as [r w']. now exists r, w'.
Qed.

(** Processing an owner never raises: both [try] blocks catch. *)
Lemma process_owner_returns
    (self : Config) (output_file : string)
    (results : list Scraper.ScrapingResult) (o : Scraper.Owner) :
  succeeds anything (Scraper.process_owner self output_file results o).
Proof.
  unfold Scraper.process_owner.
  apply succeeds_bind with (R1 := anything); [apply succeeds_attempt_result |].
  intros [e|[info|]] _; try (now apply succeeds_ret).
  apply succeeds_bind with (R1 := anything); [apply succeeds_attempt_result |].
  intros saved _. destruct saved; now apply succeeds_ret.
Qed.

End Checkpoint.

(** C5 at its failing inputs: with one owner, found and extracted, nothing
    is written to the partial file at all; with two owners, both found and
    extracted, the partial file written after the second success holds the
    first record only.  The second record reaches a file with the final
    save. *)
Lemma checkpoint_lacks_the_completed_record :
  saved (trace (snd (@Scraper.main calm_site (inr [an_owner]) "out.xlsx" 5 world0)))
  = [("out.xlsx", ["Jane"])]
  /\ saved (trace (snd (@Scraper.main calm_site (inr [an_owner; another_owner])
                          "out.xlsx" 5 world0)))
     = [("out.xlsx.partial", ["Jane"]); ("out.xlsx", ["Jane"; "John"])].
Proof. split; vm_compute; reflexivity. Qed.

(** For every environment, the saves made while an owner is processed write
    the results of the owners before it, never the result of the owner
    itself. *)
Theorem checkpoint_excludes_current_owner `{Environment}
    (self : Config) (output_file : string)
    (results : list Scraper.ScrapingResult) (o : Scraper.Owner) (w : World) :
  exists delta,
    trace (snd (Scraper.process_owner self output_file results o w)) = trace w ++ delta /\
    Forall (saves (fun rows => rows = map Scraper.to_row results)) delta /\
    match fst (Scraper.process_owner self output_file results o w) with
    | inr results' => exists r, results' = results ++ [r]
    | inl _ => False
    end.
Proof.
  destruct (Scraper.process_owner self output_file results o w) as [r w'] eqn:Er.
  destruct (process_owner_saves_earlier_results self output_file results o _ _ _ Er)
    as ((delta & Ht & Hd) & Hr).
  exists delta. repeat split; try assumption.
  cbn [fst]. destruct r as [e|results']; [|now apply Hr].
  destruct (process_owner_returns self output_file results o w) as (a & w1 & Hrun & _).
  congruence.
Qed.

(** ** Failure markers *)

(** C2 at its failing input: two owners are found and extracted, and the
    write of the partial file fails while the second is processed; the
    second record then carries the error and the extracted phone and email
    lists together. *)
Lemma failed_save_marks_an_extracted_record :
  match fst (@Scraper.run_batches partial_write_fails Scraper.default_config "out.xlsx"
               [an_owner; another_owner] 5 live_world) with
  | inr ([first; second], None) =>
      Scraper.error first = None /\
      Scraper.error second = Some "disk full" /\
      Scraper.phone_numbers second = ["555-0100"] /\
      Scraper.emails second = ["a@x.com"]
  | _ => False
  end.
Proof. vm_compute. repeat split. Qed.

Section Markers.
Context `{Environment}.

Lemma failure_is_marker (option_name given message : string) :
  marker_or_record (Api.failure option_name given message).
Proof. right. repeat split. Qed.

Lemma api_collect_markers (self : Config) (option_name given : string) (cards : list Card) :
  forall results,
    Forall marker_or_record results ->
    obeys (Forall (saves (fun _ => True))) (Forall marker_or_record)
          (Api.collect self option_name given cards results).
Proof.
  induction cards as [|card rest IH]; intros results Hres; cbn [Api.collect].
  - apply obeys_ret; [constructor | exact Hres].
  - destruct (detail_href card) as [href|]; [|now apply IH].
    apply obeys_bind with (R1 := anything);
      [apply stable_saves | apply saves_api_extract_profile |].
    intros [info|] _; [|now apply IH].
    apply IH. apply Forall_app. split; [exact Hres |].
    constructor; [now left | constructor].
Qed.

Lemma api_search_url_markers (self : Config) (option_name given url : string)
                             (max_results : PyVal) :
  obeys (Forall (saves (fun _ => True))) (Forall marker_or_record)
        (Api.search_url self option_name given url max_results).
Proof.
  unfold Api.search_url.
  apply obeys_bind with (R1 := anything);
    [apply stable_saves | apply saves_make_request |].
  intros html _.
  assert (Hone : forall message,
            obeys (Forall (saves (fun _ => True))) (Forall marker_or_record)
                  (ret [Api.failure option_name given message])).
  { intros message. apply obeys_ret; [constructor |].
    constructor; [apply failure_is_marker | constructor]. }
  destruct (negb (Py.truthy html)); [apply Hone |].
  destruct (soup_cards (default "" html)) as [|card cards]; [apply Hone |].
  destruct (Api.slice_cards max_results (card :: cards)) as [e|sliced].
  - apply obeys_raise. constructor.
  - eapply obeys_bind; [apply stable_saves | apply api_collect_markers; constructor |].
    intros results Hres. destruct results; [apply Hone |].
    apply obeys_ret; [constructor | exact Hres].
Qed.

End Markers.

(** In the request-response path, for every environment, a record that
    [search_by_name] returns with its error set has no optional identity,
    address or contact field. *)
Theorem search_by_name_markers_are_bare `{Environment}
    (self : Config) (name : string) (city_state : option string)
    (max_results : PyVal) (w : World) :
  Forall marker_or_record
    match fst (Api.search_by_name self name city_state max_results w) with
    | inr results => results
    | inl _ => []
    end.
Proof.
  unfold Api.search_by_name. destruct (Api.parse_name name city_state) as [name' cs'].
  destruct (Api.search_url self "Name Search" (Api.given_name name' cs')
              (Api.name_url name' cs') max_results w) as [r w'] eqn:Er.
  destruct (api_search_url_markers _ _ _ _ _ _ _ _ Er) as [_ Hr].
  cbn [fst]. destruct r; [constructor | now apply Hr].
Qed.

(** * Further properties of the code *)

(** ** Text *)

Section Strip.

Lemma drop_while_head (p : ascii -> bool) (l : list ascii) :
  match Py.drop_while p l with
  | [] => True
  | c :: _ => p c = false
  end.
Proof.
  induction l as [|c l IH]; simpl; [exact I |].
  destruct (p c) eqn:E; [exact IH | exact E].
Qed.

Lemma drop_while_fixed (p : ascii -> bool) (l : list ascii) :
  match l with
  | [] => True
  | c :: _ => p c = false
  end ->
  Py.drop_while p l = l.
Proof. destruct l as [|c l]; simpl; [reflexivity |]. now intros ->. Qed.

Lemma drop_while_idem (p : ascii -> bool) (l : list ascii) :
  Py.drop_while p (Py.drop_while p l) = Py.drop_while p l.
Proof. apply drop_while_fixed, drop_while_head. Qed.

Lemma rstrip_idem (l : list ascii) : Py.rstrip (Py.rstrip l) = Py.rstrip l.
Proof. unfold Py.rstrip. now rewrite rev_involutive, drop_while_idem. Qed.

Lemma rstrip_prefix (l : list ascii) : exists tail, l = Py.rstrip l ++ tail.
Proof.
  unfold Py.rstrip. exists (rev (Py.take_while Py.is_space (rev l))).
  rewrite <- rev_app_distr, <- take_drop_while. now rewrite rev_involutive.
Qed.

Lemma rstrip_head (l : list ascii) :
  match l with
  | [] => True
  | c :: _ => Py.is_space c = false
  end ->
  match Py.rstrip l with
  | [] => True
  | c :: _ => Py.is_space c = false
  end.
Proof.
  intros Hl. destruct (rstrip_prefix l) as [tail Ht].
  destruct (Py.rstrip l) as [|c r]; [exact I |].
  rewrite Ht in Hl. exact Hl.
Qed.

Lemma strip_chars (s : string) :
  Py.chars (Py.strip s) = Py.rstrip (Py.lstrip (Py.chars s)).
Proof. unfold Py.strip. apply chars_text. Qed.

Lemma strip_idem (s : string) : stripped (Py.strip s).
Proof.
  unfold stripped. unfold Py.strip at 1. rewrite strip_chars.
  unfold Py.strip. f_equal.
  set (l := Py.lstrip (Py.chars s)).
  assert (Hl : match l with [] => True | c :: _ => Py.is_space c = false end)
    by apply drop_while_head.
  unfold Py.lstrip at 1. rewrite drop_while_fixed by now apply rstrip_head.
  apply rstrip_idem.
Qed.

(** A leading blank does not survive [strip]. *)
Lemma strip_leading_space (s : string) : Py.strip (" " +:+ s) = Py.strip s.
Proof. reflexivity. Qed.

Lemma split1_chars_at (sep : ascii) (a b : list ascii) :
  ~ In sep a -> Py.split1_chars sep (a ++ sep :: b) = (a, Some b).
Proof.
  induction a as [|c a IH]; simpl; intros Hn.
  - now rewrite Ascii.eqb_refl.
  - destruct (Ascii.eqb c sep) eqn:E.
    + apply Ascii.eqb_eq in E. tauto.
    + rewrite IH by tauto. reflexivity.
Qed.

Lemma chars_app (a b : string) : Py.chars (a +:+ b) = Py.chars a ++ Py.chars b.
Proof. induction a as [|c a IH]; simpl; [reflexivity | now rewrite IH]. Qed.

Lemma contains_char_app (c : ascii) (a b : string) :
  Py.contains (String c "") (a +:+ b)
  = Py.contains (String c "") a || Py.contains (String c "") b.
Proof. rewrite !contains_char, chars_app. apply existsb_app. Qed.

End Strip.

(** ** The query a name search echoes *)

Section ParsedQuery.

(** The [input_given] that [search_by_name] echoes parses back to the name
    and locality it was built from. *)
Theorem echoed_input_parses_back (name city : string) :
  Py.contains ";" name = false -> stripped name -> stripped city -> city <> "" ->
  Api.parse_name (Api.given_name name (Some city)) None = (name, Some city).
Proof.
  intros Hsemi Hname Hcity Hne.
  unfold Api.given_name. cbn [Py.truthy Py.fmt].
  assert (Hcs : String.eqb city "" = false) by now apply String.eqb_neq.
  rewrite Hcs. cbn [negb].
  unfold Api.parse_name. cbn [Py.truthy negb]. rewrite andb_true_r.
  rewrite contains_char_app, Hsemi. cbn [orb].
  change (Py.contains ";" ("; " +:+ city)) with true. cbv iota.
  unfold Py.split1. rewrite chars_app.
  change (Py.chars ("; " +:+ city)) with (";"%char :: " "%char :: Py.chars city).
  rewrite split1_chars_at.
  2:{ apply existsb_eqb_false. now rewrite <- contains_char. }
  cbn [nth length Nat.ltb Nat.leb]. rewrite text_chars.
  f_equal; [exact Hname |]. f_equal.
  change (Py.text (" "%char :: Py.chars city)) with (" " +:+ Py.text (Py.chars city)).
  rewrite text_chars, strip_leading_space. exact Hcity.
Qed.

Lemma echoed_input_parses_back_witness :
  Api.parse_name (Api.given_name "Jane Doe" (Some "Springfield, IL")) None
  = ("Jane Doe", Some "Springfield, IL").
Proof.
  apply echoed_input_parses_back; [reflexivity | reflexivity | reflexivity | discriminate].
Defined.

End ParsedQuery.

(** ** The flattened record *)

Section Flattening.

Ltac shapes r :=
  destruct r as [? ? ? ? ? ? ? ? ? ? ? es ps ? ?];
  destruct es as [|? [|? [|? [|? [|? [|? ?]]]]]];
  destruct ps as [|? [|? [|? [|? [|? [|? ?]]]]]].

(** A flattened record always has the same 37 columns, each once, however
    many emails and phones the record holds; none of them carries the
    error, so failure markers that differ in their message flatten alike. *)
Theorem to_dict_has_fixed_columns
    (r : Api.SearchResult) (option_name given message : string) :
  map fst (Api.to_dict r) = columns /\ List.NoDup columns /\
  Api.to_dict (Api.failure option_name given message)
  = Api.to_dict (Api.failure option_name given "").
Proof.
  split; [|split].
  - shapes r; reflexivity.
  - apply NoDup_ListNoDup. apply (bool_decide_unpack _). vm_compute. exact I.
  - reflexivity.
Qed.

(** In a flattened record the emails and the phones are cut to five and
    padded to five with empty strings: after the twelve scalar columns come
    five email cells, then four cells for each of five phones. *)
Theorem to_dict_pads_and_truncates (r : Api.SearchResult) :
  map snd (drop 12 (Api.to_dict r))
  = map Some (five "" (Api.emails r)
              ++ flat_map phone_cells (five Api.empty_phone (Api.phones r))).
Proof. shapes r; reflexivity. Qed.

End Flattening.

(** ** The header of a profile *)

Section Header.


Lemma append_nil_r (s : string) : s +:+ "" = s.
Proof.
  induction s as [|c s IH]; [reflexivity |].
  change (String c s +:+ "") with (String c (s +:+ "")). now rewrite IH.
Qed.

(** [split(sep, 1)] at the level of strings: one part without the
    separator, or the text cut at its first separator. *)
Lemma split1_spec (sep : ascii) (s : string) :
  exists before : string,
    Py.contains (String sep "") before = false /\
    nth 0 (Py.split1 sep s) "" = before /\
    ((s = before /\ Py.split1 sep s = [before]) \/
     exists after, s = before +:+ String sep after /\ Py.split1 sep s = [before; after]).
Proof.
  unfold Py.split1. pose proof (split1_chars_spec sep (Py.chars s)) as Hs.
  destruct (Py.split1_chars sep (Py.chars s)) as [a [b|]]; destruct Hs as [Hl Hn];
    exists (Py.text a); (split; [rewrite contains_char, chars_text;
                                 now apply existsb_eqb_false |]);
    (split; [reflexivity |]).
  - right. exists (Py.text b). split; [|reflexivity].
    rewrite <- (text_chars s), Hl, text_app. reflexivity.
  - left. split; [|reflexivity]. now rewrite <- (text_chars s), Hl.
Qed.

Lemma header_fields (soup : ProfileSoup) :
  (Api.Profile.first_name (Api.parse_profile soup),
   Api.Profile.last_name (Api.parse_profile soup),
   Api.Profile.age (Api.parse_profile soup))
  = match name_header soup with
    | Some name_text => Api.parse_header name_text
    | None => (None, None, None)
    end.
Proof.
  unfold Api.parse_profile.
  destruct (match name_header soup with
            | Some name_text => Api.parse_header name_text
            | None => (None, None, None)
            end) as [[? ?] ?].
  reflexivity.
Qed.

Lemma first_digits_spec (s a : string) :
  Re.first_digits s = Some a ->
  a <> "" /\ forallb Py.is_digit (Py.chars a) = true.
Proof.
  unfold Re.first_digits.
  set (run := Py.take_while Py.is_digit _).
  assert (Hall : forallb Py.is_digit run = true) by apply take_while_all.
  destruct run as [|c run]; [discriminate |].
  intros [= <-]. split; [discriminate |].
  change (String c (Py.text run)) with (Py.text (c :: run)). now rewrite chars_text.
Qed.

(** The name of the header: the first name has no blank in it, and first
    and last name, joined by a blank, are the header text before its first
    comma, stripped. *)
Theorem header_names_rejoin (soup : ProfileSoup) :
  match name_header soup with
  | None =>
      Api.Profile.first_name (Api.parse_profile soup) = None /\
      Api.Profile.last_name (Api.parse_profile soup) = None
  | Some name_text =>
      exists before first : string,
        Py.contains "," before = false /\
        (name_text = before \/ exists after, name_text = before +:+ "," +:+ after) /\
        Api.Profile.first_name (Api.parse_profile soup) = Some first /\
        Py.contains " " first = false /\
        first +:+ match Api.Profile.last_name (Api.parse_profile soup) with
                  | Some last => " " +:+ last
                  | None => ""
                  end = Py.strip before
  end.
Proof.
  pose proof (header_fields soup) as Hf.
  destruct (name_header soup) as [name_text|]; [|injection Hf as Hfirst Hlast _; now split].
  unfold Api.parse_header in Hf. injection Hf as Hfirst Hlast _.
  destruct (split1_spec "," name_text) as (before & Hcomma & Hnth & Hcut).
  rewrite Hnth in Hfirst, Hlast.
  destruct (split1_spec " " (Py.strip before)) as (first & Hblank & Hnth' & Hcut').
  rewrite Hnth' in Hfirst.
  exists before, first. split; [exact Hcomma |]. split.
  { destruct Hcut as [[? _]|(after & ? & _)]; [now left | right; now exists after]. }
  split; [exact Hfirst |]. split; [exact Hblank |].
  rewrite Hlast.
  destruct Hcut' as [[Hs ->]|(last & Hs & ->)]; cbn [length Nat.ltb Nat.leb nth].
  - rewrite <- Hs. apply append_nil_r.
  - now rewrite Hs.
Qed.

(** The age of the header, when one is read, is a non-empty run of digits,
    and it is read only from a header with a comma. *)
Theorem header_age_is_a_number (soup : ProfileSoup) :
  match Api.Profile.age (Api.parse_profile soup) with
  | None => True
  | Some years =>
      years <> "" /\ forallb Py.is_digit (Py.chars years) = true /\
      exists name_text, name_header soup = Some name_text /\
                        Py.contains "," name_text = true
  end.
Proof.
  pose proof (header_fields soup) as Hf.
  destruct (name_header soup) as [name_text|]; [|injection Hf as _ _ Hage; now rewrite Hage].
  unfold Api.parse_header in Hf. injection Hf as _ _ ->.
  destruct (split1_spec "," name_text) as (before & Hcomma & _ & Hcut).
  destruct Hcut as [[_ ->]|(after & Hs & ->)]; cbn [length Nat.ltb Nat.leb nth]; [exact I |].
  destruct (Re.first_digits (Py.strip after)) as [years|] eqn:Ed; [|exact I].
  destruct (first_digits_spec _ _ Ed) as [Hne Hall].
  split; [exact Hne |]. split; [exact Hall |].
  exists name_text. split; [reflexivity |].
  rewrite Hs, contains_char, chars_app, existsb_app. simpl. apply orb_true_r.
Qed.

End Header.

(** ** Sequencing parts that obey different properties *)

Section Composition.
Context `{Environment}.

(** Sequencing when the two parts obey different properties. *)
Lemma obeys_bind_app {A B} (E1 E2 E : list Event -> Prop) (R1 : A -> Prop) (R2 : B -> Prop)
                     (m : M A) (k : A -> M B) :
  obeys E1 R1 m -> (forall a, R1 a -> obeys E2 R2 (k a)) ->
  (forall d1, E1 d1 -> E d1) ->
  (forall d1 d2, E1 d1 -> E2 d2 -> E (d1 ++ d2)) ->
  obeys E R2 (bind m k).
Proof.
  intros Hm Hk Hraise Happ w r w' Hrun. unfold bind in Hrun.
  destruct (m w) as [[e|a] w1] eqn:Em.
  - injection Hrun as <- <-. destruct (Hm _ _ _ Em) as ((d1 & Ht1 & Hd1) & _).
    split; [|discriminate]. exists d1. auto.
  - destruct (Hm _ _ _ Em) as ((d1 & Ht1 & Hd1) & Hr1).
    destruct (Hk a (Hr1 a eq_refl) _ _ _ Hrun) as ((d2 & Ht2 & Hd2) & Hr2).
    split; [|exact Hr2].
    exists (d1 ++ d2). split; [|now apply Happ].
    now rewrite Ht2, Ht1, app_assoc.
Qed.

Lemma obeys_try_app {A} (E1 E2 E : list Event -> Prop) (R : A -> Prop)
                    (m : M A) (h : Exn -> M A) :
  obeys E1 R m -> (forall e, obeys E2 R (h e)) ->
  (forall d1, E1 d1 -> E d1) ->
  (forall d1 d2, E1 d1 -> E2 d2 -> E (d1 ++ d2)) ->
  obeys E R (try_except m h).
Proof.
  intros Hm Hh Hret Happ w r w' Hrun. unfold try_except in Hrun.
  destruct (m w) as [[e|a] w1] eqn:Em.
  - destruct (Hm _ _ _ Em) as ((d1 & Ht1 & Hd1) & _).
    destruct (Hh e _ _ _ Hrun) as ((d2 & Ht2 & Hd2) & Hr2).
    split; [|exact Hr2].
    exists (d1 ++ d2). split; [|now apply Happ].
    now rewrite Ht2, Ht1, app_assoc.
  - injection Hrun as <- <-. destruct (Hm _ _ _ Em) as ((d1 & Ht1 & Hd1) & Hr1).
    split; [|exact Hr1]. exists d1. auto.
Qed.

(** What a computation obeys, read at one run. *)
Lemma obeys_run {A} (E : list Event -> Prop) (R : A -> Prop) (m : M A) (w : World) :
  obeys E R m ->
  (exists delta, trace (snd (m w)) = trace w ++ delta /\ E delta) /\
  match fst (m w) with
  | inr a => R a
  | inl _ => True
  end.
Proof.
  intros Hm. destruct (m w) as [r w'] eqn:Em.
  destruct (Hm _ _ _ Em) as [Hd Hr]. split; [exact Hd |].
  cbn [fst]. destruct r; [exact I | now apply Hr].
Qed.

Lemma stable_all_quiet : stable all_quiet.
Proof. apply stable_Forall. Qed.

End Composition.

(** ** The session manager *)

Section Setup.
Context `{Environment}.

(** The retry loop ends with a driver or an exception when its last attempt
    is the attempt that re-raises. *)
Lemma setup_loop_some (attempts : list Z) :
  last attempts = Some (setup_retries - 1) ->
  forall local, obeys all_quiet (fun d => d <> None) (setup_loop attempts local).
Proof.
  pose proof stable_all_quiet as Hstable.
  assert (Hquiet : forall l, all_quiet l -> all_quiet l) by auto.
  induction attempts as [|attempt rest IH]; [discriminate |].
  intros Hlast local. cbn [setup_loop]. cbv zeta.
  assert (Hfailed : forall e local',
            obeys all_quiet (fun d : option nat => d <> None)
              (if attempt =? setup_retries - 1 then raise e
               else
                 swallow (match local' with
                          | Some h => quit h
                          | None => ret tt
                          end);;
                 sleep (inject_Z ((attempt + 1) * 2));;
                 setup_loop rest local')).
  { intros e local'. destruct (attempt =? setup_retries - 1) eqn:E.
    - apply obeys_raise. constructor.
    - apply obeys_seq; [assumption | obey |]. intros _.
      apply obeys_seq; [assumption | obey |]. intros _.
      apply IH. destruct rest; [|exact Hlast].
      apply Z.eqb_neq in E. simpl in Hlast. congruence. }
  apply obeys_seq; [assumption | obey |]. intros [e|h]; [apply (Hfailed e local) |].
  apply obeys_seq; [assumption | obey |]. intros [e|?]; [apply (Hfailed e (Some h)) |].
  apply obeys_ret; [constructor | discriminate].
Qed.

Lemma setup_driver_some : obeys all_quiet (fun d => d <> None) _setup_driver.
Proof.
  pose proof stable_all_quiet as Hstable.
  assert (Hquiet : forall l, all_quiet l -> all_quiet l) by auto.
  unfold _setup_driver. apply obeys_try; [assumption | | intros e; apply obeys_raise; constructor].
  apply obeys_seq; [assumption | obey |]. intros _.
  apply setup_loop_some. reflexivity.
Qed.

End Setup.

(** [_setup_driver] returns a driver or raises: the end of its loop, which
    would return [None], is never reached; and a constructor that returns
    leaves [self.driver] set. *)
Theorem setup_driver_returns_a_driver `{Environment} (w : World) :
  match fst (_setup_driver w) with
  | inr d => exists h, d = Some h
  | inl _ => True
  end /\
  match Scraper.TruePeopleSearchScraper w with
  | (inr _, w') => exists h, driver w' = Some h
  | (inl _, _) => True
  end.
Proof.
  assert (Hsome : forall w0, match fst (_setup_driver w0) with
                             | inr d => exists h, d = Some h
                             | inl _ => True
                             end).
  { intros w0. destruct (obeys_run _ _ _ w0 setup_driver_some) as [_ Hr].
    destruct (fst (_setup_driver w0)) as [e|[h|]]; [exact I | now exists h | congruence]. }
  split; [apply Hsome |].
  unfold Scraper.TruePeopleSearchScraper, bind.
  destruct (external w) as [[e|[]] w1]; [exact I |].
  specialize (Hsome w1). destruct (_setup_driver w1) as [[e|d] w2]; [exact I |].
  cbn [fst] in Hsome. destruct Hsome as [h ->]. cbn. now exists h.
Qed.

(** ** Quoting the fields of a URL *)

Section UrlQuoting.

Lemma every_ascii_In (c : ascii) : In c every_ascii.
Proof.
  rewrite <- (ascii_nat_embedding c). apply in_map, in_seq.
  pose proof (nat_ascii_bounded c). lia.
Qed.

(** A test that holds of the 256 bytes holds of every character. *)
Lemma forall_ascii (P : ascii -> bool) :
  forallb P every_ascii = true -> forall c, P c = true.
Proof. intros HP c. rewrite forallb_forall in HP. apply HP, every_ascii_In. Qed.

Lemma quote_plus_char_safe (c : ascii) : forallb url_safe (Py.quote_plus_char c) = true.
Proof. revert c. apply forall_ascii. vm_compute. reflexivity. Qed.

Lemma quote_plus_chars (s : string) :
  Py.chars (Py.quote_plus s) = flat_map Py.quote_plus_char (Py.chars s).
Proof. unfold Py.quote_plus. apply chars_text. Qed.

Lemma quote_plus_safe (s : string) :
  forallb url_safe (Py.chars (Py.quote_plus s)) = true.
Proof.
  rewrite quote_plus_chars. induction (Py.chars s) as [|c l IH]; [reflexivity |].
  cbn [flat_map]. rewrite forallb_app, IH, quote_plus_char_safe. reflexivity.
Qed.




Lemma occurrences_app (c : ascii) (a b : string) :
  occurrences c (a +:+ b) = (occurrences c a + occurrences c b)%nat.
Proof. unfold occurrences. now rewrite chars_app, List.filter_app, length_app. Qed.

(** A quoted field holds none of the characters that are not safe. *)
Lemma occurrences_quoted (c : ascii) (s : string) :
  url_safe c = false -> occurrences c (Py.quote_plus s) = 0%nat.
Proof.
  intros Hc. unfold occurrences. pose proof (quote_plus_safe s) as Hs.
  induction (Py.chars (Py.quote_plus s)) as [|x l IH]; [reflexivity |].
  cbn [forallb] in Hs. apply andb_prop in Hs as [Hx Hs]. cbn [List.filter].
  destruct (Ascii.eqb c x) eqn:E; [|now apply IH].
  apply Ascii.eqb_eq in E. congruence.
Qed.






End UrlQuoting.

(** The text of a query cannot add a parameter to the URL of a name search:
    whatever the name and the locality, the URL has one [?], one [=] per
    parameter, and an [&] exactly when a locality is given; every other
    character of the query string is an unreserved one, a [+] or a [%]. *)
Theorem name_url_has_its_own_parameters (name : string) (city_state : option string) :
  occurrences "?" (Api.name_url name city_state) = 1%nat /\
  occurrences "&" (Api.name_url name city_state)
  = (if Py.truthy city_state then 1 else 0)%nat /\
  occurrences "=" (Api.name_url name city_state)
  = (if Py.truthy city_state then 2 else 1)%nat /\
  forallb url_safe (Py.chars (Py.quote_plus name)) = true /\
  forallb url_safe (Py.chars (Py.quote_plus (Py.fmt city_state))) = true.
Proof.
  unfold Api.name_url.
  destruct (Py.truthy city_state);
    rewrite ?occurrences_app, ?occurrences_quoted by reflexivity;
    repeat split; try reflexivity; apply quote_plus_safe.
Qed.



(** ** The backoff of the session manager *)

Section Backoff.
Context `{Environment}.

Lemma sleeps_app (a b : list Event) : sleeps (a ++ b) = sleeps a ++ sleeps b.
Proof. unfold sleeps. apply flat_map_app. Qed.

(** A constructor call consults the browser once; the handle of the driver
    it returns is the tick of the call. *)
Lemma new_chrome_run (w : World) :
  exists r w',
    attempt_result new_chrome w = (inr r, w') /\ tick w' = S (tick w) /\
    match r with
    | inl _ => trace w' = trace w
    | inr h => h = tick w /\ trace w' = trace w ++ [ENewDriver h]
    end.
Proof.
  unfold attempt_result, new_chrome, bind, now, external.
  destruct (call_raises (tick w)); eexists _, _; cbn; repeat split; reflexivity.
Qed.

Lemma configure_run (w : World) :
  exists r w',
    attempt_result configure w = (inr r, w') /\ trace w' = trace w /\
    (tick w < tick w')%nat.
Proof.
  unfold attempt_result, configure, bind, external, current_url, ask.
  destruct (call_raises (tick w)); cbn; [eexists _, _; repeat split; cbn; lia |].
  destruct (call_raises (S (tick w))); cbn; [eexists _, _; repeat split; cbn; lia |].
  destruct (call_raises (S (S (tick w)))); cbn; [eexists _, _; repeat split; cbn; lia |].
  destruct (current_url_at (S (S (S (tick w))))); cbn;
    eexists _, _; repeat split; cbn; lia.
Qed.

(** The end of the driver of a failed attempt emits no sleep. *)
Lemma discard_run (local : option nat) (w : World) :
  exists w' delta,
    swallow (match local with
             | Some h => quit h
             | None => ret tt
             end) w = (inr tt, w') /\
    trace w' = trace w ++ delta /\ sleeps delta = [] /\ (tick w <= tick w')%nat.
Proof.
  unfold swallow, try_except. destruct local as [h|].
  - unfold quit, bind, emit, external. cbn.
    destruct (call_raises (tick w)); eexists _, [EQuit h]; cbn;
      (split; [reflexivity |]); (split; [reflexivity |]); (split; [reflexivity |]); cbn; lia.
  - exists w, []. cbn. rewrite app_nil_r. repeat split; lia.
Qed.

(** The retry loop sleeps the pause of every attempt that fails, up to the
    attempt that returns a driver or, being the last, re-raises. *)
Lemma setup_loop_schedule (attempts : list Z) :
  Forall (fun a => 0 <= a) attempts ->
  forall local w r w',
    setup_loop attempts local w = (r, w') ->
    exists delta,
      trace w' = trace w ++ delta /\
      match r with
      | inl _ =>
          exists failed rest,
            attempts = failed ++ (setup_retries - 1) :: rest /\
            Forall (fun a => a <> setup_retries - 1) failed /\
            sleeps delta = map setup_pause failed
      | inr (Some h) =>
          exists failed rest,
            attempts = failed ++ rest /\ rest <> [] /\
            Forall (fun a => a <> setup_retries - 1) failed /\
            sleeps delta = map setup_pause failed /\
            (failed = [] /\ h = tick w \/ failed <> [] /\ (tick w < h)%nat)
      | inr None =>
          Forall (fun a => a <> setup_retries - 1) attempts /\
          sleeps delta = map setup_pause attempts
      end.
Proof.
  induction 1 as [|attempt rest Hpos Hrest IH]; intros local w r w'.
  - intros [= <- <-]. exists []. rewrite app_nil_r. repeat split. constructor.
  - cbn [setup_loop]. cbv zeta.
    (* what a failed attempt leads to *)
    assert (Hfailed : forall e local' w1 delta1,
              trace w1 = trace w ++ delta1 -> sleeps delta1 = [] ->
              (tick w < tick w1)%nat ->
              (if attempt =? setup_retries - 1 then raise e
               else
                 swallow (match local' with
                          | Some h => quit h
                          | None => ret tt
                          end);;
                 sleep (inject_Z ((attempt + 1) * 2));;
                 setup_loop rest local') w1 = (r, w') ->
              exists delta,
                trace w' = trace w ++ delta /\
                match r with
                | inl _ =>
                    exists failed rest0,
                      attempt :: rest = failed ++ (setup_retries - 1) :: rest0 /\
                      Forall (fun a => a <> setup_retries - 1) failed /\
                      sleeps delta = map setup_pause failed
                | inr (Some h) =>
                    exists failed rest0,
                      attempt :: rest = failed ++ rest0 /\ rest0 <> [] /\
                      Forall (fun a => a <> setup_retries - 1) failed /\
                      sleeps delta = map setup_pause failed /\
                      (failed = [] /\ h = tick w \/ failed <> [] /\ (tick w < h)%nat)
                | inr None =>
                    Forall (fun a => a <> setup_retries - 1) (attempt :: rest) /\
                    sleeps delta = map setup_pause (attempt :: rest)
                end).
    { intros e local' w1 delta1 Ht1 Hs1 Htick.
      destruct (attempt =? setup_retries - 1) eqn:Elast.
      - intros [= <- <-]. apply Z.eqb_eq in Elast. subst attempt.
        exists delta1. split; [exact Ht1 |]. exists [], rest. repeat split; auto.
      - apply Z.eqb_neq in Elast. unfold bind at 1.
        destruct (discard_run local' w1) as (w2 & delta2 & -> & Ht2 & Hs2 & Htick2).
        unfold bind, sleep.
        assert (Hd : Qle_bool 0 (inject_Z ((attempt + 1) * 2)) = true).
        { apply Qle_bool_iff. unfold Qle. cbn. lia. }
        rewrite Hd. cbn [emit]. intros Hloop.
        apply IH in Hloop as (delta3 & Ht3 & Hr3). cbn [trace tick] in Ht3, Hr3.
        exists (delta1 ++ delta2 ++ ESleep (inject_Z ((attempt + 1) * 2)) :: delta3).
        split.
        { rewrite Ht3, Ht2, Ht1. now rewrite <- !app_assoc. }
        assert (Hsl : sleeps (delta1 ++ delta2 ++
                              ESleep (inject_Z ((attempt + 1) * 2)) :: delta3)
                      = setup_pause attempt :: sleeps delta3).
        { rewrite !sleeps_app, Hs1, Hs2. reflexivity. }
        rewrite Hsl. destruct r as [e'|[h|]].
        + destruct Hr3 as (failed & rest0 & -> & Hf & ->).
          exists (attempt :: failed), rest0. repeat split; auto.
        + destruct Hr3 as (failed & rest0 & -> & Hne & Hf & -> & Hh).
          exists (attempt :: failed), rest0. repeat split; auto.
          right. split; [discriminate |]. destruct Hh as [[_ ->]|[_ Hh]]; lia.
        + destruct Hr3 as (Hf & ->). split; [constructor |]; auto. }
    unfold bind at 1.
    destruct (new_chrome_run w) as ([e|h] & w1 & -> & Htick1 & Hr1).
    + apply (Hfailed e local w1 []); [now rewrite app_nil_r | reflexivity | lia].
    + destruct Hr1 as [-> Ht1]. unfold bind at 1.
      destruct (configure_run w1) as ([e|[]] & w2 & -> & Ht2 & Htick2).
      * apply (Hfailed e (Some (tick w)) w2 [ENewDriver (tick w)]);
          [now rewrite Ht2 | reflexivity | lia].
      * intros [= <- <-]. exists [ENewDriver (tick w)]. split; [now rewrite Ht2 |].
        exists [], (attempt :: rest). repeat split; auto.
Qed.

End Backoff.

(** [_setup_driver] backs off between its attempts: it sleeps 2 seconds
    after the first failed attempt and 4 seconds after the second one, and
    at no other time.  So it raises from its loop only after both pauses, a
    driver it returns without a pause is the one of its first constructor
    call (whose handle is the tick after the options and the service are
    set up), and a later driver comes after one pause or both.  When the
    setup of the options and of the service raises, nothing is slept. *)
Theorem setup_driver_backs_off `{Environment} (w : World) :
  exists delta,
    trace (snd (_setup_driver w)) = trace w ++ delta /\
    match fst (_setup_driver w) with
    | inl e =>
        match call_raises (tick w) with
        | Some e0 => e = e0 /\ delta = []
        | None => sleeps delta = [2; 4]%Q
        end
    | inr d =>
        exists h, d = Some h /\
          (sleeps delta = [] /\ h = S (tick w) \/
           (S (tick w) < h)%nat /\ (sleeps delta = [2]%Q \/ sleeps delta = [2; 4]%Q))
    end.
Proof.
  unfold _setup_driver, try_except, bind, external.
  destruct (call_raises (tick w)) as [e0|] eqn:Ecall.
  { exists []. cbn. rewrite app_nil_r. auto. }
  destruct (setup_loop (Py.range setup_retries) None (advance w)) as [r w'] eqn:Eloop.
  apply setup_loop_schedule in Eloop as (delta & Ht & Hr);
    [|repeat constructor; discriminate].
  exists delta. change (Py.range setup_retries) with [0; 1; 2] in Hr.
  change (setup_retries - 1) with 2 in Hr. cbn [trace tick advance] in Ht, Hr.
  destruct r as [e|[h|]]; cbn [fst snd raise].
  - split; [exact Ht |].
    destruct Hr as (failed & rest & Hcut & Hf & ->).
    destruct failed as [|a [|b [|c failed]]]; injection Hcut as; subst;
      try reflexivity.
    + inversion Hf; congruence.
    + inversion Hf as [|? ? ? Hf1]; inversion Hf1; congruence.
    + inversion Hf as [|? ? ? Hf1]; inversion Hf1 as [|? ? ? Hf2]; inversion Hf2; congruence.
  - split; [exact Ht |]. exists h. split; [reflexivity |].
    destruct Hr as (failed & rest & Hcut & Hne & Hf & -> & Hh).
    destruct Hh as [[-> ->]|[Hfailed Hlt]]; [now left |]. right. split; [exact Hlt |].
    destruct failed as [|a [|b [|c failed]]]; [congruence | | |].
    + injection Hcut as <- _. now left.
    + injection Hcut as <- <- _. now right.
    + exfalso. injection Hcut as <- <- <- Hnil.
      inversion Hf as [|? ? ? Hf1]; inversion Hf1 as [|? ? ? Hf2]; inversion Hf2; congruence.
  - exfalso. destruct Hr as [Hf _].
    inversion Hf as [|? ? ? Hf1]; inversion Hf1 as [|? ? ? Hf2]; inversion Hf2; congruence.
Qed.

(** ** The navigations of a fetch *)

Section Navigations.
Context `{Environment}.
Variable url : string.

Lemma count_gets_app (a b : list Event) :
  count_gets (a ++ b) = (count_gets a + count_gets b)%nat.
Proof. unfold count_gets. now rewrite List.filter_app, length_app. Qed.

Lemma navigates_quiet (l : list Event) : all_quiet l -> navigates 0 url l.
Proof.
  intros Hq. split.
  - unfold count_gets. induction Hq as [|e l He Hl IH]; [reflexivity |].
    destruct e; simpl in *; try discriminate; exact IH.
  - eapply List.Forall_impl; [|exact Hq]. intros e He. destruct e; try exact I.
    discriminate.
Qed.

Lemma navigates_app (a b : nat) (l1 l2 : list Event) :
  navigates a url l1 -> navigates b url l2 -> navigates (a + b) url (l1 ++ l2).
Proof.
  intros [Ha Hva] [Hb Hvb]. split.
  - rewrite count_gets_app. lia.
  - apply Forall_app. now split.
Qed.

Lemma navigates_more (a b : nat) (l : list Event) :
  (a <= b)%nat -> navigates a url l -> navigates b url l.
Proof. intros Hab [Ha Hv]. split; [lia | exact Hv]. Qed.

Lemma navigates_navigate : obeys (navigates 1 url) anything (navigate url).
Proof.
  unfold navigate.
  apply obeys_bind_app with (E1 := all_quiet) (E2 := navigates 1 url) (R1 := anything).
  - apply quiet_the_driver; solve [apply stable_all_quiet | auto].
  - intros _ _.
    apply obeys_bind_app with (E1 := fun l => l = [EGet url]) (E2 := all_quiet)
                              (R1 := anything).
    + intros w r w' [= <- <-]. split; [|intros; exact I]. now exists [EGet url].
    + intros _ _. apply obeys_external. constructor.
    + intros d1 ->. split; [reflexivity | now repeat constructor].
    + intros d1 d2 -> Hq. apply (navigates_app 1 0); [|now apply navigates_quiet].
      split; [reflexivity | now repeat constructor].
  - intros d1 Hq. apply (navigates_more 0); [lia | now apply navigates_quiet].
  - intros d1 d2 Hq Hn. now apply (navigates_app 0 1); [apply navigates_quiet |].
Qed.

Lemma navigates_attempt_body (self : Config) (attempt : Z) :
  obeys (navigates 1 url) anything (attempt_body self url attempt).
Proof.
  unfold attempt_body.
  apply obeys_try_app with (E1 := navigates 1 url) (E2 := all_quiet).
  - apply obeys_bind_app with (E1 := all_quiet) (E2 := navigates 1 url) (R1 := anything).
    + unfold _add_delay. pose proof stable_all_quiet as Hstable.
      assert (Hquiet : forall l, all_quiet l -> all_quiet l) by auto. obey.
    + intros _ _.
      apply obeys_bind_app with (E1 := navigates 1 url) (E2 := all_quiet) (R1 := anything).
      * apply navigates_navigate.
      * intros _ _. apply quiet_after_navigation; solve [apply stable_all_quiet | auto].
      * auto.
      * intros d1 d2 Hn Hq. now apply (navigates_app 1 0); [|apply navigates_quiet].
    + intros d1 Hq. apply (navigates_more 0); [lia | now apply navigates_quiet].
    + intros d1 d2 Hq Hn. now apply (navigates_app 0 1); [apply navigates_quiet |].
  - intros e. apply quiet_backoff; solve [apply stable_all_quiet | auto].
  - auto.
  - intros d1 d2 Hn Hq. now apply (navigates_app 1 0); [|apply navigates_quiet].
Qed.

Lemma navigates_for_each {X A} (xs : list X) (body : X -> M (Ctl A)) :
  (forall x, obeys (navigates 1 url) anything (body x)) ->
  obeys (navigates (length xs) url) anything (for_each xs body).
Proof.
  intros Hbody. induction xs as [|x xs IH]; cbn [for_each length].
  - apply obeys_ret; [apply navigates_quiet; constructor | exact I].
  - apply obeys_bind_app with (E1 := navigates 1 url) (E2 := navigates (length xs) url)
                              (R1 := anything).
    + apply Hbody.
    + intros c _. destruct c; try exact IH;
        (apply obeys_ret; [|exact I]);
        (apply (navigates_more 0); [lia | apply navigates_quiet; constructor]).
    + intros d1. apply navigates_more. lia.
    + intros d1 d2. apply (navigates_app 1).
Qed.

Lemma navigates_make_request (self : Config) :
  obeys (navigates (Z.to_nat (max_retries self)) url) anything (_make_request self url).
Proof.
  unfold _make_request.
  apply obeys_bind_app with (E1 := navigates (Z.to_nat (max_retries self)) url)
                            (E2 := all_quiet) (R1 := anything).
  - replace (Z.to_nat (max_retries self)) with (length (Py.range (max_retries self))).
    + apply navigates_for_each. intros attempt. apply navigates_attempt_body.
    + unfold Py.range. now rewrite length_map, length_seq.
  - intros [v|] _; (apply obeys_ret; [constructor | exact I]).
  - auto.
  - intros d1 d2 Hn Hq. rewrite <- (Nat.add_0_r (Z.to_nat _)).
    now apply navigates_app; [|apply navigates_quiet].
Qed.

End Navigations.

(** A fetch navigates at most [max_retries] times, and only to the URL it
    was given; with [max_retries] zero or negative it does not navigate at
    all. *)
Theorem make_request_navigates_within_retries `{Environment}
    (self : Config) (url : string) (w : World) :
  exists delta,
    trace (snd (_make_request self url w)) = trace w ++ delta /\
    (count_gets delta <= Z.to_nat (max_retries self))%nat /\
    Forall (visits (eq url)) delta.
Proof. exact (proj1 (obeys_run _ _ _ w (navigates_make_request url self))). Qed.

(** ** Where the program navigates *)

Section Visits.
Context `{Environment}.
Variable P : string -> Prop.

Lemma stable_visits : stable (Forall (visits P)).
Proof. apply stable_Forall. Qed.

Lemma quiet_visits (l : list Event) : all_quiet l -> Forall (visits P) l.
Proof.
  intros Hq. eapply List.Forall_impl; [|exact Hq].
  intros e He. destruct e; simpl in *; try exact I; discriminate.
Qed.
#[local] Hint Resolve stable_visits quiet_visits : quiet.

(** An event that is not a [driver.get]. *)
Ltac elsewhere := apply obeys_emit; constructor; [exact I | constructor].

Ltac visiting :=
  pose proof stable_visits as Hstable; pose proof quiet_visits as Hquiet;
  obey_with elsewhere.

Lemma visits_navigate (url : string) :
  P url -> obeys (Forall (visits P)) anything (navigate url).
Proof.
  intros Hu. unfold navigate. visiting.
  apply obeys_emit. constructor; [exact Hu | constructor].
Qed.
#[local] Hint Resolve visits_navigate : quiet.

Lemma visits_attempt_body (self : Config) (url : string) (attempt : Z) :
  P url -> obeys (Forall (visits P)) anything (attempt_body self url attempt).
Proof. intros Hu. unfold attempt_body, _add_delay. visiting. Qed.
#[local] Hint Resolve visits_attempt_body : quiet.

Lemma visits_make_request (self : Config) (url : string) :
  P url -> obeys (Forall (visits P)) anything (_make_request self url).
Proof. intros Hu. unfold _make_request. visiting. Qed.
#[local] Hint Resolve visits_make_request : quiet.

Lemma visits_scraper_make_request (self : Config) (url : string) :
  P url -> obeys (Forall (visits P)) anything (Scraper._make_request self url []).
Proof. intros Hu. unfold Scraper._make_request. visiting. Qed.
#[local] Hint Resolve visits_scraper_make_request : quiet.

Lemma visits_constructor : obeys (Forall (visits P)) anything Scraper.TruePeopleSearchScraper.
Proof. unfold Scraper.TruePeopleSearchScraper. visiting. Qed.

Lemma visits_fill_field (expected : option string) :
  obeys (Forall (visits P)) anything (Scraper.fill_field expected).
Proof. unfold Scraper.fill_field. visiting. Qed.
#[local] Hint Resolve visits_fill_field : quiet.

Lemma visits_click_submit : obeys (Forall (visits P)) anything Scraper.click_submit.
Proof. unfold Scraper.click_submit. visiting. Qed.
#[local] Hint Resolve visits_click_submit : quiet.

Lemma visits_await_results : obeys (Forall (visits P)) anything Scraper.await_results.
Proof. unfold Scraper.await_results. visiting. Qed.
#[local] Hint Resolve visits_await_results : quiet.

Lemma visits_submit_form (o : Scraper.Owner) :
  obeys (Forall (visits P)) anything (Scraper.submit_form o).
Proof. unfold Scraper.submit_form. visiting. Qed.

Lemma visits_save_results (results : list Scraper.ScrapingResult) (path : string) :
  obeys (Forall (visits P)) anything (Scraper.save_results results path).
Proof. unfold Scraper.save_results. visiting. Qed.

Lemma visits_api_constructor : obeys (Forall (visits P)) anything Api.TruePeopleSearchAPI.
Proof. unfold Api.TruePeopleSearchAPI. visiting. Qed.

Lemma visits_api_extract_profile (self : Config) (url : string) :
  P url -> obeys (Forall (visits P)) anything (Api._extract_profile_info self url).
Proof. intros Hu. unfold Api._extract_profile_info. visiting. Qed.

End Visits.

Section OnSite.
Context `{Environment}.

Lemma prefix_append (a b : string) : String.prefix a (a +:+ b) = true.
Proof.
  induction a as [|c a IH]; [now destruct b |].
  change (String c a +:+ b) with (String c (a +:+ b)). cbn [String.prefix].
  destruct (ascii_dec c c); [exact IH | congruence].
Qed.

Lemma first_match_on_site (o : Scraper.Owner) (cards : list Card) (u : string) :
  Scraper.first_match o cards = Some u -> on_site u.
Proof.
  induction cards as [|card rest IH]; cbn [Scraper.first_match]; [discriminate |].
  destruct (card_name card) as [displayed|]; [|exact IH].
  destruct (Scraper.name_matches o displayed); [|exact IH].
  destruct (detail_href card) as [href|]; [|exact IH].
  intros [= <-]. apply prefix_append.
Qed.

Lemma on_site_base : on_site Scraper.BASE_URL.
Proof. reflexivity. Qed.

Lemma on_site_search_by_address (self : Config) (o : Scraper.Owner) :
  obeys (Forall (visits on_site)) (fun r => forall u, r = Some u -> on_site u)
        (Scraper.search_by_address self o).
Proof.
  unfold Scraper.search_by_address.
  apply obeys_seq; [apply stable_visits | apply visits_scraper_make_request, on_site_base |].
  intros html. destruct (negb (Py.truthy html)).
  - apply obeys_ret; [constructor | discriminate].
  - apply obeys_seq; [apply stable_visits | apply visits_submit_form |].
    intros [html'|]; (apply obeys_ret; [constructor |]); [|discriminate].
    intros u. apply first_match_on_site.
Qed.

Lemma on_site_extract_profile_info (self : Config) (url : string) :
  on_site url ->
  obeys (Forall (visits on_site)) anything (Scraper.extract_profile_info self url).
Proof.
  intros Hu. unfold Scraper.extract_profile_info.
  apply obeys_seq; [apply stable_visits | now apply visits_scraper_make_request |].
  intros html. destruct (negb (Py.truthy html)).
  - apply obeys_ret; [constructor | exact I].
  - destruct (Scraper.parse_profile _); [apply obeys_raise | apply obeys_ret]; try constructor.
Qed.

Lemma on_site_process_owner (self : Config) (output_file : string)
                            (results : list Scraper.ScrapingResult) (o : Scraper.Owner) :
  obeys (Forall (visits on_site)) anything
        (Scraper.process_owner self output_file results o).
Proof.
  unfold Scraper.process_owner.
  apply obeys_seq; [apply stable_visits | |].
  - apply quiet_attempt_result.
    eapply obeys_bind; [apply stable_visits | apply on_site_search_by_address |].
    intros profile_url Hu. destruct profile_url as [u|]; cbn [Py.truthy negb].
    + destruct (negb (String.eqb u "")); cbn [negb].
      * apply obeys_seq; [apply stable_visits | |].
        -- apply on_site_extract_profile_info. now apply Hu.
        -- intros info. apply obeys_ret; [constructor | exact I].
      * apply obeys_ret; [constructor | exact I].
    + apply obeys_ret; [constructor | exact I].
  - intros [e|[info|]]; try (apply obeys_ret; [constructor | exact I]).
    apply obeys_seq; [apply stable_visits | |].
    + apply quiet_attempt_result. destruct results.
      * apply obeys_ret; [constructor | exact I].
      * apply visits_save_results.
    + intros saved. destruct saved; (apply obeys_ret; [constructor | exact I]).
Qed.

Lemma on_site_process_batch (self : Config) (output_file : string)
                            (batch : list Scraper.Owner) :
  forall results,
    obeys (Forall (visits on_site)) anything
          (Scraper.process_batch self output_file results batch).
Proof.
  induction batch as [|o rest IH]; intros results; cbn [Scraper.process_batch].
  - apply obeys_ret; [constructor | exact I].
  - apply obeys_seq; [apply stable_visits | apply on_site_process_owner |].
    intros results'. apply IH.
Qed.

Lemma on_site_process_batches (self : Config) (output_file : string)
                              (owners : list Scraper.Owner) (batch_size : nat)
                              (starts : list nat) :
  forall results,
    obeys (Forall (visits on_site)) anything
          (Scraper.process_batches self output_file owners batch_size starts results).
Proof.
  pose proof (stable_visits on_site) as Hstable.
  pose proof (quiet_visits on_site) as Hquiet.
  induction starts as [|batch_start rest IH]; intros results; cbn [Scraper.process_batches].
  - apply obeys_ret; [constructor | exact I].
  - cbv zeta.
    apply obeys_seq; [assumption | apply on_site_process_batch |]. intros results'.
    apply obeys_seq; [assumption | |].
    + apply quiet_attempt_result. destruct (_ <? _)%nat; obey.
    + intros [e|?]; [apply obeys_ret; [constructor | exact I] | apply IH].
Qed.

Lemma on_site_main (input : Exn + list Scraper.Owner) (output_file : string)
                   (batch_size : Z) :
  obeys (Forall (visits on_site)) anything (Scraper.main input output_file batch_size).
Proof.
  pose proof (stable_visits on_site) as Hstable.
  pose proof (quiet_visits on_site) as Hquiet.
  unfold Scraper.main. destruct input as [e|owners].
  - apply obeys_ret; [constructor | exact I].
  - apply obeys_seq; [assumption | apply visits_constructor |]. intros scraper.
    apply obeys_seq; [assumption | |].
    + unfold Scraper.run_batches.
      destruct (batch_size =? 0); [apply obeys_ret; constructor |].
      destruct (batch_size <? 0); [apply obeys_ret; constructor |].
      apply on_site_process_batches.
    + intros [results pending]. cbn [fst snd].
      apply obeys_seq; [assumption | |].
      * destruct results; [apply obeys_ret; [constructor | exact I] |].
        apply visits_save_results.
      * intros _. apply obeys_seq; [assumption | now apply quiet_del |].
        intros _. destruct pending; [apply obeys_raise | apply obeys_ret]; try constructor.
Qed.

End OnSite.

(** Every [driver.get] of a batch run targets a URL of the site: the home
    page, or a profile link that [search_by_address] built from it. *)
Theorem batch_run_stays_on_site `{Environment}
    (input : Exn + list Scraper.Owner) (output_file : string) (batch_size : Z) (w : World) :
  exists delta,
    trace (snd (Scraper.main input output_file batch_size w)) = trace w ++ delta /\
    Forall (visits on_site) delta.
Proof. exact (proj1 (obeys_run _ _ _ w (on_site_main input output_file batch_size))). Qed.

(** ** The request-response path *)

Section ApiSearch.
Context `{Environment}.

Lemma on_site_link (href : string) : on_site (Api.BASE_URL +:+ href).
Proof. apply (prefix_append Scraper.BASE_URL href). Qed.

Lemma on_site_collect (self : Config) (option_name given : string) (cards : list Card) :
  forall results,
    obeys (Forall (visits on_site)) anything
          (Api.collect self option_name given cards results).
Proof.
  induction cards as [|card rest IH]; intros results; cbn [Api.collect].
  - apply obeys_ret; [constructor | exact I].
  - destruct (detail_href card) as [href|]; [|apply IH].
    apply obeys_seq; [apply stable_visits | |].
    + apply visits_api_extract_profile, on_site_link.
    + intros [info|]; apply IH.
Qed.

Lemma on_site_search_url (self : Config) (option_name given url : string)
                         (max_results : PyVal) :
  on_site url ->
  obeys (Forall (visits on_site)) anything
        (Api.search_url self option_name given url max_results).
Proof.
  intros Hu. unfold Api.search_url.
  apply obeys_seq; [apply stable_visits | now apply visits_make_request |].
  intros html. destruct (negb (Py.truthy html)); [apply obeys_ret; [constructor | exact I] |].
  destruct (soup_cards (default "" html)) as [|card cards];
    [apply obeys_ret; [constructor | exact I] |].
  destruct (Api.slice_cards max_results (card :: cards)) as [e|sliced];
    [apply obeys_raise; constructor |].
  apply obeys_seq; [apply stable_visits | apply on_site_collect |].
  intros results. destruct results; (apply obeys_ret; [constructor | exact I]).
Qed.

Lemma on_site_name_url (name : string) (city_state : option string) :
  on_site (Api.name_url name city_state).
Proof.
  unfold Api.name_url, on_site. destruct (Py.truthy city_state); reflexivity.
Qed.

Lemma on_site_search_by_name (self : Config) (name : string) (city_state : option string)
                             (max_results : PyVal) :
  obeys (Forall (visits on_site)) anything
        (Api.search_by_name self name city_state max_results).
Proof.
  unfold Api.search_by_name. destruct (Api.parse_name name city_state) as [name' cs'].
  apply on_site_search_url, on_site_name_url.
Qed.

(** In every namespace in which requests are served, [search_by_name] is
    the method of the class. *)
Lemma getattr_search_by_name (as_main : bool) (ns : Api.Namespace) :
  In ns (Api.serving as_main) ->
  Api.getattr ns "search_by_name"
  = inr (Api.SearchMethod
           (fun self query max_results => Api.search_by_name self query None max_results)).
Proof.
  destruct as_main; cbn -[Api.getattr]; intros Hin;
    repeat (destruct Hin as [<- | Hin]); try contradiction; reflexivity.
Qed.


(** An imported module serves in one namespace. *)
Lemma served_when_imported :
  In (hd (Api.mkNamespace ∅ ∅) (Api.serving false)) (Api.serving false).
Proof.
  unfold Api.serving. destruct (Api.run_module false Api.api_module) as [ns served].
  left. reflexivity.
Qed.

Lemma on_site_call_method (as_main : bool) (ns : Api.Namespace) (method : string)
                          (self : Config) (query : string) (max_results : PyVal) :
  In ns (Api.serving as_main) -> In method (map snd served_methods) ->
  obeys (Forall (visits on_site)) anything
        (Api.call_method ns method self query max_results).
Proof.
  intros Hns Hm. unfold Api.call_method.
  destruct (getattr_missing as_main ns Hns) as [Ha Hp].
  pose proof (getattr_search_by_name as_main ns Hns) as Hn.
  cbn in Hm. destruct Hm as [<-|[<-|[<-|[]]]].
  - rewrite Hn. apply on_site_search_by_name.
  - rewrite Ha. apply obeys_raise. constructor.
  - rewrite Hp. apply obeys_raise. constructor.
Qed.

Lemma on_site_ensure_api : obeys (Forall (visits on_site)) anything Api.ensure_api.
Proof.
  intros w r w' Hrun. unfold Api.ensure_api in Hrun.
  destruct (api_instance w).
  - injection Hrun as <- <-. split; [|intros; exact I].
    exists []. split; [now rewrite app_nil_r | constructor].
  - unfold bind in Hrun.
    destruct (Api.TruePeopleSearchAPI w) as [[e|self] w1] eqn:Eapi;
      destruct (visits_api_constructor on_site _ _ _ Eapi) as [Hd _];
      injection Hrun as <- <-; (split; [exact Hd | intros; exact I]).
Qed.

Lemma on_site_run_queries (as_main : bool) (ns : Api.Namespace) (method : string)
                          (max_results : PyVal) (queries : list string) :
  In ns (Api.serving as_main) -> In method (map snd served_methods) ->
  forall acc,
    obeys (Forall (visits on_site)) anything
          (Api.run_queries ns method max_results queries acc).
Proof.
  intros Hns Hm.
  induction queries as [|query rest IH]; intros acc; cbn [Api.run_queries].
  - apply obeys_ret; [constructor | exact I].
  - apply obeys_seq; [apply stable_visits | apply on_site_ensure_api |]. intros self.
    apply obeys_seq; [apply stable_visits | now apply (on_site_call_method as_main) |].
    intros search_results. apply IH.
Qed.

Lemma on_site_search_block (as_main : bool) (ns : Api.Namespace) (d : gmap string PyVal)
                           (key method out : string) (max_results : PyVal) :
  In ns (Api.serving as_main) -> In method (map snd served_methods) ->
  obeys (Forall (visits on_site)) anything
        (Api.search_block ns d key method out max_results).
Proof.
  intros Hns Hm. unfold Api.search_block.
  destruct (d !! key) as [v|]; [|apply obeys_ret; [constructor | exact I]].
  destruct (Api.truthy_val v); [|apply obeys_ret; [constructor | exact I]].
  destruct (Api.iterate v) as [e|queries]; [apply obeys_raise; constructor |].
  apply obeys_seq; [apply stable_visits | now apply (on_site_run_queries as_main) |].
  intros found. apply obeys_ret; [constructor | exact I].
Qed.

Lemma on_site_search (as_main : bool) (ns : Api.Namespace)
                     (data : option (gmap string PyVal)) :
  In ns (Api.serving as_main) ->
  obeys (Forall (visits on_site)) anything (Api.search ns data).
Proof.
  intros Hns. unfold Api.search.
  apply obeys_try; [apply stable_visits | |].
  - destruct data as [d|]; [|apply obeys_ret; [constructor | exact I]].
    destruct (bool_decide (d = ∅)); [apply obeys_ret; [constructor | exact I] |].
    apply obeys_seq; [apply stable_visits | |].
    { apply (on_site_search_block as_main); [exact Hns | cbn; tauto]. }
    intros names. apply obeys_seq; [apply stable_visits | |].
    { apply (on_site_search_block as_main); [exact Hns | cbn; tauto]. }
    intros addresses. apply obeys_seq; [apply stable_visits | |].
    { apply (on_site_search_block as_main); [exact Hns | cbn; tauto]. }
    intros phones. apply obeys_ret; [constructor | exact I].
  - intros e. apply obeys_ret; [constructor | exact I].
Qed.

End ApiSearch.

(** Every [driver.get] made for a [/search] request targets a URL of the
    site: a name-search URL, or a profile link of a result card. *)
Theorem search_endpoint_stays_on_site `{Environment}
    (as_main : bool) (ns : Api.Namespace) (data : option (gmap string PyVal)) (w : World) :
  In ns (Api.serving as_main) ->
  exists delta,
    trace (snd (Api.search ns data w)) = trace w ++ delta /\
    Forall (visits on_site) delta.
Proof.
  intros Hns. exact (proj1 (obeys_run _ _ _ w (on_site_search as_main ns data Hns))).
Qed.

Lemma search_endpoint_stays_on_site_witness :
  exists delta,
    trace (snd (@Api.search calm_site (hd (Api.mkNamespace ∅ ∅) (@Api.serving calm_site false))
                  (Some {[ "name" := PList ["Jane Doe; Springfield, IL"] ]}) world0))
    = trace world0 ++ delta /\
    Forall (visits on_site) delta.
Proof.
  apply (@search_endpoint_stays_on_site calm_site false).
  apply served_when_imported.
Defined.

(** ** Rules for returned values *)

Section Returns.
Context `{Environment}.

Lemma returns_any {A} (m : M A) : returns anything m.
Proof. intros w a w' _. exact I. Qed.

Lemma returns_weaken {A} (R R' : A -> Prop) (m : M A) :
  (forall a, R a -> R' a) -> returns R m -> returns R' m.
Proof. intros HR Hm w a w' Hrun. apply HR, (Hm _ _ _ Hrun). Qed.

Lemma returns_ret {A} (R : A -> Prop) (a : A) : R a -> returns R (ret a).
Proof. intros Ha w a' w' [= <- <-]. exact Ha. Qed.

Lemma returns_raise {A} (R : A -> Prop) (e : Exn) : returns R (raise e).
Proof. intros w a w'. discriminate. Qed.

Lemma returns_bind {A B} (R1 : A -> Prop) (R2 : B -> Prop) (m : M A) (k : A -> M B) :
  returns R1 m -> (forall a, R1 a -> returns R2 (k a)) -> returns R2 (bind m k).
Proof.
  intros Hm Hk w b w' Hrun. unfold bind in Hrun.
  destruct (m w) as [[e|a] w1] eqn:Em; [discriminate |].
  exact (Hk a (Hm _ _ _ Em) _ _ _ Hrun).
Qed.

Lemma returns_seq {A B} (R : B -> Prop) (m : M A) (k : A -> M B) :
  (forall a, returns R (k a)) -> returns R (bind m k).
Proof. intros Hk. apply returns_bind with (R1 := anything); [apply returns_any | auto]. Qed.

Lemma returns_try {A} (R : A -> Prop) (m : M A) (h : Exn -> M A) :
  returns R m -> (forall e, returns R (h e)) -> returns R (try_except m h).
Proof.
  intros Hm Hh w a w' Hrun. unfold try_except in Hrun.
  destruct (m w) as [[e|a0] w1] eqn:Em.
  - exact (Hh e _ _ _ Hrun).
  - injection Hrun as <- <-. exact (Hm _ _ _ Em).
Qed.

Lemma returns_run {A} (R : A -> Prop) (m : M A) (w : World) :
  returns R m ->
  match fst (m w) with
  | inr a => R a
  | inl _ => True
  end.
Proof.
  intros Hm. destruct (m w) as [[e|a] w'] eqn:Em; cbn [fst]; [exact I |].
  exact (Hm _ _ _ Em).
Qed.

End Returns.

(** ** How many records a search returns *)

Section Counting.
Context `{Environment}.

Lemma collect_length (self : Config) (option_name given : string) (cards : list Card) :
  forall results,
    returns (fun rs => (length results <= length rs <= length results + length cards)%nat)
            (Api.collect self option_name given cards results).
Proof.
  induction cards as [|card rest IH]; intros results; cbn [Api.collect length].
  - apply returns_ret. lia.
  - assert (Hskip : returns (fun rs => (length results <= length rs
                                        <= length results + S (length rest))%nat)
                            (Api.collect self option_name given rest results)).
    { eapply returns_weaken; [|apply IH]. cbn beta. lia. }
    destruct (detail_href card) as [href|]; [|exact Hskip].
    apply returns_seq. intros [info|]; [|exact Hskip].
    eapply returns_weaken; [|apply IH]. cbn beta. rewrite length_app. cbn [length]. lia.
Qed.

Lemma slice_to_length {A} (n : Z) (xs : list A) :
  0 <= n -> (length (Py.slice_to n xs) <= Z.to_nat n)%nat.
Proof.
  intros Hn. unfold Py.slice_to.
  destruct (n <? 0) eqn:E; [apply Z.ltb_lt in E; lia |].
  rewrite length_take. lia.
Qed.

Lemma search_url_count (self : Config) (option_name given url : string) (n : Z) :
  0 <= n ->
  returns (fun rs => (1 <= length rs <= Z.to_nat (Z.max 1 n))%nat)
          (Api.search_url self option_name given url (PInt n)).
Proof.
  intros Hn. unfold Api.search_url.
  assert (Hone : forall message,
            returns (fun rs => (1 <= length rs <= Z.to_nat (Z.max 1 n))%nat)
                    (ret [Api.failure option_name given message])).
  { intros message. apply returns_ret. cbn [length]. lia. }
  apply returns_seq. intros html.
  destruct (negb (Py.truthy html)); [apply Hone |].
  destruct (soup_cards (default "" html)) as [|card cards]; [apply Hone |].
  cbn [Api.slice_cards].
  eapply returns_bind; [apply collect_length |].
  intros results Hlen. destruct results as [|r rs]; [apply Hone |].
  apply returns_ret.
  pose proof (slice_to_length n (card :: cards) Hn). cbn [length] in *. lia.
Qed.

Lemma search_url_nonempty (self : Config) (option_name given url : string)
                          (max_results : PyVal) :
  returns (fun rs => rs <> []) (Api.search_url self option_name given url max_results).
Proof.
  unfold Api.search_url. apply returns_seq. intros html.
  destruct (negb (Py.truthy html)); [now apply returns_ret |].
  destruct (soup_cards (default "" html)) as [|card cards]; [now apply returns_ret |].
  destruct (Api.slice_cards max_results (card :: cards)); [apply returns_raise |].
  apply returns_seq. intros [|r rs]; now apply returns_ret.
Qed.

End Counting.

(** A name search asked for [n >= 0] results returns at least one record
    and at most [max(1, n)]: the profiles it could read, or one failure
    marker. *)
Theorem search_by_name_result_count `{Environment}
    (self : Config) (name : string) (city_state : option string) (n : Z) (w : World) :
  0 <= n ->
  match fst (Api.search_by_name self name city_state (PInt n) w) with
  | inr results => (1 <= length results <= Z.to_nat (Z.max 1 n))%nat
  | inl _ => True
  end.
Proof.
  intros Hn. apply returns_run. unfold Api.search_by_name.
  destruct (Api.parse_name name city_state) as [name' cs'].
  now apply search_url_count.
Qed.

Lemma search_by_name_result_count_witness :
  match fst (@Api.search_by_name calm_site Api.default_config "Jane Doe" None (PInt 0)
               live_world) with
  | inr results => (1 <= length results <= Z.to_nat (Z.max 1 0))%nat
  | inl _ => True
  end.
Proof. apply (@search_by_name_result_count calm_site). lia. Defined.

(** ** The [/search] endpoint *)

Section Answers.
Context `{Environment}.

Lemma run_queries_length (as_main : bool) (ns : Api.Namespace) (max_results : PyVal)
                         (queries : list string) :
  In ns (Api.serving as_main) ->
  forall acc,
    returns (fun found => (length acc + length queries <= length found)%nat)
            (Api.run_queries ns "search_by_name" max_results queries acc).
Proof.
  intros Hns. induction queries as [|query rest IH]; intros acc; cbn [Api.run_queries length].
  - apply returns_ret. lia.
  - apply returns_seq. intros self.
    apply returns_bind with (R1 := fun rs => rs <> []).
    + unfold Api.call_method. rewrite (getattr_search_by_name as_main ns Hns).
      unfold Api.search_by_name. destruct (Api.parse_name query None) as [name' cs'].
      apply search_url_nonempty.
    + intros rs Hrs. eapply returns_weaken; [|apply IH]. cbn beta.
      rewrite length_app, length_map. destruct rs; [congruence |]. cbn [length]. lia.
Qed.

End Answers.

(** [search] always answers: whatever the body and whatever the browser
    does, it returns a response, which is a list of results with status 200
    or an error message with status 400 or 500; it never raises. *)
Theorem search_always_answers `{Environment}
    (ns : Api.Namespace) (data : option (gmap string PyVal)) (w : World) :
  exists r w', Api.search ns data w = (inr r, w') /\ well_formed r.
Proof.
  unfold Api.search, try_except.
  match goal with |- context [match ?m w with _ => _ end] => destruct (m w) as [[e|r] w1] eqn:Em end.
  - eexists _, _. split; [reflexivity |]. right. reflexivity.
  - exists r, w1. split; [reflexivity |].
    destruct data as [d|]; [|injection Em as <- _; now left].
    destruct (bool_decide (d = ∅)); [injection Em as <- _; now left |].
    unfold bind in Em.
    repeat match type of Em with
           | match ?m ?w0 with _ => _ end = _ => destruct (m w0) as [[?|?] ?]; try discriminate
           end.
    injection Em as <- _. reflexivity.
Qed.

(** A request without queries is answered without a search.  When reading
    the body raises, the answer is the message of the exception with status
    500; without a body, or with an empty one, it is the 400 error; with a
    body whose three query keys are absent or false, it is an empty result
    object with status 200.  Once the hook of the first request has
    completed, nothing else happens; while it is pending, the hook runs
    first and its exception, if it raises, is the outcome.  The hook does
    nothing when the instance is set, and sets it when it returns. *)
Theorem search_without_queries `{Environment}
    (ns : Api.Namespace) (json : Exn + option (gmap string PyVal)) (w : World) :
  without_queries json ->
  Api.post_search false ns json w = (inr (unsearched json), w) /\
  Api.post_search true ns json w
  = (match fst (Api.initialize_api w) with
     | inl e => inl e
     | inr _ => inr (unsearched json)
     end, snd (Api.initialize_api w)) /\
  (api_instance w = true -> Api.initialize_api w = (inr tt, w)) /\
  match Api.initialize_api w with
  | (inr _, w') => api_instance w' = true
  | (inl _, _) => True
  end.
Proof.
  intros Hjson.
  assert (Hview : forall w0,
            match json with
            | inl e =>
                try_except (raise e)
                  (fun e => ret {| Api.body := Api.ErrorBody (exn_msg e);
                                   Api.status := 500 |})
            | inr data => Api.search ns data
            end w0 = (inr (unsearched json), w0)).
  { intros w0. destruct json as [e|[d|]]; [reflexivity | |reflexivity].
    unfold Api.search, try_except, unsearched.
    destruct (bool_decide (d = ∅)); [reflexivity |].
    assert (Hblock : forall key method out mr w1,
              In key (map fst served_methods) ->
              Api.search_block ns d key method out mr w1 = (inr [], w1)).
    { intros key method out mr w1 Hkey. specialize (Hjson key Hkey).
      unfold Api.search_block, no_query in *.
      destruct (d !! key) as [v|]; [now rewrite Hjson | reflexivity]. }
    unfold bind. rewrite !Hblock by (cbn; tauto). reflexivity. }
  split; [|split; [|split]].
  - unfold Api.post_search, bind. cbn [ret]. apply Hview.
  - unfold Api.post_search, bind.
    destruct (Api.initialize_api w) as [[e|[]] w1]; cbn [fst snd]; [reflexivity |].
    apply Hview.
  - intros Hset. unfold Api.initialize_api, Api.ensure_api, bind. now rewrite Hset.
  - unfold Api.initialize_api, Api.ensure_api, bind.
    destruct (api_instance w) eqn:Eset; [exact Eset |].
    destruct (Api.TruePeopleSearchAPI w) as [[e|self] w1]; [exact I | reflexivity].
Qed.

Lemma search_without_queries_witness :
  @Api.post_search calm_site false (Api.mkNamespace ∅ ∅)
    (inr (Some {[ "max_results" := PInt 3 ]})) world0
  = (inr {| Api.body := Api.ResultsBody []; Api.status := 200 |}, world0).
Proof.
  refine (proj1 (@search_without_queries calm_site (Api.mkNamespace ∅ ∅)
                   (inr (Some {[ "max_results" := PInt 3 ]})) world0 _)).
  intros key Hkey. cbn in Hkey. destruct Hkey as [<-|[<-|[<-|[]]]]; vm_compute; exact I.
Defined.

(** When a request with name queries is answered with results, the first
    entry is [name_results] and it holds at least one record per query:
    every query contributes its profiles or a failure marker. *)
Theorem every_name_query_is_answered `{Environment}
    (as_main : bool) (ns : Api.Namespace) (d : gmap string PyVal)
    (queries : list string) (w : World) :
  In ns (Api.serving as_main) ->
  d !! "name" = Some (PList queries) -> queries <> [] ->
  match fst (Api.search ns (Some d) w) with
  | inr r =>
      match Api.body r with
      | Api.ResultsBody ((key, found) :: _) =>
          key = "name_results" /\ (length queries <= length found)%nat
      | Api.ResultsBody [] => False
      | Api.ErrorBody _ => True
      end
  | inl _ => True
  end.
Proof.
  intros Hns Hname Hq.
  assert (Hne : d <> ∅) by (intros ->; rewrite lookup_empty in Hname; discriminate).
  unfold Api.search, try_except. rewrite (bool_decide_eq_false_2 _ Hne).
  set (mr := default (PInt 1) (d !! "max_results")).
  unfold bind at 1. unfold Api.search_block at 1. rewrite Hname.
  destruct queries as [|query rest]; [congruence |]. cbn [Api.truthy_val Api.iterate].
  unfold bind at 1.
  destruct (Api.run_queries ns "search_by_name" mr (query :: rest) [] w)
    as [[e|found] w1] eqn:Erun; [exact I |].
  pose proof (run_queries_length as_main ns mr (query :: rest) Hns [] _ _ _ Erun) as Hlen.
  cbn [ret]. unfold bind.
  repeat match goal with
         | |- context [match ?m ?w0 with _ => _ end] =>
             match m with
             | Api.search_block _ _ _ _ _ _ => destruct (m w0) as [[?|?] ?]; try exact I
             end
         end.
  cbn. split; [reflexivity | exact Hlen].
Qed.

Lemma every_name_query_is_answered_witness :
  match fst (@Api.search calm_site
               (hd (Api.mkNamespace ∅ ∅) (@Api.serving calm_site false))
               (Some {[ "name" := PList ["Jane Doe"; "John Doe"] ]}) live_world) with
  | inr r =>
      match Api.body r with
      | Api.ResultsBody ((key, found) :: _) =>
          key = "name_results" /\ (length ["Jane Doe"; "John Doe"] <= length found)%nat
      | Api.ResultsBody [] => False
      | Api.ErrorBody _ => True
      end
  | inl _ => True
  end.
Proof.
  apply (@every_name_query_is_answered calm_site false).
  - apply served_when_imported.
  - reflexivity.
  - discriminate.
Defined.

(** ** Matching a card to an owner *)

Section Matching.

Lemma lower_char_space (c : ascii) : Py.is_space (Py.lower_char c) = Py.is_space c.
Proof.
  revert c.
  assert (Hall : forall c, Bool.eqb (Py.is_space (Py.lower_char c)) (Py.is_space c) = true).
  { apply forall_ascii. vm_compute. reflexivity. }
  intros c. now apply Bool.eqb_prop.
Qed.

Lemma lower_char_idem (c : ascii) : Py.lower_char (Py.lower_char c) = Py.lower_char c.
Proof.
  revert c.
  assert (Hall : forall c, Ascii.eqb (Py.lower_char (Py.lower_char c)) (Py.lower_char c) = true).
  { apply forall_ascii. vm_compute. reflexivity. }
  intros c. now apply Ascii.eqb_eq.
Qed.

Lemma lower_chars (s : string) : Py.chars (Py.lower s) = map Py.lower_char (Py.chars s).
Proof. unfold Py.lower. apply chars_text. Qed.

Lemma lower_idem (s : string) : Py.lower (Py.lower s) = Py.lower s.
Proof.
  unfold Py.lower at 1. rewrite lower_chars, map_map. unfold Py.lower. f_equal.
  apply map_ext. apply lower_char_idem.
Qed.

Lemma lower_app (a b : string) : Py.lower (a +:+ b) = Py.lower a +:+ Py.lower b.
Proof. unfold Py.lower. now rewrite chars_app, map_app, text_app. Qed.

(** A blank ends the word that is being read. *)
Lemma words_chars_cut (a b : list ascii) (c : ascii) :
  Py.is_space c = true ->
  forall cur,
    Py.words_chars (a ++ c :: b) cur = Py.words_chars a cur ++ Py.words_chars b [].
Proof.
  intros Hc. induction a as [|x a IH]; intros cur; cbn [app Py.words_chars].
  - rewrite Hc. now destruct cur.
  - destruct (Py.is_space x); [|apply IH].
    destruct cur; [apply IH |]. cbn [app]. now rewrite IH.
Qed.

(** Characters without white space are read as one word. *)
Lemma words_chars_word (b : list ascii) :
  forallb (fun c => negb (Py.is_space c)) b = true ->
  forall cur,
    Py.words_chars b cur = match rev cur ++ b with
                           | [] => []
                           | l => [l]
                           end.
Proof.
  induction b as [|x b IH]; intros Hb cur; cbn [Py.words_chars].
  - rewrite app_nil_r. destruct cur as [|c cur]; [reflexivity |].
    cbn [rev]. destruct (rev cur ++ [c]) eqn:E; [|reflexivity].
    now apply app_eq_nil in E as [_ [=]].
  - cbn [forallb] in Hb. apply andb_prop in Hb as [Hx Hb].
    apply negb_true_iff in Hx. rewrite Hx, (IH Hb). cbn [rev].
    now rewrite <- app_assoc.
Qed.

(** White space holds no word. *)
Lemma words_chars_blank (b : list ascii) :
  forallb Py.is_space b = true -> Py.words_chars b [] = [].
Proof.
  induction b as [|x b IH]; cbn [Py.words_chars forallb]; [reflexivity |].
  intros Hb. apply andb_prop in Hb as [-> Hb]. now apply IH.
Qed.

Lemma lower_no_space (l : list ascii) :
  forallb (fun c => negb (Py.is_space c)) (map Py.lower_char l)
  = forallb (fun c => negb (Py.is_space c)) l.
Proof.
  induction l as [|c l IH]; cbn [map forallb]; [reflexivity |].
  now rewrite lower_char_space, IH.
Qed.

Lemma lower_blank (l : list ascii) :
  forallb Py.is_space (map Py.lower_char l) = forallb Py.is_space l.
Proof.
  induction l as [|c l IH]; cbn [map forallb]; [reflexivity |].
  now rewrite lower_char_space, IH.
Qed.

Lemma full_name_lower_chars (o : Scraper.Owner) :
  Py.chars (Py.lower (Scraper.full_name o))
  = map Py.lower_char (Py.chars (Scraper.first_name o))
    ++ " "%char :: map Py.lower_char (Py.chars (Scraper.last_name o)).
Proof.
  unfold Scraper.full_name. rewrite lower_chars, !chars_app, !map_app. reflexivity.
Qed.

(** The last name, when it is one word, is one of the words the name test
    tries. *)
Lemma last_name_is_tried (o : Scraper.Owner) :
  one_word (Scraper.last_name o) = true ->
  In (Py.lower (Scraper.last_name o)) (Py.words (Py.lower (Scraper.full_name o))).
Proof.
  unfold one_word. intros Hw. apply andb_prop in Hw as [Hne Hw].
  unfold Py.words. rewrite full_name_lower_chars.
  rewrite words_chars_cut by reflexivity. rewrite map_app. apply in_or_app. right.
  rewrite words_chars_word by now rewrite lower_no_space.
  cbn [rev app].
  destruct (Py.chars (Scraper.last_name o)) as [|c l] eqn:E.
  - rewrite <- (text_chars (Scraper.last_name o)), E in Hne. discriminate.
  - cbn [map]. left. unfold Py.lower. rewrite E. reflexivity.
Qed.

(** A name of white space has no word to try. *)
Lemma blank_name_has_no_word (o : Scraper.Owner) :
  blank (Scraper.first_name o) = true -> blank (Scraper.last_name o) = true ->
  Py.words (Py.lower (Scraper.full_name o)) = [].
Proof.
  unfold blank. intros Hf Hl. unfold Py.words. rewrite full_name_lower_chars.
  rewrite words_chars_cut by reflexivity.
  rewrite !words_chars_blank by now rewrite lower_blank. reflexivity.
Qed.

Lemma first_match_blank (o : Scraper.Owner) (cards : list Card) :
  blank (Scraper.first_name o) = true -> blank (Scraper.last_name o) = true ->
  Scraper.first_match o cards = None.
Proof.
  intros Hf Hl. induction cards as [|card rest IH]; cbn [Scraper.first_match]; [reflexivity |].
  destruct (card_name card) as [displayed|]; [|exact IH].
  unfold Scraper.name_matches. rewrite (blank_name_has_no_word o Hf Hl). exact IH.
Qed.

End Matching.

(** The name test of [search_by_address] passes on the last name alone: a
    card whose displayed name contains the owner's last name (one word,
    compared in lower case) matches whatever the first names are. *)
Theorem last_name_alone_matches (o : Scraper.Owner) (displayed : string) :
  Py.isascii (Scraper.last_name o) = true -> Py.isascii displayed = true ->
  one_word (Scraper.last_name o) = true ->
  Py.contains (Py.lower (Scraper.last_name o)) (Py.lower displayed) = true ->
  Scraper.name_matches o displayed = true.
Proof.
  intros _ _ Hw Hc. unfold Scraper.name_matches.
  apply existsb_exists. exists (Py.lower (Scraper.last_name o)).
  split; [now apply last_name_is_tried |]. now rewrite lower_idem.
Qed.

Lemma last_name_alone_matches_witness :
  Scraper.name_matches an_owner "John Doe" = true /\
  Scraper.first_match an_owner [ {| card_name := Some "John Doe";
                                    detail_href := Some "/find/person/p2" |} ]
  = Some "https://www.truepeoplesearch.com/find/person/p2".
Proof.
  assert (Hm : Scraper.name_matches an_owner "John Doe" = true)
    by (apply last_name_alone_matches; reflexivity).
  split; [exact Hm |]. cbn [Scraper.first_match card_name detail_href]. now rewrite Hm.
Defined.

(** ** What [search_by_address] reads of an owner *)

Section OwnerFields.
Context `{Environment}.

Lemma first_match_names (o1 o2 : Scraper.Owner) (cards : list Card) :
  Scraper.first_name o1 = Scraper.first_name o2 ->
  Scraper.last_name o1 = Scraper.last_name o2 ->
  Scraper.first_match o1 cards = Scraper.first_match o2 cards.
Proof.
  intros Hf Hl. induction cards as [|card rest IH]; cbn [Scraper.first_match]; [reflexivity |].
  unfold Scraper.name_matches, Scraper.full_name. now rewrite Hf, Hl, IH.
Qed.

Lemma search_by_address_blank (self : Config) (o : Scraper.Owner) :
  blank (Scraper.first_name o) = true -> blank (Scraper.last_name o) = true ->
  returns (fun r => r = None) (Scraper.search_by_address self o).
Proof.
  intros Hf Hl. unfold Scraper.search_by_address. apply returns_seq. intros html.
  destruct (negb (Py.truthy html)); [now apply returns_ret |].
  apply returns_seq. intros [html'|]; apply returns_ret; [|reflexivity].
  now apply first_match_blank.
Qed.

End OwnerFields.

(** [search_by_address] reads the owner's names and mailing address only:
    two owners that agree on these are searched alike, whatever their
    property address and row. *)
Theorem search_ignores_property_address `{Environment}
    (self : Config) (o1 o2 : Scraper.Owner) (w : World) :
  Scraper.first_name o1 = Scraper.first_name o2 ->
  Scraper.last_name o1 = Scraper.last_name o2 ->
  Scraper.mailing_address o1 = Scraper.mailing_address o2 ->
  Scraper.mailing_city o1 = Scraper.mailing_city o2 ->
  Scraper.mailing_state o1 = Scraper.mailing_state o2 ->
  Scraper.search_by_address self o1 w = Scraper.search_by_address self o2 w.
Proof.
  intros Hf Hl Ha Hc Hs. unfold Scraper.search_by_address, Scraper.submit_form.
  rewrite Ha, Hc, Hs. unfold bind.
  destruct (Scraper._make_request self Scraper.BASE_URL [] w) as [[e|html] w1]; [reflexivity |].
  destruct (negb (Py.truthy html)); [reflexivity |].
  match goal with |- context [try_except ?m ?h w1] => destruct (try_except m h w1) as [[e|[page|]] w2] end;
    try reflexivity.
  cbn [ret]. now rewrite (first_match_names o1 o2 _ Hf Hl).
Qed.

(** An owner whose names are blank is never found: no card passes the name
    test, so the owner's record carries an error and no contact data. *)
Theorem nameless_owner_is_never_found `{Environment}
    (self : Config) (output_file : string)
    (results : list Scraper.ScrapingResult) (o : Scraper.Owner) (w : World) :
  blank (Scraper.first_name o) = true -> blank (Scraper.last_name o) = true ->
  match fst (Scraper.search_by_address self o w) with
  | inr found => found = None
  | inl _ => True
  end /\
  match fst (Scraper.process_owner self output_file results o w) with
  | inr results' =>
      exists r, results' = results ++ [r] /\ Scraper.owner r = o /\
                Scraper.error r <> None /\
                Scraper.phone_numbers r = [] /\ Scraper.emails r = []
  | inl _ => False
  end.
Proof.
  intros Hf Hl.
  pose proof (search_by_address_blank self o Hf Hl) as Hs.
  split; [now apply returns_run |].
  unfold Scraper.process_owner, bind, attempt_result.
  destruct (Scraper.search_by_address self o w) as [[e|found] w1] eqn:Es.
  - cbn. eexists. repeat split; discriminate.
  - rewrite (Hs _ _ _ Es). cbn. eexists. repeat split; discriminate.
Qed.

Lemma search_ignores_property_address_witness :
  @Scraper.search_by_address calm_site Scraper.default_config an_owner live_world
  = @Scraper.search_by_address calm_site Scraper.default_config
      {| Scraper.first_name := "Jane"; Scraper.last_name := "Doe";
         Scraper.property_address := Some "9 Elm St";
         Scraper.property_city := Some "Shelbyville";
         Scraper.property_state := Some "IL"; Scraper.property_zip := None;
         Scraper.mailing_address := Some "1 Main St";
         Scraper.mailing_city := Some "Springfield";
         Scraper.mailing_state := Some "IL"; Scraper.mailing_zip := None;
         Scraper.row_index := 7 |} live_world.
Proof. apply (@search_ignores_property_address calm_site); reflexivity. Defined.

Lemma nameless_owner_is_never_found_witness :
  match fst (@Scraper.process_owner calm_site Scraper.default_config "out.xlsx" []
               {| Scraper.first_name := ""; Scraper.last_name := " ";
                  Scraper.property_address := None; Scraper.property_city := None;
                  Scraper.property_state := None; Scraper.property_zip := None;
                  Scraper.mailing_address := Some "1 Main St";
                  Scraper.mailing_city := Some "Springfield";
                  Scraper.mailing_state := Some "IL"; Scraper.mailing_zip := None;
                  Scraper.row_index := 0 |} live_world) with
  | inr results' =>
      exists r, results' = [] ++ [r] /\ Scraper.owner r = Scraper.owner r /\
                Scraper.error r <> None /\
                Scraper.phone_numbers r = [] /\ Scraper.emails r = []
  | inl _ => False
  end.
Proof.
  pose proof (@nameless_owner_is_never_found calm_site Scraper.default_config "out.xlsx" []
                {| Scraper.first_name := ""; Scraper.last_name := " ";
                   Scraper.property_address := None; Scraper.property_city := None;
                   Scraper.property_state := None; Scraper.property_zip := None;
                   Scraper.mailing_address := Some "1 Main St";
                   Scraper.mailing_city := Some "Springfield";
                   Scraper.mailing_state := Some "IL"; Scraper.mailing_zip := None;
                   Scraper.row_index := 0 |} live_world eq_refl eq_refl) as [_ Hp].
  destruct (fst (Scraper.process_owner _ _ _ _ _)) as [e|results']; [exact Hp |].
  destruct Hp as (r & Hr & _ & He & Hn & Hm). exists r. repeat split; assumption.
Defined.

(** ** The phone lists of the two paths *)

Section PhoneLists.

(** The invariant of the phone loop of the batch path: the list has no
    repetition, holds exactly the telephone spans read so far, and holds
    the phone of the local variable. *)
Lemma phone_step_distinct (numbers : list string) (phone : option string)
                          (section : PhoneSection) (seen : list string) :
  List.NoDup numbers -> (forall p, In p numbers <-> In p seen) ->
  bound_in_list (numbers, phone) ->
  match Scraper.phone_step (numbers, phone) section with
  | inl _ => True
  | inr (numbers', phone') =>
      List.NoDup numbers' /\
      (forall p, In p numbers' <-> In p (seen ++ spans [section])) /\
      bound_in_list (numbers', phone')
  end.
Proof.
  intros Hnd Hsame Hb.
  pose proof (phone_step_bound (numbers, phone) section Hb) as Hbound.
  unfold Scraper.phone_step in *. unfold spans. cbn [flat_map].
  destruct (phone_link section) as [[p|]|]; cbn [app].
  - destruct (NoDup_add_new numbers p Hnd) as [Hnd1 Hin1].
    assert (Hsame1 : forall q, In q (Py.add_new numbers p) <-> In q (seen ++ [p])).
    { intros q. rewrite in_app_iff, <- Hsame. unfold Py.add_new.
      destruct (Py.mem p numbers) eqn:E.
      - apply mem_In in E. simpl. intuition congruence.
      - rewrite in_app_iff. reflexivity. }
    destruct (phone_info section) as [info|]; [|auto].
    destruct (Py.contains Scraper.primary_flag info); [|auto].
    rewrite (list_remove_NoDup p _ Hnd1 Hin1) in *.
    split; [|split; [|exact Hbound]].
    + constructor; [|now apply NoDup_filter_bool].
      rewrite filter_In. unfold differs. rewrite String.eqb_refl. intros [_ [=]].
    + intros q. rewrite <- Hsame1. cbn [In]. rewrite filter_In. unfold differs.
      destruct (String.eqb q p) eqn:E.
      * apply String.eqb_eq in E. subst q. intuition.
      * apply String.eqb_neq in E. intuition congruence.
  - rewrite !app_nil_r.
    destruct (phone_info section) as [info|]; [|auto].
    destruct (Py.contains Scraper.primary_flag info); [|auto].
    destruct phone as [p|]; [|exact I].
    assert (Hin : In p numbers) by now apply Hb.
    rewrite (list_remove_NoDup p _ Hnd Hin) in *.
    split; [|split; [|exact Hbound]].
    + constructor; [|now apply NoDup_filter_bool].
      rewrite filter_In. unfold differs. rewrite String.eqb_refl. intros [_ [=]].
    + intros q. rewrite <- Hsame. cbn [In]. rewrite filter_In. unfold differs.
      destruct (String.eqb q p) eqn:E.
      * apply String.eqb_eq in E. subst q. intuition.
      * apply String.eqb_neq in E. intuition congruence.
  - rewrite !app_nil_r. auto.
Qed.

Lemma scan_phones_distinct (sections : list PhoneSection) :
  forall (numbers : list string) (phone : option string) (seen : list string),
    List.NoDup numbers -> (forall p, In p numbers <-> In p seen) ->
    bound_in_list (numbers, phone) ->
    match Scraper.scan_phones sections (numbers, phone) with
    | inl _ => True
    | inr numbers' =>
        List.NoDup numbers' /\ forall p, In p numbers' <-> In p (seen ++ spans sections)
    end.
Proof.
  induction sections as [|section rest IH]; intros numbers phone seen Hnd Hsame Hb;
    cbn [Scraper.scan_phones fst].
  - rewrite app_nil_r. auto.
  - pose proof (phone_step_distinct numbers phone section seen Hnd Hsame Hb) as Hstep.
    destruct (Scraper.phone_step (numbers, phone) section) as [e|[numbers' phone']];
      [exact I |].
    destruct Hstep as (Hnd' & Hsame' & Hb').
    specialize (IH numbers' phone' _ Hnd' Hsame' Hb').
    destruct (Scraper.scan_phones rest (numbers', phone')); [exact I |].
    change (section :: rest) with ([section] ++ rest).
    now rewrite spans_app, app_assoc.
Qed.

End PhoneLists.

(** The phone list the batch path extracts has no repetition and holds
    exactly the telephone numbers of the page, promoted or not. *)
Theorem batch_phones_are_distinct (soup : ProfileSoup) :
  match Scraper.parse_profile soup with
  | inl _ => True
  | inr d =>
      List.NoDup (Scraper.Profile.phone_numbers d) /\
      forall p, In p (Scraper.Profile.phone_numbers d) <-> In p (spans (phone_sections soup))
  end.
Proof.
  unfold Scraper.parse_profile.
  pose proof (scan_phones_distinct (phone_sections soup) [] None []) as Hs.
  destruct (Scraper.scan_phones (phone_sections soup) ([], None)); [exact I |].
  apply Hs; [constructor | reflexivity | intros p; discriminate].
Qed.

(** ** The batches of a run *)

Section Batches.
Context `{Environment}.
Variable self : Config.
Variable output_file : string.

(** Processing an owner returns, with one record of that owner appended. *)
Lemma process_owner_appends (results : list Scraper.ScrapingResult) (o : Scraper.Owner) :
  succeeds (fun rs => exists r, rs = results ++ [r] /\ Scraper.owner r = o)
           (Scraper.process_owner self output_file results o).
Proof.
  unfold Scraper.process_owner.
  apply succeeds_bind with (R1 := anything); [apply succeeds_attempt_result |].
  intros [e|[info|]] _; try (apply succeeds_ret; eexists; split; reflexivity).
  apply succeeds_bind with (R1 := anything); [apply succeeds_attempt_result |].
  intros saved _. destruct saved; apply succeeds_ret; eexists; split; reflexivity.
Qed.

Lemma process_batch_appends (batch : list Scraper.Owner) :
  forall results,
    succeeds (fun rs => map Scraper.owner rs = map Scraper.owner results ++ batch)
             (Scraper.process_batch self output_file results batch).
Proof.
  induction batch as [|o rest IH]; intros results; cbn [Scraper.process_batch].
  - apply succeeds_ret. now rewrite app_nil_r.
  - eapply succeeds_bind; [apply process_owner_appends |].
    intros rs (r & -> & Ho). eapply succeeds_weaken; [|apply IH].
    intros rs' ->. rewrite map_app. cbn [map]. rewrite Ho, <- app_assoc. reflexivity.
Qed.

(** The pause between two batches, when the generator stays in the unit
    interval. *)
Lemma pause_returns (more : bool) :
  random_in_unit ->
  succeeds (fun r => exists u, r = inr u)
           (attempt_result (if more then delay <- uniform 15 30;; sleep delay else ret tt)).
Proof.
  intros Hr w. unfold attempt_result. destruct more.
  - unfold bind, uniform, sleep.
    assert (Hd : Qle_bool 0 (15 + (30 - 15) * random_at (tick w)) = true).
    { apply Qle_bool_iff. destruct (Hr (tick w)) as [Hlo _].
      apply Qle_bool_iff in Hlo. nra. }
    rewrite Hd. cbn. eexists _, _. split; [reflexivity | now exists tt].
  - cbn. eexists _, _. split; [reflexivity | now exists tt].
Qed.

(** The batch that starts at [start] takes the owners from the first
    [start] to the first [start + step]. *)
Lemma next_batch (owners : list Scraper.Owner) (start step : nat) :
  take start owners
  ++ take (Nat.min (start + step) (length owners) - start) (drop start owners)
  = take (start + step) owners.
Proof.
  rewrite take_take_drop.
  destruct (Nat.le_gt_cases (start + step) (length owners)) as [Hle|Hgt].
  - f_equal. lia.
  - rewrite (take_ge owners (start + step)) by lia.
    apply take_ge. lia.
Qed.

Lemma process_batches_all (owners : list Scraper.Owner) (step n : nat) :
  random_in_unit ->
  forall (j : nat) (results : list Scraper.ScrapingResult),
    map Scraper.owner results = take (j * step) owners ->
    succeeds (fun out => map Scraper.owner (fst out) = take ((j + n) * step) owners /\
                         snd out = None)
             (Scraper.process_batches self output_file owners step
                (map (fun k => (k * step)%nat) (seq j n)) results).
Proof.
  intros Hr. induction n as [|n IH]; intros j results Hres;
    cbn [seq map Scraper.process_batches].
  - apply succeeds_ret. cbn [fst snd]. now rewrite Nat.add_0_r.
  - cbv zeta. eapply succeeds_bind; [apply process_batch_appends |].
    intros results' Hres'. cbn beta in Hres'.
    rewrite Hres, next_batch in Hres'.
    eapply succeeds_bind; [now apply pause_returns |].
    intros pause [u ->].
    eapply succeeds_weaken; [|apply (IH (S j))].
    + intros out [Hout Hnone]. split; [|exact Hnone].
      rewrite Hout. f_equal. lia.
    + rewrite Hres'. f_equal. lia.
Qed.

Lemma batches_cover (total step : nat) :
  (0 < step)%nat -> (total <= (total + step - 1) / step * step)%nat.
Proof.
  intros Hs. pose proof (Nat.mul_succ_div_gt (total + step - 1) step) as Hd. nia.
Qed.

End Batches.

Section Batching.
Context `{Environment}.

Lemma run_batches_all (self : Config) (output_file : string) (owners : list Scraper.Owner)
                      (batch_size : Z) (w : World) :
  0 < batch_size -> random_in_unit ->
  exists results w',
    Scraper.run_batches self output_file owners batch_size w = (inr (results, None), w') /\
    map Scraper.owner results = owners.
Proof.
  intros Hb Hr. unfold Scraper.run_batches.
  destruct (batch_size =? 0) eqn:E0; [apply Z.eqb_eq in E0; lia |].
  destruct (batch_size <? 0) eqn:E1; [apply Z.ltb_lt in E1; lia |].
  unfold Scraper.batch_starts.
  destruct (process_batches_all self output_file owners (Z.to_nat batch_size)
              ((length owners + Z.to_nat batch_size - 1) / Z.to_nat batch_size)
              Hr 0%nat [] eq_refl w) as ([results pending] & w' & Hrun & Hout & Hnone).
  cbn [fst snd] in *. subst pending. exists results, w'. split; [exact Hrun |].
  rewrite Hout. apply take_ge. cbn [Nat.add].
  apply batches_cover. lia.
Qed.

End Batching.

(** Batching loses no owner: with a positive batch size (and a generator
    that stays in the unit interval) the loop of [main] ends without an
    exception and has appended exactly one record per owner, in the order of
    the input, whatever the size of the batches. *)
Theorem every_owner_gets_one_record `{Environment}
    (self : Config) (output_file : string) (owners : list Scraper.Owner)
    (batch_size : Z) (w : World) :
  0 < batch_size -> random_in_unit ->
  exists results w',
    Scraper.run_batches self output_file owners batch_size w = (inr (results, None), w') /\
    map Scraper.owner results = owners.
Proof. apply run_batches_all. Qed.

Lemma every_owner_gets_one_record_witness :
  exists results w',
    @Scraper.run_batches calm_site Scraper.default_config "out.xlsx"
      [an_owner; another_owner; an_owner] 2 live_world = (inr (results, None), w') /\
    map Scraper.owner results = [an_owner; another_owner; an_owner].
Proof.
  apply (@every_owner_gets_one_record calm_site); [lia |].
  intros t. split; reflexivity.
Defined.

(** ** A run without batches *)

Section NoBatches.
Context `{Environment}.

Lemma quiet_scraper_constructor : obeys all_quiet anything Scraper.TruePeopleSearchScraper.
Proof.
  pose proof stable_all_quiet as Hstable.
  assert (Hquiet : forall l, all_quiet l -> all_quiet l) by auto.
  unfold Scraper.TruePeopleSearchScraper. obey.
Qed.

Lemma main_without_batches (owners : list Scraper.Owner) (output_file : string)
                           (batch_size : Z) :
  batch_size <= 0 ->
  obeys all_quiet (fun _ => batch_size < 0)
        (Scraper.main (inr owners) output_file batch_size).
Proof.
  intros Hb. pose proof stable_all_quiet as Hstable.
  assert (Hquiet : forall l, all_quiet l -> all_quiet l) by auto.
  unfold Scraper.main, Scraper.run_batches.
  apply obeys_seq; [assumption | apply quiet_scraper_constructor |]. intros scraper.
  apply obeys_bind with (R1 := fun out => fst out = [] /\ (snd out = None -> batch_size < 0));
    [assumption | |].
  - destruct (batch_size =? 0) eqn:E0; [apply obeys_ret; [constructor | now split] |].
    destruct (batch_size <? 0) eqn:E1; [|apply Z.ltb_ge in E1; apply Z.eqb_neq in E0; lia].
    apply Z.ltb_lt in E1. apply obeys_ret; [constructor | now split].
  - intros [results pending] [Hres Hpending]. cbn [fst snd] in *. subst results.
    apply obeys_seq; [assumption | apply obeys_done; assumption |]. intros _.
    apply obeys_seq; [assumption | now apply quiet_del |]. intros _.
    destruct pending; [apply obeys_raise; constructor |].
    apply obeys_ret; [constructor | now apply Hpending].
Qed.

End NoBatches.

(** With a batch size of zero or less, [main] builds the browser and then
    processes no owner: it visits no page and writes no file, not even the
    final one; with zero it ends in the ValueError of [range], with a
    negative size it returns as if the run had succeeded. *)
Theorem nonpositive_batch_size_processes_nothing `{Environment}
    (owners : list Scraper.Owner) (output_file : string) (batch_size : Z) (w : World) :
  batch_size <= 0 ->
  (exists delta,
     trace (snd (Scraper.main (inr owners) output_file batch_size w)) = trace w ++ delta /\
     all_quiet delta) /\
  match fst (Scraper.main (inr owners) output_file batch_size w) with
  | inr _ => batch_size < 0
  | inl _ => True
  end.
Proof.
  intros Hb. exact (obeys_run _ _ _ w (main_without_batches owners output_file batch_size Hb)).
Qed.

Lemma nonpositive_batch_size_processes_nothing_witness :
  (exists delta,
     trace (snd (@Scraper.main calm_site (inr [an_owner; another_owner]) "out.xlsx" (-5)
                   world0)) = trace world0 ++ delta /\
     all_quiet delta) /\
  match fst (@Scraper.main calm_site (inr [an_owner; another_owner]) "out.xlsx" (-5)
               world0) with
  | inr _ => -5 < 0
  | inl _ => True
  end.
Proof. apply (@nonpositive_batch_size_processes_nothing calm_site). lia. Defined.

(** ** Reading the input file *)

Section Input.

Lemma cell_stripped (row : Scraper.FrameRow) (column s : string) :
  Scraper.cell row column = Some s -> stripped s.
Proof.
  unfold Scraper.cell. destruct (Scraper.cells row !! column) as [raw|]; [|discriminate].
  intros [= <-]. apply strip_idem.
Qed.

Lemma owner_of_spec (n : string) (row : Scraper.FrameRow) (o : Scraper.Owner) :
  In o (Scraper.owner_of n row) ->
  Scraper.row_index o = Scraper.idx row /\
  stripped (Scraper.first_name o) /\ stripped (Scraper.last_name o) /\
  forall field s, In field address_fields -> field o = Some s -> stripped s.
Proof.
  unfold Scraper.owner_of.
  destruct (Scraper.cells row !! _) as [first|]; [|intros []].
  destruct (Scraper.cells row !! _) as [last|]; [|intros []].
  intros [<-|[]]. cbn. split; [reflexivity |].
  split; [apply strip_idem |]. split; [apply strip_idem |].
  intros field s Hf. cbn in Hf.
  repeat (destruct Hf as [<-|Hf]; [apply cell_stripped |]). destruct Hf.
Qed.

Lemma owner_of_length (n : string) (row : Scraper.FrameRow) :
  (length (Scraper.owner_of n row) <= 1)%nat.
Proof.
  unfold Scraper.owner_of.
  destruct (Scraper.cells row !! _); [|cbn; lia].
  destruct (Scraper.cells row !! _); cbn; lia.
Qed.

End Input.

(** [read_input_file] yields at most two owners per row, and every owner it
    yields carries the index of a row of the file and texts without white
    space at either end: the two names, and each address part that is
    present. *)
Theorem read_owners_are_stripped (df : list Scraper.FrameRow) :
  (length (Scraper.read_input_file df) <= 2 * length df)%nat /\
  forall o, In o (Scraper.read_input_file df) ->
    (exists row, In row df /\ Scraper.row_index o = Scraper.idx row) /\
    stripped (Scraper.first_name o) /\ stripped (Scraper.last_name o) /\
    forall field s, In field address_fields -> field o = Some s -> stripped s.
Proof.
  unfold Scraper.read_input_file. split.
  - induction df as [|row df IH]; cbn [flat_map length]; [lia |].
    rewrite !length_app.
    pose proof (owner_of_length "1" row). pose proof (owner_of_length "2" row). lia.
  - intros o Ho. apply in_flat_map in Ho as (row & Hrow & Ho).
    apply in_app_or in Ho as [Ho|Ho]; apply owner_of_spec in Ho as (Hi & Hrest);
      (split; [now exists row | exact Hrest]).
Qed.

(** ** The form interaction *)

Section Form.
Context `{Environment}.

Lemma succeeds_sleep_then {A} (d : Q) (a : A) :
  (0 <= d)%Q -> succeeds anything (sleep d;; ret a).
Proof.
  intros Hd. apply succeeds_bind with (R1 := anything); [now apply succeeds_sleep |].
  intros _ _. now apply succeeds_ret.
Qed.

Lemma fill_field_returns (expected : option string) :
  succeeds anything (Scraper.fill_field expected).
Proof.
  unfold Scraper.fill_field.
  apply succeeds_bind with (R1 := anything); [|intros; now apply succeeds_ret].
  apply succeeds_for_each. intros x _. apply succeeds_try. intros e.
  apply succeeds_sleep_then. discriminate.
Qed.

Lemma click_submit_returns : succeeds anything Scraper.click_submit.
Proof.
  unfold Scraper.click_submit.
  apply succeeds_bind with (R1 := anything); [|intros; now apply succeeds_ret].
  apply succeeds_for_each. intros x _. apply succeeds_try. intros e.
  apply succeeds_sleep_then. discriminate.
Qed.

Lemma submit_form_returns (o : Scraper.Owner) : succeeds anything (Scraper.submit_form o).
Proof.
  unfold Scraper.submit_form. apply succeeds_try. intros e.
  apply succeeds_bind with (R1 := anything); [apply succeeds_swallow |].
  intros _ _. now apply succeeds_ret.
Qed.

End Form.

(** The form interaction of [search_by_address] never raises: the loops
    that fill the two fields and click the button swallow every exception
    and go on, any other failure ends in [None], and so a search raises
    only the exception of its fetch of the home page. *)
Theorem form_interaction_never_raises `{Environment}
    (self : Config) (o : Scraper.Owner) (expected : option string) (w : World) :
  (exists w', Scraper.fill_field expected w = (inr tt, w')) /\
  (exists w', Scraper.click_submit w = (inr tt, w')) /\
  (exists page w', Scraper.submit_form o w = (inr page, w')) /\
  match fst (Scraper.search_by_address self o w) with
  | inl e => fst (Scraper._make_request self Scraper.BASE_URL [] w) = inl e
  | inr _ => True
  end.
Proof.
  split; [|split; [|split]].
  - destruct (fill_field_returns expected w) as ([] & w' & Hrun & _). now exists w'.
  - destruct (click_submit_returns w) as ([] & w' & Hrun & _). now exists w'.
  - destruct (submit_form_returns o w) as (page & w' & Hrun & _). now exists page, w'.
  - unfold Scraper.search_by_address, bind.
    destruct (Scraper._make_request self Scraper.BASE_URL [] w) as [[e|html] w1];
      [reflexivity |].
    destruct (negb (Py.truthy html)); [exact I |].
    destruct (submit_form_returns o w1) as (page & w2 & -> & _).
    now destruct page.
Qed.

(** ** The records of a name search *)

Section Records.
Context `{Environment}.

Lemma failure_answers (option_name given message : string) :
  answers option_name given (Api.failure option_name given message).
Proof. repeat split. discriminate. Qed.

Lemma collect_answers (self : Config) (option_name given : string) (cards : list Card) :
  forall results,
    Forall (answers option_name given) results ->
    returns (Forall (answers option_name given))
            (Api.collect self option_name given cards results).
Proof.
  induction cards as [|card rest IH]; intros results Hres; cbn [Api.collect].
  - now apply returns_ret.
  - destruct (detail_href card) as [href|]; [|now apply IH].
    apply returns_seq. intros [info|]; [|now apply IH].
    apply IH. apply Forall_app. split; [exact Hres |].
    constructor; [|constructor]. repeat split. apply on_site_link.
Qed.

Lemma search_url_answers (self : Config) (option_name given url : string)
                         (max_results : PyVal) :
  returns (Forall (answers option_name given))
          (Api.search_url self option_name given url max_results).
Proof.
  unfold Api.search_url.
  assert (Hone : forall message,
            returns (Forall (answers option_name given))
                    (ret [Api.failure option_name given message])).
  { intros message. apply returns_ret. constructor; [apply failure_answers | constructor]. }
  apply returns_seq. intros html.
  destruct (negb (Py.truthy html)); [apply Hone |].
  destruct (soup_cards (default "" html)) as [|card cards]; [apply Hone |].
  destruct (Api.slice_cards max_results (card :: cards)); [apply returns_raise |].
  eapply returns_bind; [apply collect_answers; constructor |].
  intros results Hres. destruct results; [apply Hone | now apply returns_ret].
Qed.

End Records.

(** Every record of a name search names its query, not as it was typed but
    as it was parsed (the name, then [; ] and the locality if there is
    one), and is either a failure marker without a link or a profile with a
    link of the site and no error. *)
Theorem search_by_name_names_its_query `{Environment}
    (self : Config) (name : string) (city_state : option string)
    (max_results : PyVal) (w : World) :
  match fst (Api.search_by_name self name city_state max_results w) with
  | inr results =>
      Forall (answers "Name Search"
                (Api.given_name (fst (Api.parse_name name city_state))
                                (snd (Api.parse_name name city_state)))) results
  | inl _ => True
  end.
Proof.
  apply returns_run. unfold Api.search_by_name.
  destruct (Api.parse_name name city_state) as [name' cs']. apply search_url_answers.
Qed.

(** The request-response path lists one phone entry per telephone number of
    the page, in page order, neither promoting a number nor removing a
    repetition; every entry is typed Landline, Wireless or Unknown. *)
Theorem api_phones_follow_the_page (soup : ProfileSoup) :
  map Api.Phone.number (Api.Profile.phones (Api.parse_profile soup))
  = spans (phone_sections soup) /\
  Forall (fun p => In (Api.Phone.type p) ["Landline"; "Wireless"; "Unknown"])
         (Api.Profile.phones (Api.parse_profile soup)).
Proof.
  rewrite api_profile_phones. unfold Api.scan_phones. split.
  - now rewrite api_phone_numbers_fold.
  - assert (Hfold : forall sections found,
              Forall (fun p => In (Api.Phone.type p) ["Landline"; "Wireless"; "Unknown"]) found ->
              Forall (fun p => In (Api.Phone.type p) ["Landline"; "Wireless"; "Unknown"])
                     (fold_left Api.phone_step sections found)).
    { induction sections as [|s sections IH]; intros found Hf; cbn [fold_left]; [exact Hf |].
      apply IH. unfold Api.phone_step.
      destruct (phone_link s) as [[p|]|]; try exact Hf.
      apply Forall_app. split; [exact Hf |]. constructor; [|constructor].
      destruct (phone_info s) as [info|]; cbn; [|tauto].
      unfold Api.phone_type. destruct (Py.contains "Landline" info); [tauto |].
      destruct (_ || _); tauto. }
    apply Hfold. constructor.
Qed.

(** ** The final file *)

Section FinalFile.
Context `{Environment}.

Lemma save_results_run (results : list Scraper.ScrapingResult) (path : string) (w : World) :
  exists r w',
    Scraper.save_results results path w = (r, w') /\
    trace w' = trace w ++ [ESave path (map Scraper.to_row results)].
Proof.
  unfold Scraper.save_results, bind, emit, external. cbn.
  destruct (call_raises (tick w)); eexists _, _; split; reflexivity.
Qed.

End FinalFile.

(** The final file holds every owner: once the browser is built, a run with
    a positive batch size over a non-empty input ends its writes with one
    of [output_file], whose rows are those of one record per owner of the
    input.  The statement is about which rows the file holds: their order
    in the file is by Row Index, which pandas sets before it writes. *)
Theorem final_file_holds_every_owner `{Environment}
    (owners : list Scraper.Owner) (output_file : string) (batch_size : Z) (w : World) :
  0 < batch_size -> random_in_unit -> owners <> [] ->
  match fst (Scraper.TruePeopleSearchScraper w) with
  | inl _ => True
  | inr _ =>
      exists results before after,
        trace (snd (Scraper.main (inr owners) output_file batch_size w))
        = before ++ ESave output_file (map Scraper.to_row results) :: after /\
        Permutation (map Scraper.owner results) owners /\ all_quiet after
  end.
Proof.
  intros Hb Hr Hne. unfold Scraper.main, bind.
  destruct (Scraper.TruePeopleSearchScraper w) as [[e|scraper] w1]; cbn [fst]; [exact I |].
  destruct (run_batches_all scraper output_file owners batch_size w1 Hb Hr)
    as (results & w2 & -> & Hout).
  cbn [fst snd]. exists results.
  destruct results as [|r0 rs]; [symmetry in Hout; contradiction |].
  destruct (save_results_run (r0 :: rs) output_file w2) as (r3 & w3 & -> & Ht3).
  destruct r3 as [e|[]].
  - exists (trace w2), []. cbn [snd]. split; [exact Ht3 |].
    split; [now rewrite Hout | constructor].
  - destruct (__del__ w3) as [r4 w4] eqn:Edel.
    assert (Hq : obeys all_quiet anything __del__)
      by (apply quiet_del; [apply stable_all_quiet | auto]).
    destruct (Hq _ _ _ Edel) as ((d4 & Ht4 & Hq4) & _).
    exists (trace w2), d4. split; [|split; [now rewrite Hout | exact Hq4]].
    destruct r4 as [e|[]]; cbn [snd ret]; rewrite Ht4, Ht3, <- app_assoc; reflexivity.
Qed.

Lemma final_file_holds_every_owner_witness :
  exists results before after,
    trace (snd (@Scraper.main calm_site (inr [an_owner; another_owner]) "out.xlsx" 1 world0))
    = before ++ ESave "out.xlsx" (map Scraper.to_row results) :: after /\
    Permutation (map Scraper.owner results) [an_owner; another_owner] /\ all_quiet after.
Proof.
  refine (@final_file_holds_every_owner calm_site [an_owner; another_owner] "out.xlsx" 1
            world0 _ _ _).
  - lia.
  - intros t. split; reflexivity.
  - discriminate.
Defined.

(** ** The pattern of the address *)

Section Patterns.

Lemma starts_with_spec (p : string) (l : list ascii) :
  Re.starts_with p l = true -> exists rest, l = Py.chars p ++ rest.
Proof.
  unfold Re.starts_with. revert l. induction p as [|c p IH]; intros l.
  - intros _. now exists l.
  - destruct l as [|d l]; cbn [Py.text string_of_list_ascii String.prefix]; [discriminate |].
    destruct (ascii_dec c d) as [<-|]; [|discriminate].
    intros Hp. destruct (IH l Hp) as [rest ->]. now exists rest.
Qed.

Lemma forallb_take_while_prefix (p : ascii -> bool) (run : list ascii) (k : nat) :
  forallb p run = true -> forallb p (take k run) = true.
Proof.
  revert k. induction run as [|c run IH]; intros [|k]; cbn; try reflexivity.
  intros Hr. apply andb_prop in Hr as [-> Hr]. now apply IH.
Qed.

(** What [last_county] finds is a cut of the run before a [County], with
    something before it. *)
Lemma last_county_spec (run : list ascii) :
  forall before_rev best m,
    Re.last_county before_rev run best = Some m ->
    best = Some m \/
    exists k rest,
      run = take k run ++ Py.chars "County" ++ rest /\
      m = rev before_rev ++ take k run ++ Py.chars "County" /\
      rev before_rev ++ take k run <> [].
Proof.
  induction run as [|c run IH]; intros before_rev best m; cbn [Re.last_county].
  - intros ->. now left.
  - intros Hm. apply IH in Hm as [Hbest|(k & rest & Hrun & Hm & Hne)].
    + destruct before_rev as [|b before_rev]; [now left |].
      destruct (Re.starts_with "County" (c :: run)) eqn:Es; [|now left].
      injection Hbest as <-. right.
      destruct (starts_with_spec _ _ Es) as [rest Hrest].
      exists 0%nat, rest. cbn [take app]. rewrite app_nil_r.
      split; [exact Hrest |]. split; [reflexivity |].
      cbn [rev]. intros Hnil. now apply app_eq_nil in Hnil as [_ [=]].
    + right. exists (S k), rest. cbn [take app rev] in *.
      split; [now rewrite <- Hrun |]. rewrite <- !app_assoc in *. cbn [app] in *.
      split; [exact Hm | exact Hne].
Qed.

Lemma county_chars_spec (l : list ascii) :
  forall inside m,
    Re.county_chars l inside = Some m ->
    county_shaped m /\ exists before after, l = before ++ Py.chars m ++ after.
Proof.
  induction l as [|c l IH]; intros inside m; cbn [Re.county_chars]; [discriminate |].
  assert (Hlater : forall inside', Re.county_chars l inside' = Some m ->
            county_shaped m /\ exists before after, c :: l = before ++ Py.chars m ++ after).
  { intros inside' Hm. destruct (IH _ _ Hm) as (Hshape & before & after & ->).
    split; [exact Hshape |]. now exists (c :: before), after. }
  destruct (Re.county_class c) eqn:Ec; [|apply Hlater].
  destruct inside; [apply Hlater |].
  set (run := Py.take_while Re.county_class (c :: l)).
  destruct (Re.last_county [] run None) as [found|] eqn:Ef; [|apply Hlater].
  intros [= <-].
  apply last_county_spec in Ef as [[=]|(k & rest & Hrun & -> & Hne)].
  cbn [rev app] in *. split.
  - exists (take k run). rewrite chars_text. split; [reflexivity |]. split; [exact Hne |].
    apply forallb_take_while_prefix, take_while_all.
  - exists [], (rest ++ Py.drop_while Re.county_class (c :: l)). cbn [app].
    rewrite chars_text, <- app_assoc, (app_assoc _ rest), <- app_assoc.
    rewrite (app_assoc (take k run)), <- app_assoc in Hrun |- *.
    rewrite (app_assoc (take k run)), (app_assoc (take k run ++ _)).
    rewrite <- (app_assoc (take k run)), <- Hrun. apply take_drop_while.
Qed.

End Patterns.

(** The field [country_name] holds a county: when it is set, letters and
    white space followed by [County], found in the text of the address
    block. *)
Theorem country_name_is_a_county (soup : ProfileSoup) :
  match Api.Profile.country_name (Api.parse_profile soup) with
  | None => True
  | Some m =>
      county_shaped m /\
      exists a, address_section soup = Some a /\ substring_of m (address_text a)
  end.
Proof.
  assert (Hc : Api.Profile.country_name (Api.parse_profile soup)
               = address_section soup ≫= (fun a => Re.county (address_text a))).
  { unfold Api.parse_profile.
    destruct (match name_header soup with
              | Some name_text => Api.parse_header name_text
              | None => (None, None, None)
              end) as [[? ?] ?]. reflexivity. }
  rewrite Hc. destruct (address_section soup) as [a|]; [|exact I]. cbn.
  destruct (Re.county (address_text a)) as [m|] eqn:Em; [|exact I].
  destruct (county_chars_spec _ _ _ Em) as (Hshape & before & after & Hl).
  split; [exact Hshape |]. exists a. split; [reflexivity |]. now exists before, after.
Qed.
